(** * superteammy-guardian: the admission and rate-limiting core

    A shallow embedding of the JavaScript sources
    [src/CooldownMap.js], [src/adminCache.js], [src/db.js],
    [src/config.js], [src/handlers/intro.js], [src/handlers/welcome.js],
    [src/handlers/gatekeeper.js] and [src/handlers/admin.js], and the
    properties of the specification settled against them.

    Conventions of the embedding:
    - [Date.now()] is a parameter [now : Z] (milliseconds) of each
      synchronous run; an [await] splits a run in two, each with its own
      reading of the clock;
    - a JavaScript [Map] is an insertion-ordered association list
      ([JsMap]); the SQLite tables are [gmap]s keyed by their primary key;
    - a method of a mutable object is a function from the object's state
      to a result and the next state;
    - [throw] is the [Throw] constructor of [result];
    - the names and texts that the handlers pass around are strings of
      code units below 256 ([JsString]); the validator of introductions
      is also given on texts of any code units ([Utf16], [IntroUtf16]),
      with [toLowerCase] as a parameter. *)

From Stdlib Require Import ZArith Bool List String Ascii Lia.
From stdpp Require Import base decidable option list gmap strings pretty.

Local Open Scope Z_scope.

(** ** JavaScript [Map]: insertion-ordered finite map *)

Module JsMap.
Section Map.
Context {K V : Type} `{EqDecision K}.

Definition t := list (K * V).

Definition empty : t := [].

(** [map.get(key)]; [None] is [undefined]. *)
Fixpoint get (key : K) (m : t) : option V :=
  match m with
  | [] => None
  | (k, v) :: m' => if decide (k = key) then Some v else get key m'
  end.

Definition has (key : K) (m : t) : bool :=
  match get key m with Some _ => true | None => false end.

(** [map.set(key, val)]: an existing key keeps its position, a new key
    goes last. *)
Fixpoint set (key : K) (val : V) (m : t) : t :=
  match m with
  | [] => [(key, val)]
  | (k, v) :: m' =>
      if decide (k = key) then (k, val) :: m' else (k, v) :: set key val m'
  end.

(** [map.delete(key)]. *)
Fixpoint delete (key : K) (m : t) : t :=
  match m with
  | [] => []
  | (k, v) :: m' =>
      if decide (k = key) then delete key m' else (k, v) :: delete key m'
  end.

(** [map.size]. *)
Definition size (m : t) : Z := Z.of_nat (length m).

Definition keys (m : t) : list K := map fst m.

(** [map.keys().next().value]; [None] is [undefined] (empty map). *)
Definition first_key (m : t) : option K := head (keys m).

(** The keys of a [Map] are pairwise distinct. *)
Definition wf (m : t) : Prop := NoDup (keys m).

End Map.
Global Arguments t : clear implicits.
End JsMap.

(** ** [src/CooldownMap.js] *)

Module CooldownMap.

(** What the map stores under a key: the number written by [touch], or the
    object [{ count, firstAttempt }] written by [increment]. *)
Inductive Entry : Type :=
| Timestamp (ts : Z)
| Attempts (count firstAttempt : Z).

Section Class.
Context {K : Type} `{EqDecision K}.

(** The fields set by the constructor; [_interval] is the period of the
    timer that fires [_purge], [None] once [destroy] has cleared it. *)
Record t : Type := mk {
  _map : JsMap.t K Entry;
  _windowMs : Z;
  _maxSize : Z;
  _interval : option Z
}.

Definition with_map (m : JsMap.t K Entry) (self : t) : t :=
  mk m (_windowMs self) (_maxSize self) (_interval self).

(** The longest period [setInterval] takes. *)
Definition TIMEOUT_MAX : Z := 2 ^ 31 - 1.

(** [new CooldownMap(windowMs, { cleanupMultiplier, maxSize })]; the
    timer runs with a period of 1 when [setInterval] is given one below 1
    or above [TIMEOUT_MAX]. *)
Definition new' (windowMs cleanupMultiplier maxSize : Z) : t :=
  let period := windowMs * cleanupMultiplier in
  mk JsMap.empty windowMs maxSize
    (Some (if (1 <=? period) && (period <=? TIMEOUT_MAX) then period
           else 1)).

(** the defaults [cleanupMultiplier = 2], [maxSize = 0] *)
Definition new (windowMs : Z) : t := new' windowMs 2 0.

(** [isLimited(key)]: [ts != null && Date.now() - ts < this._windowMs].
    On an object the subtraction is [NaN] and the comparison false. *)
Definition isLimited (now : Z) (key : K) (self : t) : bool * t :=
  let ts := JsMap.get key (_map self) in
  (match ts with
   | None => false
   | Some (Timestamp ts) => now - ts <? _windowMs self
   | Some (Attempts _ _) => false
   end, self).

(** [touch(key)] *)
Definition touch (now : Z) (key : K) (self : t) : t :=
  let m := _map self in
  let m :=
    if negb (_maxSize self =? 0) && (_maxSize self <=? JsMap.size m) then
      match JsMap.first_key m with
      | Some oldest => JsMap.delete oldest m
      | None => m
      end
    else m in
  with_map (JsMap.set key (Timestamp now) m) self.

(** [increment(key, max)]. A missing entry, a number, or an object whose
    window is over starts a new window; otherwise the stored object is
    updated in place. *)
Definition increment (now : Z) (key : K) (max : Z) (self : t) : bool * t :=
  let fresh :=
    (false, with_map (JsMap.set key (Attempts 1 now) (_map self)) self) in
  match JsMap.get key (_map self) with
  | Some (Attempts count firstAttempt) =>
      if _windowMs self <? now - firstAttempt then fresh
      else
        let count := count + 1 in
        (max <? count,
         with_map (JsMap.set key (Attempts count firstAttempt) (_map self))
           self)
  | Some (Timestamp _) | None => fresh
  end.

(** [get size()] *)
Definition size (self : t) : Z := JsMap.size (_map self).

Definition wf (self : t) : Prop := JsMap.wf (_map self).

(** [typeof val === 'object' ? val.firstAttempt : val] *)
Definition anchor (val : Entry) : Z :=
  match val with
  | Attempts _ firstAttempt => firstAttempt
  | Timestamp ts => ts
  end.

(** One turn of the loop of [_purge]. *)
Definition purge_step (now windowMs : Z) (m : JsMap.t K Entry)
    (entry : K * Entry) : JsMap.t K Entry :=
  let '(key, val) := entry in
  let ts := anchor val in
  if windowMs <? now - ts then JsMap.delete key m else m.

(** [_purge()]: the loop runs over the entries of the map and deletes
    from the map as it goes. *)
Definition _purge (now : Z) (self : t) : t :=
  with_map (fold_left (purge_step now (_windowMs self)) (_map self) (_map self))
    self.

(** [destroy()] *)
Definition destroy (self : t) : t :=
  mk (_map self) (_windowMs self) (_maxSize self) None.

(** Successive calls of [increment(key, max)] at the given times. *)
Fixpoint increment_all (times : list Z) (key : K) (max : Z) (self : t)
    : list bool * t :=
  match times with
  | [] => ([], self)
  | now :: times' =>
      let '(b, self') := increment now key max self in
      let '(bs, self'') := increment_all times' key max self' in
      (b :: bs, self'')
  end.

(** The operations that write to the map. *)
Inductive Op : Type :=
| OpTouch (now : Z) (key : K)
| OpIncrement (now : Z) (key : K) (max : Z).

Definition apply_op (self : t) (op : Op) : t :=
  match op with
  | OpTouch now key => touch now key self
  | OpIncrement now key max => snd (increment now key max self)
  end.

Definition run (ops : list Op) (self : t) : t := fold_left apply_op ops self.
End Class.
Global Arguments t : clear implicits.
Global Arguments Op : clear implicits.
End CooldownMap.

(** ** [src/config.js]: the constants *)

Module Config.
Local Open Scope string_scope.

Definition WELCOME_COOLDOWN_MS : Z := 5000.
Definition MAX_NEW_MEMBERS_PER_EVENT : Z := 10.
Definition INTRO_RATE_LIMIT_WINDOW_MS : Z := 60000.
Definition INTRO_RATE_LIMIT_MAX : Z := 5.
Definition INTRO_KEYWORD_BYPASS_LENGTH : Z := 150.
Definition REMINDER_COOLDOWN_MS : Z := 30000.
Definition REMINDER_AUTO_DELETE_MS : Z := 15000.

Definition INTRO_MIN_LENGTH : Z := 50.
Definition INTRO_MAX_LENGTH : Z := 4000.
Definition INTRO_KEYWORDS : list string :=
  [ "who are you";
    "what do you do";
    "where are you based";
    "fun fact";
    "contribute" ].
End Config.

(** ** JavaScript strings

    A string is a sequence of code units; the embedding covers the code
    units below 256 (Latin-1), on which [toLowerCase] maps one unit to
    one unit. *)

Module JsString.
(** [toLowerCase] on one code unit: [A]-[Z] and the capital letters
    U+00C0-U+00DE (all but the sign U+00D7) move up by 32. *)
Definition lower_unit (c : ascii) : ascii :=
  let n := N_of_ascii c in
  if ((65 <=? n) && (n <=? 90)
      || (192 <=? n) && (n <=? 222) && negb (n =? 215))%N
  then ascii_of_N (n + 32)
  else c.

(** [s.toLowerCase()] *)
Fixpoint toLowerCase (s : string) : string :=
  match s with
  | EmptyString => EmptyString
  | String c s' => String (lower_unit c) (toLowerCase s')
  end.

(** [s.length] *)
Definition length (s : string) : Z := Z.of_nat (String.length s).

(** [s.startsWith(needle)] *)
Fixpoint startsWith (s needle : string) : bool :=
  match needle, s with
  | EmptyString, _ => true
  | String _ _, EmptyString => false
  | String a needle', String b s' =>
      if Ascii.eqb a b then startsWith s' needle' else false
  end.

(** [s.includes(needle)]: [needle] starts at some position of [s]. *)
Fixpoint includes (s needle : string) : bool :=
  startsWith s needle
  || match s with
     | EmptyString => false
     | String _ s' => includes s' needle
     end.

(** [s.slice(0, n)] *)
Fixpoint slice0 (n : nat) (s : string) : string :=
  match n, s with
  | O, _ => EmptyString
  | S _, EmptyString => EmptyString
  | S n', String c s' => String c (slice0 n' s')
  end.
End JsString.

(** ** [src/handlers/intro.js]: the validator, on texts of code units
    below 256 *)

Module Intro.
Import Config.

(** [isValidIntro(text)] *)
Definition isValidIntro (text : string) : bool :=
  if JsString.length text <? INTRO_MIN_LENGTH then false
  else if INTRO_MAX_LENGTH <? JsString.length text then false
  else
    let lower := JsString.toLowerCase text in
    let matches :=
      List.filter
        (fun kw => JsString.includes lower (JsString.toLowerCase kw))
        INTRO_KEYWORDS in
    (2 <=? Z.of_nat (List.length matches))
    || (INTRO_KEYWORD_BYPASS_LENGTH <=? JsString.length text).
End Intro.

(** ** JavaScript strings in general

    A string is a sequence of 16-bit code units, given here by their
    numbers. [toLowerCase] is a built-in of the engine that follows the
    case mappings of the Unicode Character Database; it enters as a
    parameter, and [lowers] says what of it is used: a code unit below
    128 is lowered by itself, the capital letters [A]-[Z] to their small
    letters and every other to itself; what stands for a character from
    128 on (one unit, or a surrogate pair) is lowered to at least one
    unit, none of them below 128, but for U+0130, which gives [i]
    followed by U+0307, and the Kelvin sign U+212A, which gives [k]. *)

Module Utf16.
Local Open Scope N_scope.

Definition t : Type := list N.

(** The code units of a string of units below 256. *)
Definition of_string (s : string) : t :=
  map N_of_ascii (list_ascii_of_string s).

(** [s.length] *)
Definition length (s : t) : Z := Z.of_nat (List.length s).

(** [s.startsWith(needle)] *)
Fixpoint startsWith (s needle : t) : bool :=
  match needle, s with
  | [], _ => true
  | _ :: _, [] => false
  | a :: needle', b :: s' => if a =? b then startsWith s' needle' else false
  end.

(** [s.includes(needle)]: [needle] starts at some position of [s]. *)
Fixpoint includes (s needle : t) : bool :=
  startsWith s needle
  || match s with
     | [] => false
     | _ :: s' => includes s' needle
     end.

(** [toLowerCase] on a code unit below 128. *)
Definition lower_ascii (u : N) : N :=
  if (65 <=? u) && (u <=? 90) then u + 32 else u.

(** [lowers s l]: [l] may be [s.toLowerCase()]. *)
Inductive lowers : t -> t -> Prop :=
| lowers_nil : lowers [] []
| lowers_ascii (u : N) (s l : t) :
    u < 128 -> lowers s l -> lowers (u :: s) (lower_ascii u :: l)
| lowers_other (src img s l : t) :
    src <> [] -> Forall (fun u => 128 <= u) src ->
    img <> [] ->
    Forall (fun u => 128 <= u) img
    \/ (src = [304] /\ img = [105; 775])
    \/ (src = [8490] /\ img = [107]) ->
    lowers s l -> lowers (src ++ s) (img ++ l).

(** [toLowerCase] of [JsString], on code units: the units from 256 on
    are left as they are. *)
Definition lower_latin1 (u : N) : N :=
  if u <? 256 then N_of_ascii (JsString.lower_unit (ascii_of_N u)) else u.

Definition toLowerCase_latin1 (s : t) : t := map lower_latin1 s.

(** The same with the two characters that [lowers] names, for texts of
    units below 256 and these two. *)
Definition lower_basic (u : N) : t :=
  if u =? 304 then [105; 775]
  else if u =? 8490 then [107]
  else [lower_latin1 u].

Definition toLowerCase_basic (s : t) : t := flat_map lower_basic s.

(** A needle that can only be found where units below 128 have been
    lowered: its units are below 128, none is [k], and the last is not
    [i]. *)
Fixpoint ascii_needle (needle : t) : bool :=
  match needle with
  | [] => true
  | u :: rest =>
      (u <? 128) && negb (u =? 107)
      && match rest with
         | [] => negb (u =? 105)
         | _ :: _ => ascii_needle rest
         end
  end.

(** A keyword of units below 128 that is not empty and whose lowering is
    such a needle. *)
Definition ascii_keyword (kw : t) : bool :=
  negb (Nat.eqb (List.length kw) 0)
  && forallb (fun u => u <? 128) kw
  && ascii_needle (map lower_ascii kw).
End Utf16.

(** ** [src/handlers/intro.js]: the validator on any text *)

Module IntroUtf16.
Import Config.

Section Validator.
Variable toLowerCase : Utf16.t -> Utf16.t.

(** [isValidIntro(text)] *)
Definition isValidIntro (text : Utf16.t) : bool :=
  if Utf16.length text <? INTRO_MIN_LENGTH then false
  else if INTRO_MAX_LENGTH <? Utf16.length text then false
  else
    let lower := toLowerCase text in
    let matches :=
      List.filter
        (fun kw =>
           Utf16.includes lower (toLowerCase (Utf16.of_string kw)))
        INTRO_KEYWORDS in
    (2 <=? Z.of_nat (List.length matches))
    || (INTRO_KEYWORD_BYPASS_LENGTH <=? Utf16.length text).
End Validator.

(** The letters whose case is ignored, each capital with its small
    letter. *)
Definition letter_pairs : list (N * N) :=
  zip (Utf16.of_string "ABCDEFGHIJKLMNOPQRSTUVWXYZ")
    (Utf16.of_string "abcdefghijklmnopqrstuvwxyz").

(** Two code units are the same character up to letter case. *)
Definition same_letter (a b : N) : Prop :=
  a = b \/ (a, b) ∈ letter_pairs \/ (b, a) ∈ letter_pairs.

(** The specification's reading of a keyword match: some stretch of
    [text] spells [kw] when letter case is ignored. *)
Definition occurs_ignoring_case (kw text : Utf16.t) : Prop :=
  exists before mid after : Utf16.t,
    text = before ++ mid ++ after
    /\ Forall2 same_letter mid kw.

(** At least two of the configured keywords occur, each counted once. *)
Definition two_keywords_occur (text : Utf16.t) : Prop :=
  exists kw1 kw2 : string,
    kw1 <> kw2
    /\ kw1 ∈ INTRO_KEYWORDS /\ kw2 ∈ INTRO_KEYWORDS
    /\ occurs_ignoring_case (Utf16.of_string kw1) text
    /\ occurs_ignoring_case (Utf16.of_string kw2) text.
End IntroUtf16.

(** ** Exceptions and mutable state

    A JavaScript function that reads and writes a store [S] and may
    [throw]: it ends with a value or with an error, and in both cases
    leaves a store behind (what was written before a [throw] stays
    written). *)

Inductive Error : Type :=
| InvalidSettingKey (key : string)
| InvalidInteger (label : string) (value : Z).

Inductive result (A : Type) : Type :=
| Ok (a : A)
| Throw (e : Error).
Global Arguments Ok {A} a.
Global Arguments Throw {A} e.

Definition Eff (S A : Type) : Type := S -> result A * S.

Definition ret {S A} (a : A) : Eff S A := fun s => (Ok a, s).

Definition throw {S A} (e : Error) : Eff S A := fun s => (Throw e, s).

Definition bind {S A B} (m : Eff S A) (k : A -> Eff S B) : Eff S B :=
  fun s =>
    match m s with
    | (Ok a, s') => k a s'
    | (Throw e, s') => (Throw e, s')
    end.

Definition gets {S A} (f : S -> A) : Eff S A := fun s => (Ok (f s), s).

Definition modify {S} (f : S -> S) : Eff S unit := fun s => (Ok tt, f s).

Declare Scope eff_scope.
Delimit Scope eff_scope with eff.
Notation "'let!' x := m 'in' k" := (bind m (fun x => k))
  (at level 10, x name, m at level 100, k at level 200) : eff_scope.
Notation "m ;; k" := (bind m (fun _ => k))
  (at level 100, k at level 200, right associativity) : eff_scope.

(** [for (const x of xs) body(x)]; a [throw] in the body ends the loop. *)
Fixpoint for_of {S A} (xs : list A) (body : A -> Eff S unit) : Eff S unit :=
  match xs with
  | [] => ret tt
  | x :: xs' => bind (body x) (fun _ => for_of xs' body)
  end.

(** ** JavaScript values, as far as [Number.isInteger] tells them apart *)

Module JsValue.
(** A number is a finite double [m * 2^e], [NaN], or an infinity. *)
Inductive Number : Type :=
| Finite (m e : Z)
| NaN
| Infinity (negative : bool).

Inductive t : Type :=
| Undefined
| Null
| Boolean (b : bool)
| Num (n : Number)
| Str (s : string).

(** The integer a number is, if it is one. *)
Definition to_integer (v : t) : option Z :=
  match v with
  | Num (Finite m e) =>
      if 0 <=? e then Some (m * 2 ^ e)
      else if m mod 2 ^ (- e) =? 0 then Some (m / 2 ^ (- e))
      else None
  | _ => None
  end.

(** [Number.isInteger(v)] *)
Definition Number_isInteger (v : t) : bool :=
  match to_integer v with Some _ => true | None => false end.

Definition of_Z (z : Z) : t := Num (Finite z 0).
End JsValue.

(** ** The Telegram API object handed to the cache *)

Module Telegram.
Record ChatMember : Type := { status : string }.

(** How the promise of [getChatMember] settles: resolved with a member
    object (or with no object), or rejected. *)
Inductive Response : Type :=
| Resolved (member : option ChatMember)
| Rejected.

(** [telegram.getChatMember(chatId, userId)] *)
Definition t : Type := Z -> Z -> Response.
End Telegram.

(** ** [src/adminCache.js] *)

Module AdminCache.
Import Telegram.

Definition ADMIN_CACHE_MS : Z := 5 * 60 * 1000.
Definition ADMIN_CACHE_MAX : Z := 10000.

Record CacheEntry : Type := { isAdmin_ : bool; expires : Z }.

(** [_cache]. The key ["chatId:userId"] of two integers is the pair. *)
Definition t : Type := JsMap.t (Z * Z) CacheEntry.

(** What a call has done: its answer, the cache it leaves, and the calls
    of [getChatMember] it has made. *)
Record Outcome : Type := {
  answer : bool;
  cache : t;
  calls : list (Z * Z)
}.

(** The body of the [try] once the promise has settled; [None] is the
    [catch]. Reading [status] off a missing member throws. *)
Definition resolve (response : Response) : option bool :=
  match response with
  | Resolved (Some member) =>
      Some (String.eqb (status member) "creator"%string
            || String.eqb (status member) "administrator"%string)
  | Resolved None => None
  | Rejected => None
  end.

(** [isAdmin(telegram, chatId, userId)]: [now] is the clock when the
    call starts, [now'] the clock when the awaited promise has
    settled. *)
Definition isAdmin (telegram : Telegram.t) (now now' : Z)
    (chatId userId : JsValue.t) (_cache : t) : Outcome :=
  match JsValue.to_integer chatId, JsValue.to_integer userId with
  | Some chat, Some user =>
      let key := (chat, user) in
      let cached := JsMap.get key _cache in
      let fresh :=
        match cached with
        | Some entry => if now <? expires entry then Some entry else None
        | None => None
        end in
      match fresh with
      | Some entry =>
          {| answer := isAdmin_ entry; cache := _cache; calls := [] |}
      | None =>
          match resolve (telegram chat user) with
          | Some result =>
              let c :=
                if ADMIN_CACHE_MAX <=? JsMap.size _cache then
                  match JsMap.first_key _cache with
                  | Some oldest => JsMap.delete oldest _cache
                  | None => _cache
                  end
                else _cache in
              {| answer := result;
                 cache := JsMap.set key
                   {| isAdmin_ := result;
                      expires := now' + ADMIN_CACHE_MS |} c;
                 calls := [key] |}
          | None =>
              {| answer := false; cache := _cache; calls := [key] |}
          end
      end
  | _, _ => {| answer := false; cache := _cache; calls := [] |}
  end.

(** The periodic purge of expired entries. *)
Definition purge (now : Z) (_cache : t) : t :=
  fold_left
    (fun c '(key, entry) =>
       if expires entry <=? now then JsMap.delete key c else c)
    _cache _cache.
End AdminCache.

(** ** [src/db.js]

    The two tables are finite maps on their primary keys. The text that
    [datetime('now')] writes is represented by the clock reading [now]. *)

Module Db.
Local Open Scope eff_scope.

Record UserRow : Type := {
  user_id : Z;
  username : option string;
  first_name : option string;
  introduced : Z;
  introduced_at : option Z;
  joined_at : option Z;
  intro_msg_id : option Z;
  updated_at : option Z
}.

Record t : Type := {
  users : gmap Z UserRow;
  settings : gmap string string
}.

(** The tables as [initialize()] creates them. *)
Definition initialize : t := {| users := ∅; settings := ∅ |}.

(** [getSetting(key)]: the stored value, or [null]. *)
Definition getSetting (key : string) : Eff t (option string) :=
  gets (fun db => settings db !! key).

Definition VALID_SETTING_KEYS : list string :=
  [ "MAIN_GROUP_ID"%string; "INTRO_CHANNEL_ID"%string ].

(** [setSetting(key, value)] *)
Definition setSetting (key value : string) : Eff t unit :=
  if negb (existsb (String.eqb key) VALID_SETTING_KEYS) then
    throw (InvalidSettingKey key)
  else
    modify (fun db =>
      {| users := users db; settings := <[key := value]> (settings db) |}).

(** [assertSafeInteger(value, label)], on a value that is an integer. *)
Definition assertSafeInteger {S} (value : Z) (label : string) : Eff S unit :=
  if value <=? 0 then throw (InvalidInteger label value) else ret tt.

(** [getUser(userId)] *)
Definition getUser (userId : Z) : Eff t (option UserRow) :=
  assertSafeInteger userId "userId";;
  gets (fun db => users db !! userId).

(** [s ? String(s).slice(0, n) : null]; the empty string is falsy. *)
Definition truncate (n : nat) (s : option string) : option string :=
  match s with
  | Some EmptyString => None
  | Some s => Some (JsString.slice0 n s)
  | None => None
  end.

(** The [INSERT ... ON CONFLICT(user_id) DO UPDATE] of [upsertUser]. *)
Definition upsert_row (now userId : Z)
    (safeUsername safeFirstName : option string)
    (existing : option UserRow) : UserRow :=
  match existing with
  | None =>
      {| user_id := userId;
         username := safeUsername;
         first_name := safeFirstName;
         introduced := 0;
         introduced_at := None;
         joined_at := Some now;
         intro_msg_id := None;
         updated_at := Some now |}
  | Some row =>
      {| user_id := user_id row;
         username := safeUsername;
         first_name := safeFirstName;
         introduced := introduced row;
         introduced_at := introduced_at row;
         joined_at := joined_at row;
         intro_msg_id := intro_msg_id row;
         updated_at := Some now |}
  end.

(** [upsertUser(userId, username, firstName)], for the ids that SQLite
    takes as a row id, which are those below [2^63]: with a larger
    [userId] the [INSERT] fails and nothing is stored. *)
Definition upsertUser (now userId : Z) (username firstName : option string)
    : Eff t unit :=
  assertSafeInteger userId "userId";;
  let safeUsername := truncate 64 username in
  let safeFirstName := truncate 128 firstName in
  modify (fun db =>
    {| users :=
         <[userId := upsert_row now userId safeUsername safeFirstName
                       (users db !! userId)]> (users db);
       settings := settings db |}).

(** [markIntroduced(userId, msgId)]; the [UPDATE] touches the row of
    [userId] if there is one. *)
Definition markIntroduced (now userId : Z) (msgId : option Z) : Eff t unit :=
  assertSafeInteger userId "userId";;
  match msgId with
  | Some id => assertSafeInteger id "msgId"
  | None => ret tt
  end;;
  modify (fun db =>
    {| users :=
         alter (fun row =>
           {| user_id := user_id row;
              username := username row;
              first_name := first_name row;
              introduced := 1;
              introduced_at := Some now;
              joined_at := joined_at row;
              intro_msg_id := msgId;
              updated_at := Some now |}) userId (users db);
       settings := settings db |}).

(** [resetUser(userId)] *)
Definition resetUser (now userId : Z) : Eff t unit :=
  assertSafeInteger userId "userId";;
  modify (fun db =>
    {| users :=
         alter (fun row =>
           {| user_id := user_id row;
              username := username row;
              first_name := first_name row;
              introduced := 0;
              introduced_at := None;
              joined_at := joined_at row;
              intro_msg_id := None;
              updated_at := Some now |}) userId (users db);
       settings := settings db |}).
End Db.

(** ** The handlers: [src/handlers/welcome.js], [src/handlers/gatekeeper.js] *)

Module Bot.
Import Config.
Local Open Scope eff_scope.

(** A Telegram user object. *)
Record User : Type := {
  id : Z;
  is_bot : bool;
  username : option string;
  first_name : option string
}.

(** The message templates of [config.js], unexpanded. *)
Inductive Text : Type :=
| WELCOME_MESSAGE (firstName : option string) (introChannelId : option Z)
| REMINDER_MESSAGE.

(** What a handler asks of the transport, in the order it asks. *)
Inductive Action : Type :=
| Next                                   (* [next()] *)
| Reply (text : Text)                    (* [ctx.reply(text)] *)
| ReplyThenDelete (text : Text) (ms : Z) (* reply, removed after [ms] *)
| DeleteMessage                          (* [ctx.deleteMessage()] *)
| GetChatMember (chatId userId : Z)      (* [telegram.getChatMember] *)
| ConsoleError (members : Z).            (* the mass-join log line *)

(** The module-level state the handlers share. *)
Record World : Type := {
  db : Db.t;
  mainGroupId : option Z;
  introChannelId : option Z;
  adminCache : AdminCache.t;
  welcomeCooldowns : CooldownMap.t Z;
  reminderCooldowns : CooldownMap.t Z;
  sent : list Action
}.

Definition with_db (d : Db.t) (w : World) : World :=
  {| db := d; mainGroupId := mainGroupId w;
     introChannelId := introChannelId w; adminCache := adminCache w;
     welcomeCooldowns := welcomeCooldowns w;
     reminderCooldowns := reminderCooldowns w; sent := sent w |}.

Definition with_adminCache (c : AdminCache.t) (w : World) : World :=
  {| db := db w; mainGroupId := mainGroupId w;
     introChannelId := introChannelId w; adminCache := c;
     welcomeCooldowns := welcomeCooldowns w;
     reminderCooldowns := reminderCooldowns w; sent := sent w |}.

Definition with_welcomeCooldowns (c : CooldownMap.t Z) (w : World) : World :=
  {| db := db w; mainGroupId := mainGroupId w;
     introChannelId := introChannelId w; adminCache := adminCache w;
     welcomeCooldowns := c;
     reminderCooldowns := reminderCooldowns w; sent := sent w |}.

Definition with_reminderCooldowns (c : CooldownMap.t Z) (w : World) : World :=
  {| db := db w; mainGroupId := mainGroupId w;
     introChannelId := introChannelId w; adminCache := adminCache w;
     welcomeCooldowns := welcomeCooldowns w;
     reminderCooldowns := c; sent := sent w |}.

Definition with_sent (l : list Action) (w : World) : World :=
  {| db := db w; mainGroupId := mainGroupId w;
     introChannelId := introChannelId w; adminCache := adminCache w;
     welcomeCooldowns := welcomeCooldowns w;
     reminderCooldowns := reminderCooldowns w; sent := l |}.

(** The state at start-up: empty tables, empty caches. *)
Definition start (main intro : option Z) : World :=
  {| db := Db.initialize; mainGroupId := main; introChannelId := intro;
     adminCache := JsMap.empty;
     welcomeCooldowns := CooldownMap.new' WELCOME_COOLDOWN_MS 20 0;
     reminderCooldowns := CooldownMap.new' REMINDER_COOLDOWN_MS 4 0;
     sent := [] |}.

Definition emit (a : Action) : Eff World unit :=
  modify (fun w => with_sent (sent w ++ [a]) w).

(** A call into [db.js]. *)
Definition on_db {A} (m : Eff Db.t A) : Eff World A :=
  fun w => let '(r, d) := m (db w) in (r, with_db d w).

(** [adminCache.isAdmin(telegram, chatId, userId)] *)
Definition isAdmin (telegram : Telegram.t) (now now' : Z)
    (chatId userId : JsValue.t) : Eff World bool :=
  fun w =>
    let out := AdminCache.isAdmin telegram now now' chatId userId
                 (adminCache w) in
    (Ok (AdminCache.answer out),
     with_sent
       (sent w ++ map (fun c => GetChatMember c.1 c.2) (AdminCache.calls out))
       (with_adminCache (AdminCache.cache out) w)).

(** *** [welcome.js] *)

Record JoinCtx : Type := {
  join_chat_id : Z;
  new_chat_members : list User
}.

(** The handler of ['new_chat_members']; it runs without a pause. *)
Definition welcome (now : Z) (ctx : JoinCtx) : Eff World unit :=
  let! main := gets mainGroupId in
  if negb (bool_decide (Some (join_chat_id ctx) = main)) then ret tt
  else
    let members := new_chat_members ctx in
    let isMassJoin :=
      MAX_NEW_MEMBERS_PER_EVENT <? Z.of_nat (length members) in
    (if isMassJoin then emit (ConsoleError (Z.of_nat (length members)))
     else ret tt);;
    for_of members (fun member =>
      if is_bot member then ret tt
      else
        on_db (Db.upsertUser now (id member) (username member)
                 (first_name member));;
        if isMassJoin then ret tt
        else
          let! limited := gets (fun w =>
            fst (CooldownMap.isLimited now (join_chat_id ctx)
                   (welcomeCooldowns w))) in
          if limited then ret tt
          else
            modify (fun w =>
              with_welcomeCooldowns
                (CooldownMap.touch now (join_chat_id ctx)
                   (welcomeCooldowns w)) w);;
            let! intro := gets introChannelId in
            emit (Reply (WELCOME_MESSAGE (first_name member) intro))).

(** *** [gatekeeper.js] *)

Record MessageCtx : Type := {
  chat_id : Z;
  from : option User;
  telegram : Telegram.t
}.

(** The handler of ['message']: [now] is the clock up to the [await],
    [now'] the clock after it. *)
Definition gatekeeper (now now' : Z) (ctx : MessageCtx) : Eff World unit :=
  let! main := gets mainGroupId in
  if negb (bool_decide (Some (chat_id ctx) = main)) then emit Next
  else
    match from ctx with
    | None => emit Next
    | Some sender =>
        if is_bot sender then emit Next
        else
          let! admin :=
            isAdmin (telegram ctx) now now'
              (match main with
               | Some g => JsValue.of_Z g
               | None => JsValue.Null
               end)
              (JsValue.of_Z (id sender)) in
          if admin then emit Next
          else
            let! user := on_db (Db.getUser (id sender)) in
            match user with
            | None => emit Next
            | Some row =>
                if negb (Db.introduced row =? 0) then emit Next
                else
                  emit DeleteMessage;;
                  let! limited := gets (fun w =>
                    fst (CooldownMap.isLimited now' (id sender)
                           (reminderCooldowns w))) in
                  if limited then ret tt
                  else
                    modify (fun w =>
                      with_reminderCooldowns
                        (CooldownMap.touch now' (id sender)
                           (reminderCooldowns w)) w);;
                    emit (ReplyThenDelete REMINDER_MESSAGE
                            REMINDER_AUTO_DELETE_MS)
            end
    end.

(** The store after [upsertUser] has been called, in turn, for each
    member that is not a bot. *)
Fixpoint upsert_all (now : Z) (members : list User) (d : Db.t) : Db.t :=
  match members with
  | [] => d
  | member :: members' =>
      upsert_all now members'
        (if is_bot member then d
         else snd (Db.upsertUser now (id member) (username member)
                     (first_name member) d))
  end.

(** The user has a row and the row was last written at [now]. *)
Definition written_at (now : Z) (d : Db.t) (userId : Z) : Prop :=
  exists row,
    Db.users d !! userId = Some row /\ Db.updated_at row = Some now.
End Bot.

(** ** Scenarios: concrete states and events, after the test suites *)

Module Scenarios.
Import CooldownMap Bot.
Local Open Scope string_scope.

(** A cache holding both shapes of entry, two of each age. *)
Definition mixed : CooldownMap.t string :=
  run [OpTouch 0 "a"; OpIncrement 0 "b" 5; OpTouch 1500 "c";
       OpIncrement 1500 "d" 5] (new 1000).

(** A [getChatMember] that always rejects. *)
Definition failing : Telegram.t := fun _ _ => Telegram.Rejected.

(** A [getChatMember] that reports an ordinary member. *)
Definition plain_member : Telegram.t :=
  fun _ _ => Telegram.Resolved (Some {| Telegram.status := "member" |}).

(** A user who has joined and has been accepted with message 42. *)
Definition introduced_db : Db.t :=
  snd ((bind (Db.upsertUser 100 1 (Some "alice") (Some "Alice"))
         (fun _ => Db.markIntroduced 200 1 (Some 42))) Db.initialize).

Definition MAIN_GROUP : Z := -100111.
Definition INTRO_CHANNEL : Z := -100999.

Definition user (n : Z) : User :=
  {| id := n; is_bot := false; username := None;
     first_name := Some "User" |}.

(** Eleven users joining in one event. *)
Definition eleven_join : JoinCtx :=
  {| join_chat_id := MAIN_GROUP;
     new_chat_members := map user (seqZ 1 11) |}.

(** The main group with user 42 tracked and not yet introduced. *)
Definition pending_world : World :=
  with_db (snd (Db.upsertUser 0 42 (Some "bob") (Some "Bob") Db.initialize))
    (start (Some MAIN_GROUP) (Some INTRO_CHANNEL)).

(** User 42 posts in the main group. *)
Definition post_by_42 : MessageCtx :=
  {| chat_id := MAIN_GROUP;
     from := Some {| id := 42; is_bot := false; username := Some "bob";
                     first_name := Some "Bob" |};
     telegram := plain_member |}.
End Scenarios.

(** ** What the rows of the [users] table satisfy *)

Module DbSpec.
Import Db.

(** A row sits under its own id, the id is a positive integer, the flag
    is 0 or 1, and a row that is not introduced carries no introduction
    time and no introduction message. *)
Definition row_ok (userId : Z) (row : UserRow) : Prop :=
  0 < userId
  /\ user_id row = userId
  /\ (introduced row = 0 \/ introduced row = 1)
  /\ (introduced row = 0 ->
      introduced_at row = None /\ intro_msg_id row = None)
  /\ (introduced row = 1 -> introduced_at row <> None).

Definition consistent (db : Db.t) : Prop :=
  forall userId row, users db !! userId = Some row -> row_ok userId row.

(** The largest row id of SQLite, and so the largest [user_id] that an
    [INSERT] into [users] takes. *)
Definition MAX_ROWID : Z := 2 ^ 63 - 1.

(** [stored] is what the store keeps of the name [given], cut at [n] code
    units: nothing for a missing or empty name, otherwise the first [n]
    units of the name (all of it when it has no more than [n]). *)
Definition cut_at (n : nat) (given stored : option string) : Prop :=
  match given with
  | None | Some EmptyString => stored = None
  | Some s =>
      exists kept rest,
        stored = Some kept
        /\ s = String.append kept rest
        /\ (String.length kept <= n)%nat
        /\ ((String.length s <= n)%nat -> kept = s)
  end.
End DbSpec.

(** ** [src/config.js]: [sanitizeName] *)

Module Sanitize.
Local Open Scope string_scope.

(** The class of the regular expression: the code units of
    [< > & \r \n \t * _ ` [ ] ( ) ~ \]. *)
Definition markup_unit (c : ascii) : bool :=
  existsb (N.eqb (N_of_ascii c))
    [60; 62; 38; 13; 10; 9; 42; 95; 96; 91; 93; 40; 41; 126; 92]%N.

(** [name.replace(/[...]/g, '')] *)
Fixpoint strip (s : string) : string :=
  match s with
  | EmptyString => EmptyString
  | String c s' => if markup_unit c then strip s' else String c (strip s')
  end.

(** White space and line terminators among the code units below 256. *)
Definition white_unit (c : ascii) : bool :=
  existsb (N.eqb (N_of_ascii c)) [9; 10; 11; 12; 13; 32; 160]%N.

Fixpoint trimStart (s : string) : string :=
  match s with
  | EmptyString => EmptyString
  | String c s' => if white_unit c then trimStart s' else s
  end.

Fixpoint trimEnd (s : string) : string :=
  match s with
  | EmptyString => EmptyString
  | String c s' =>
      match trimEnd s' with
      | EmptyString => if white_unit c then EmptyString else String c EmptyString
      | rest => String c rest
      end
  end.

(** [s.trim()] *)
Definition trim (s : string) : string := trimEnd (trimStart s).

(** [sanitizeName(name)]; a missing name and the empty string are falsy. *)
Definition sanitizeName (name : option string) : string :=
  match name with
  | None | Some EmptyString => "there"
  | Some name =>
      let clean := JsString.slice0 64 (trim (strip name)) in
      match clean with
      | EmptyString => "there"
      | _ => clean
      end
  end.

(** No code unit of [s] is one of the removed characters. *)
Definition markup_free (s : string) : Prop :=
  Forall (fun c => markup_unit c = false) (list_ascii_of_string s).

(** The characters that must not reach a message, each written out:
    the three of HTML, carriage return, line feed and tab by their
    decimal codes, and the nine of Markdown. *)
Definition markup_characters : list ascii :=
  [ "<"; ">"; "&"; "013"; "010"; "009";
    "*"; "_"; "`"; "["; "]"; "("; ")"; "~"; "\" ]%char.

(** None of the characters [chars] occurs in [s]. *)
Definition free_of (chars : list ascii) (s : string) : Prop :=
  forall c, c ∈ chars -> c ∉ list_ascii_of_string s.

(** [s] neither starts nor ends with white space. *)
Definition trimmed (s : string) : Prop :=
  (forall c rest, s = String c rest -> white_unit c = false)
  /\ (forall before c,
        s = String.append before (String c EmptyString) ->
        white_unit c = false).
End Sanitize.

(** ** [src/handlers/intro.js]: the listener of the intro channel *)

Module IntroHandler.
Import Config.
Local Open Scope eff_scope.

(** The texts the listener replies with, unexpanded. *)
Inductive Text : Type :=
| MEDIA_NUDGE
| INTRO_ACCEPTED_MESSAGE (firstName : option string)
| INTRO_NUDGE_MESSAGE.

Inductive Action : Type :=
| Next                                      (* [next()] *)
| Reply (text : Text) (reply_to : Z).       (* a reply to that message *)

Record Message : Type := {
  message_id : Z;
  text : option string
}.

Record Ctx : Type := {
  chat_id : Z;
  from : option Bot.User;
  message : Message
}.

(** What the listener reads and writes: the store, the configured intro
    channel, its own rate limiter, and the transport. *)
Record State : Type := {
  db : Db.t;
  introChannelId : option Z;
  introRateLimiter : CooldownMap.t Z;
  sent : list Action
}.

Definition with_db (d : Db.t) (s : State) : State :=
  {| db := d; introChannelId := introChannelId s;
     introRateLimiter := introRateLimiter s; sent := sent s |}.

Definition with_introRateLimiter (c : CooldownMap.t Z) (s : State) : State :=
  {| db := db s; introChannelId := introChannelId s;
     introRateLimiter := c; sent := sent s |}.

Definition with_sent (l : list Action) (s : State) : State :=
  {| db := db s; introChannelId := introChannelId s;
     introRateLimiter := introRateLimiter s; sent := l |}.

Definition start (intro : option Z) : State :=
  {| db := Db.initialize; introChannelId := intro;
     introRateLimiter := CooldownMap.new' INTRO_RATE_LIMIT_WINDOW_MS 2 0;
     sent := [] |}.

Definition emit (a : Action) : Eff State unit :=
  modify (fun s => with_sent (sent s ++ [a]) s).

Definition on_db {A} (m : Eff Db.t A) : Eff State A :=
  fun s => let '(r, d) := m (db s) in (r, with_db d s).

(** [introRateLimiter.increment(userId, max)] *)
Definition increment (now userId max : Z) : Eff State bool :=
  fun s =>
    let '(b, c) := CooldownMap.increment now userId max (introRateLimiter s) in
    (Ok b, with_introRateLimiter c s).

(** [!ctx.message.text]: no text, or the empty text. *)
Definition has_text (m : Message) : option string :=
  match text m with
  | Some EmptyString => None
  | t => t
  end.

(** The handler of ['message']; it runs without a pause. Where the source
    reads [user.introduced] the row is there: [upsertUser] has just
    written it. *)
Definition listener (now : Z) (ctx : Ctx) : Eff State unit :=
  let! intro := gets introChannelId in
  if negb (bool_decide (Some (chat_id ctx) = intro)) then emit Next
  else
    match from ctx with
    | None => ret tt
    | Some sender =>
        if bool_decide (Bot.id sender = chat_id ctx) then ret tt
        else
          match has_text (message ctx) with
          | None =>
              let uid := Bot.id sender in
              let! existing := on_db (Db.getUser uid) in
              match existing with
              | Some row =>
                  if Db.introduced row =? 0 then
                    emit (Reply MEDIA_NUDGE (message_id (message ctx)))
                  else ret tt
              | None => ret tt
              end
          | Some text =>
              let userId := Bot.id sender in
              let! limited := increment now userId INTRO_RATE_LIMIT_MAX in
              if limited then ret tt
              else
                let! user := on_db (Db.getUser userId) in
                let! user :=
                  match user with
                  | Some row => ret (Some row)
                  | None =>
                      on_db (Db.upsertUser now userId (Bot.username sender)
                               (Bot.first_name sender));;
                      on_db (Db.getUser userId)
                  end in
                match user with
                | None => ret tt
                | Some row =>
                    if negb (Db.introduced row =? 0) then ret tt
                    else if Intro.isValidIntro text then
                      on_db (Db.markIntroduced now userId
                               (Some (message_id (message ctx))));;
                      emit (Reply
                              (INTRO_ACCEPTED_MESSAGE (Bot.first_name sender))
                              (message_id (message ctx)))
                    else
                      emit (Reply INTRO_NUDGE_MESSAGE
                              (message_id (message ctx)))
                end
          end
    end.

(** The listener run on a series of events, one after the other; an event
    that ends in an error does not stop the next. *)
Definition listen_all (events : list (Z * Ctx)) (s : State) : State :=
  fold_left (fun s e => snd (listener e.1 e.2 s)) events s.
End IntroHandler.

(** ** Users who are introduced, from one store to the next *)

Module Progress.
(** Every user that is introduced in [d] is introduced in [d']. *)
Definition keeps_introduced (d d' : Db.t) : Prop :=
  forall userId row,
    Db.users d !! userId = Some row ->
    Db.introduced row <> 0 ->
    exists row',
      Db.users d' !! userId = Some row' /\ Db.introduced row' <> 0.

(** A computation over a state with a store in it keeps the introduced
    users introduced, however it ends. *)
Definition preserves {S A : Type} (dbof : S -> Db.t) (m : Eff S A) : Prop :=
  forall s, keeps_introduced (dbof s) (dbof (snd (m s))).
End Progress.

(** ** Scenarios in the intro channel *)

Module IntroScenarios.
Import IntroHandler.
Local Open Scope string_scope.

Definition tester : Bot.User :=
  {| Bot.id := 123; Bot.is_bot := false; Bot.username := Some "testuser";
     Bot.first_name := Some "Test" |}.

Definition text_post (mid : Z) (t : string) : Ctx :=
  {| chat_id := Scenarios.INTRO_CHANNEL; from := Some tester;
     message := {| message_id := mid; text := Some t |} |}.

Definition media_post (mid : Z) : Ctx :=
  {| chat_id := Scenarios.INTRO_CHANNEL; from := Some tester;
     message := {| message_id := mid; text := None |} |}.

(** 55 code units, with two of the keywords. *)
Definition good_text : string :=
  "who are you: dev. what do you do: build stuff. padding!".

Definition fresh : State := start (Some Scenarios.INTRO_CHANNEL).

(** The channel once [tester] has been accepted for message 7. *)
Definition accepted : State := snd (listener 1000 (text_post 7 good_text) fresh).

(** Five short texts in five seconds. *)
Definition five_posts : list (Z * Ctx) :=
  [ (0, text_post 1 "hi"); (1000, text_post 2 "hi"); (2000, text_post 3 "hi");
    (3000, text_post 4 "hi"); (4000, text_post 5 "hi") ].
End IntroScenarios.

(** ** The commands: [src/handlers/admin.js] *)

Module Admin.
Import Bot.
Local Open Scope eff_scope.

Definition EPHEMERAL_REPLY_TTL_MS : Z := 30000.

(** What a command asks of the transport, in the order it asks. *)
Inductive Output : Type :=
| Asked (chatId userId : Z)                (* [telegram.getChatMember] *)
| EphemeralReply (text : string) (ms : Z). (* reply, removed after [ms] *)

(** The state of the handlers, the two constants of [config.js] that
    tell where the ids have come from, and what the commands have
    sent. *)
Record State : Type := {
  world : World;
  mainGroupFromEnv : bool;
  introChannelFromEnv : bool;
  log : list Output
}.

Definition with_world (w : World) (s : State) : State :=
  {| world := w; mainGroupFromEnv := mainGroupFromEnv s;
     introChannelFromEnv := introChannelFromEnv s; log := log s |}.

Definition with_log (l : list Output) (s : State) : State :=
  {| world := world s; mainGroupFromEnv := mainGroupFromEnv s;
     introChannelFromEnv := introChannelFromEnv s; log := l |}.

(** [config.setMainGroupId(id)] *)
Definition setMainGroupId (g : Z) : Eff State unit :=
  modify (fun s =>
    with_world
      {| db := db (world s); mainGroupId := Some g;
         introChannelId := introChannelId (world s);
         adminCache := adminCache (world s);
         welcomeCooldowns := welcomeCooldowns (world s);
         reminderCooldowns := reminderCooldowns (world s);
         sent := sent (world s) |} s).

(** [config.setIntroChannelId(id)] *)
Definition setIntroChannelId (c : Z) : Eff State unit :=
  modify (fun s =>
    with_world
      {| db := db (world s); mainGroupId := mainGroupId (world s);
         introChannelId := Some c;
         adminCache := adminCache (world s);
         welcomeCooldowns := welcomeCooldowns (world s);
         reminderCooldowns := reminderCooldowns (world s);
         sent := sent (world s) |} s).

(** A call into [db.js]. *)
Definition on_db {A} (m : Eff Db.t A) : Eff State A :=
  fun s => let '(r, d) := m (db (world s)) in (r, with_world (with_db d (world s)) s).

(** [adminCache.isAdmin(telegram, chatId, userId)] *)
Definition isAdmin (telegram : Telegram.t) (now now' : Z)
    (chatId userId : JsValue.t) : Eff State bool :=
  fun s =>
    let out := AdminCache.isAdmin telegram now now' chatId userId
                 (adminCache (world s)) in
    (Ok (AdminCache.answer out),
     with_log
       (log s ++ map (fun c => Asked c.1 c.2) (AdminCache.calls out))
       (with_world (with_adminCache (AdminCache.cache out) (world s)) s)).

(** [ephemeralReply(ctx, text)] *)
Definition ephemeralReply (text : string) : Eff State unit :=
  modify (fun s =>
    with_log (log s ++ [EphemeralReply text EPHEMERAL_REPLY_TTL_MS]) s).

(** [ctx.message]: the sender of the message replied to, if the message
    is a reply (a message may lack a sender), and [Number(args[0])], if
    the text has a word after the command. *)
Record Message : Type := {
  reply_to_message : option (option User);
  first_arg : option JsValue.Number
}.

Record Ctx : Type := {
  chat_id : Z;
  chat_type : string;
  from : option User;
  telegram : Telegram.t;
  message : Message
}.

(** [!!id] of a chat id that is a number or [null]. *)
Definition configured (chat : option Z) : bool :=
  match chat with
  | Some g => negb (g =? 0)
  | None => false
  end.

(** [resolveTargetId(ctx)] *)
Definition resolveTargetId (ctx : Ctx) : option Z :=
  match reply_to_message (message ctx) with
  | Some replied =>
      match replied with
      | None => None
      | Some sender => if is_bot sender then None else Some (id sender)
      end
  | None =>
      match first_arg (message ctx) with
      | Some parsed =>
          match JsValue.to_integer (JsValue.Num parsed) with
          | Some n => if 0 <? n then Some n else None
          | None => None
          end
      | None => None
      end
  end.

(** [!targetId] holds of [null] and of [0]. *)
Definition target (ctx : Ctx) : option Z :=
  match resolveTargetId ctx with
  | Some n => if n =? 0 then None else Some n
  | None => None
  end.

(** [requireMainGroupAdmin(handler)]: [now] is the clock up to the
    [await], [now'] the clock after it, when the handler runs. *)
Definition requireMainGroupAdmin (handler : Z -> Ctx -> Eff State unit)
    (now now' : Z) (ctx : Ctx) : Eff State unit :=
  let! main := gets (fun s => mainGroupId (world s)) in
  if negb (bool_decide (Some (chat_id ctx) = main)) then ret tt
  else
    match from ctx with
    | None => ret tt
    | Some sender =>
        if negb (configured main) then ret tt
        else
          let! admin :=
            isAdmin (telegram ctx) now now'
              (match main with
               | Some g => JsValue.of_Z g
               | None => JsValue.Null
               end)
              (JsValue.of_Z (id sender)) in
          if negb admin then ret tt
          else handler now' ctx
    end.

(** The handler of [/approve]. *)
Definition approve_handler (now : Z) (ctx : Ctx) : Eff State unit :=
  match target ctx with
  | None => ephemeralReply "Usage: /approve <user_id> or reply to a message"
  | Some targetId =>
      let! user := on_db (Db.getUser targetId) in
      (match user with
       | None => on_db (Db.upsertUser now targetId None None)
       | Some _ => ret tt
       end);;
      on_db (Db.markIntroduced now targetId None);;
      ephemeralReply "User has been manually approved."
  end.

(** The handler of [/reset]. *)
Definition reset_handler (now : Z) (ctx : Ctx) : Eff State unit :=
  match target ctx with
  | None => ephemeralReply "Usage: /reset <user_id> or reply to a message"
  | Some targetId =>
      let! user := on_db (Db.getUser targetId) in
      match user with
      | None => ephemeralReply "User not found in database."
      | Some _ =>
          on_db (Db.resetUser now targetId);;
          ephemeralReply
            "User has been reset. They will need to re-introduce themselves."
      end
  end.

Definition approve : Z -> Z -> Ctx -> Eff State unit :=
  requireMainGroupAdmin approve_handler.

Definition reset : Z -> Z -> Ctx -> Eff State unit :=
  requireMainGroupAdmin reset_handler.

(** [String(chatId)] of a chat id, which is an integer below [10^21] in
    size: its decimal digits. *)
Definition String_ (chatId : Z) : string := pretty chatId.

(** The handler of [/setgroup]. There are two [await]s: [now] is the
    clock before the first, [now1] between them, [now2] after the
    second. *)
Definition setgroup (now now1 now2 : Z) (ctx : Ctx) : Eff State unit :=
  if String.eqb (chat_type ctx) "private" then
    ephemeralReply
      "This command must be used in a group, not a private chat."
  else
    match from ctx with
    | None => ret tt
    | Some sender =>
        let! admin :=
          isAdmin (telegram ctx) now now1 (JsValue.of_Z (chat_id ctx))
            (JsValue.of_Z (id sender)) in
        if negb admin then ret tt
        else
          let! main := gets (fun s => mainGroupId (world s)) in
          let! refused :=
            if configured main
               && negb (bool_decide (main = Some (chat_id ctx))) then
              let! isExistingAdmin :=
                isAdmin (telegram ctx) now1 now2
                  (match main with
                   | Some g => JsValue.of_Z g
                   | None => JsValue.Null
                   end)
                  (JsValue.of_Z (id sender)) in
              ret (negb isExistingAdmin)
            else ret false in
          if refused then
            ephemeralReply
              "A main group is already configured. Only admins of the existing main group can reassign it."
          else
            let chatId := chat_id ctx in
            let! fromEnv := gets mainGroupFromEnv in
            if fromEnv then
              ephemeralReply
                "Main group is set via MAIN_GROUP_ID environment variable. Remove it from .env to use /setgroup instead."
            else
              on_db (Db.setSetting "MAIN_GROUP_ID" (String_ chatId));;
              setMainGroupId chatId;;
              ephemeralReply "Main group set to this chat."
    end.

(** What stands in the way of [/setintro] once the sender is known to
    administer the chat. *)
Inductive Refusal : Type :=
| NoMainGroup
| NotGroupAdmin.

(** The handler of [/setintro]; the clocks are those of [setgroup]. *)
Definition setintro (now now1 now2 : Z) (ctx : Ctx) : Eff State unit :=
  if String.eqb (chat_type ctx) "private" then
    ephemeralReply
      "This command must be used in a group or channel, not a private chat."
  else
    match from ctx with
    | None => ret tt
    | Some sender =>
        let! admin :=
          isAdmin (telegram ctx) now now1 (JsValue.of_Z (chat_id ctx))
            (JsValue.of_Z (id sender)) in
        if negb admin then ret tt
        else
          let! intro := gets (fun s => introChannelId (world s)) in
          let! main := gets (fun s => mainGroupId (world s)) in
          let! refused :=
            if configured intro
               && negb (bool_decide (intro = Some (chat_id ctx))) then
              if negb (configured main) then ret (Some NoMainGroup)
              else
                let! isGroupAdmin :=
                  isAdmin (telegram ctx) now1 now2
                    (match main with
                     | Some g => JsValue.of_Z g
                     | None => JsValue.Null
                     end)
                    (JsValue.of_Z (id sender)) in
                ret (if isGroupAdmin then None else Some NotGroupAdmin)
            else ret None in
          match refused with
          | Some NoMainGroup =>
              ephemeralReply
                "An intro channel is already configured. Set up the main group with /setgroup first before reassigning."
          | Some NotGroupAdmin =>
              ephemeralReply
                "An intro channel is already configured. Only admins of the main group can reassign it."
          | None =>
              let chatId := chat_id ctx in
              if bool_decide (Some chatId = main) then
                ephemeralReply
                  "The intro channel cannot be the same as the main group."
              else
                let! fromEnv := gets introChannelFromEnv in
                if fromEnv then
                  ephemeralReply
                    "Intro channel is set via INTRO_CHANNEL_ID environment variable. Remove it from .env to use /setintro instead."
                else
                  on_db (Db.setSetting "INTRO_CHANNEL_ID" (String_ chatId));;
                  setIntroChannelId chatId;;
                  ephemeralReply "Intro channel set to this chat."
          end
    end.

(** The state at start-up, both chats configured through commands. *)
Definition start (main intro : option Z) : State :=
  {| world := Bot.start main intro; mainGroupFromEnv := false;
     introChannelFromEnv := false; log := [] |}.
End Admin.

(** ** Scenarios for the commands *)

Module AdminScenarios.
Import Bot Admin.
Local Open Scope string_scope.

(** A [getChatMember] that reports an administrator. *)
Definition administrator : Telegram.t :=
  fun _ _ => Telegram.Resolved (Some {| Telegram.status := "administrator" |}).

(** User 7 sends a command in a group. *)
Definition command (tg : Telegram.t) (chat : Z) (msg : Message) : Ctx :=
  {| chat_id := chat; chat_type := "supergroup";
     from := Some (Scenarios.user 7); telegram := tg; message := msg |}.

(** [/approve 777], and the like. *)
Definition by_id (n : Z) : Message :=
  {| reply_to_message := None; first_arg := Some (JsValue.Finite n 0) |}.

(** A command sent in reply to a message of [u]. *)
Definition in_reply_to (u : User) : Message :=
  {| reply_to_message := Some (Some u); first_arg := None |}.

(** Both chats configured, nobody tracked. *)
Definition configured_state : State :=
  Admin.start (Some Scenarios.MAIN_GROUP) (Some Scenarios.INTRO_CHANNEL).

(** Both chats configured, user 1 introduced. *)
Definition with_alice : State :=
  with_world (with_db Scenarios.introduced_db (world configured_state))
    configured_state.

(** User [n], an ordinary member, posts in the main group. *)
Definition post_by (n : Z) : MessageCtx :=
  {| Bot.chat_id := Scenarios.MAIN_GROUP;
     Bot.from := Some (Scenarios.user n);
     Bot.telegram := Scenarios.plain_member |}.
End AdminScenarios.

(** ** The caches as their callers see them *)

Module CooldownMapUse.
Import CooldownMap.
Section Use.
Context {K : Type} `{EqDecision K}.

(** A call of a method, or a firing of the purge timer, with the reading
    of the clock at that moment. *)
Inductive Call : Type :=
| IsLimited (now : Z) (key : K)
| Touch (now : Z) (key : K)
| Increment (now : Z) (key : K) (max : Z)
| Purge (now : Z).

Definition time (c : Call) : Z :=
  match c with
  | IsLimited now _ | Touch now _ | Increment now _ _ | Purge now => now
  end.

(** What the caller gets back, and the cache after the call. *)
Definition call (c : Call) (self : t K) : option bool * t K :=
  match c with
  | IsLimited now key =>
      let '(limited, self') := isLimited now key self in (Some limited, self')
  | Touch now key => (None, touch now key self)
  | Increment now key max =>
      let '(over, self') := increment now key max self in (Some over, self')
  | Purge now => (None, _purge now self)
  end.

(** The answers to a series of calls, one after the other. *)
Fixpoint answers (cs : list Call) (self : t K) : list (option bool) :=
  match cs with
  | [] => []
  | c :: cs' => let '(a, self') := call c self in a :: answers cs' self'
  end.
(** What a purge at [now] may have taken from [purged], compared with
    [kept]: entries that were over at [now]. *)
Definition hides (now : Z) (purged kept : t K) : Prop :=
  _windowMs purged = _windowMs kept
  /\ _maxSize purged = 0 /\ _maxSize kept = 0
  /\ wf purged /\ wf kept
  /\ forall key,
       JsMap.get key (_map purged) = JsMap.get key (_map kept)
       \/ (JsMap.get key (_map purged) = None
           /\ exists val,
                JsMap.get key (_map kept) = Some val
                /\ _windowMs kept < now - anchor val).
End Use.
Global Arguments Call : clear implicits.
End CooldownMapUse.

Module AdminCacheUse.
(** One call of [isAdmin]: the API object it is given, the clock when it
    starts and when the awaited promise has settled, and the two ids. *)
Record Lookup : Type := {
  telegram : Telegram.t;
  asked_at : Z;
  settled_at : Z;
  chatId : JsValue.t;
  userId : JsValue.t
}.

Definition lookup (l : Lookup) (_cache : AdminCache.t) : AdminCache.Outcome :=
  AdminCache.isAdmin (telegram l) (asked_at l) (settled_at l) (chatId l)
    (userId l) _cache.

(** The answers to a series of calls of [isAdmin], each with the calls of
    [getChatMember] it has made. *)
Fixpoint lookups (ls : list Lookup) (_cache : AdminCache.t)
    : list (bool * list (Z * Z)) :=
  match ls with
  | [] => []
  | l :: ls' =>
      let out := lookup l _cache in
      (AdminCache.answer out, AdminCache.calls out)
        :: lookups ls' (AdminCache.cache out)
  end.

(** What a purge at [now] may have taken from [purged], compared with
    [kept]: entries that had expired at [now]. *)
Definition hides (now : Z) (purged kept : AdminCache.t) : Prop :=
  forall key,
    JsMap.get key purged = JsMap.get key kept
    \/ (JsMap.get key purged = None
        /\ exists entry,
             JsMap.get key kept = Some entry
             /\ AdminCache.expires entry <= now).
End AdminCacheUse.

(** * Properties *)

(** ** Facts about [JsMap] *)

Module JsMapFacts.
Import JsMap.
Section Facts.
Context {K V : Type} `{EqDecision K}.
Implicit Types (m : JsMap.t K V) (key : K) (v : V).

Lemma get_None_keys key m : get key m = None <-> key ∉ keys m.
Proof.
  induction m as [|[k v] m IH]; simpl.
  - split; [intros _; apply not_elem_of_nil | done].
  - destruct (decide (k = key)) as [->|Hne].
    + split; [done | intros H; exfalso; apply H; left].
    + rewrite IH, not_elem_of_cons.
      split; [intros ?; split; [congruence | done] | by intros [_ ?]].
Qed.

Lemma get_Some_In key v m : get key m = Some v -> (key, v) ∈ m.
Proof.
  induction m as [|[k w] m IH]; simpl; [done|].
  destruct (decide (k = key)) as [->|Hne].
  - intros [= ->]. left.
  - intros H. right. auto.
Qed.

Lemma In_get key v m : wf m -> (key, v) ∈ m -> get key m = Some v.
Proof.
  unfold wf. induction m as [|[k w] m IH]; simpl.
  - intros _ H. by apply elem_of_nil in H.
  - intros Hnd H. apply NoDup_cons in Hnd as [Hk Hnd].
    apply elem_of_cons in H as [[= <- <-]|H].
    + by rewrite decide_True.
    + destruct (decide (k = key)) as [->|Hne]; [|auto].
      exfalso. apply Hk. change key with (fst (key, v)).
      by apply list_elem_of_fmap_2.
Qed.

Lemma get_set_eq key v m : get key (set key v m) = Some v.
Proof.
  induction m as [|[k w] m IH]; simpl.
  - by rewrite decide_True.
  - destruct (decide (k = key)) as [->|Hne]; simpl.
    + by rewrite decide_True.
    + by rewrite decide_False.
Qed.

Lemma get_set_ne key key' v m :
  key <> key' -> get key' (set key v m) = get key' m.
Proof.
  intros Hne. induction m as [|[k w] m IH]; simpl.
  - by rewrite decide_False.
  - destruct (decide (k = key)) as [->|Hk]; simpl.
    + by rewrite !decide_False.
    + by rewrite IH.
Qed.

Lemma get_delete_eq key m : get key (delete key m) = None.
Proof.
  induction m as [|[k w] m IH]; simpl; [done|].
  destruct (decide (k = key)) as [->|Hne]; simpl; [done|].
  by rewrite decide_False.
Qed.

Lemma get_delete_ne key key' m :
  key <> key' -> get key' (delete key m) = get key' m.
Proof.
  intros Hne. induction m as [|[k w] m IH]; simpl; [done|].
  destruct (decide (k = key)) as [->|Hk]; simpl.
  - by rewrite decide_False.
  - by rewrite IH.
Qed.

Lemma keys_set_old key v m :
  key ∈ keys m -> keys (set key v m) = keys m.
Proof.
  induction m as [|[k w] m IH]; simpl.
  - intros H. by apply elem_of_nil in H.
  - intros H. destruct (decide (k = key)) as [->|Hne]; simpl; [done|].
    apply elem_of_cons in H as [H|H]; [congruence|].
    f_equal. by apply IH.
Qed.

Lemma set_new key v m :
  key ∉ keys m -> set key v m = m ++ [(key, v)].
Proof.
  induction m as [|[k w] m IH]; simpl; [done|].
  intros H. apply not_elem_of_cons in H as [Hne H].
  rewrite decide_False by congruence. by rewrite IH.
Qed.

Lemma delete_absent key m : key ∉ keys m -> delete key m = m.
Proof.
  induction m as [|[k w] m IH]; simpl; [done|].
  intros H. apply not_elem_of_cons in H as [Hne H].
  rewrite decide_False by congruence. by rewrite IH.
Qed.

Lemma keys_delete_subseteq key m : keys (delete key m) ⊆ keys m.
Proof.
  induction m as [|[k w] m IH]; simpl; [done|].
  destruct (decide (k = key)); simpl.
  - by apply list_subseteq_cons.
  - intros x Hx. apply elem_of_cons in Hx as [->|Hx]; [left|right; auto].
Qed.

Lemma wf_empty : wf (@empty K V).
Proof. apply NoDup_nil_2. Qed.

Lemma wf_delete key m : wf m -> wf (delete key m).
Proof.
  unfold wf. induction m as [|[k w] m IH]; simpl; [done|].
  intros Hnd. apply NoDup_cons in Hnd as [Hk Hnd].
  destruct (decide (k = key)); simpl; [auto|].
  apply NoDup_cons. split; [|auto].
  intros Hin. apply Hk. by apply (keys_delete_subseteq key).
Qed.

Lemma wf_set key v m : wf m -> wf (set key v m).
Proof.
  intros Hwf. destruct (decide (key ∈ keys m)) as [Hin|Hout].
  - unfold wf. by rewrite keys_set_old.
  - rewrite set_new by done. unfold wf, keys. rewrite fmap_app. simpl.
    apply NoDup_app. split; [done|]. split.
    + intros x Hx Hx'. apply list_elem_of_singleton in Hx' as ->. done.
    + apply NoDup_singleton.
Qed.

Lemma size_set key v m :
  size (set key v m) = if has key m then size m else size m + 1.
Proof.
  unfold size, has. induction m as [|[k w] m IH]; simpl; [done|].
  destruct (decide (k = key)) as [->|Hne]; simpl; [done|].
  destruct (get key m); simpl in *; lia.
Qed.

Lemma size_delete_le key m : size (delete key m) <= size m.
Proof.
  unfold size. induction m as [|[k w] m IH]; simpl; [done|].
  destruct (decide (k = key)); simpl; lia.
Qed.

Lemma delete_head k v m : wf ((k, v) :: m) -> delete k ((k, v) :: m) = m.
Proof.
  unfold wf. simpl. intros Hnd. apply NoDup_cons in Hnd as [Hk _].
  rewrite decide_True by done. by apply delete_absent.
Qed.
End Facts.
End JsMapFacts.

(** ** Facts about [CooldownMap] *)

Module CooldownMapFacts.
Import JsMap JsMapFacts CooldownMap Scenarios.
Section Facts.
Context {K : Type} `{EqDecision K}.
Implicit Types (self : CooldownMap.t K) (m : JsMap.t K Entry) (key : K).
Implicit Types (now max : Z) (val : Entry).

Lemma wf_new' w c n : wf (new' (K:=K) w c n).
Proof. apply wf_empty. Qed.

Lemma wf_touch now key self : wf self -> wf (touch now key self).
Proof.
  unfold wf, touch. intros Hwf. simpl. apply wf_set.
  destruct (_ && _); [|done].
  destruct (first_key _); [by apply wf_delete | done].
Qed.

Lemma wf_increment now key max self :
  wf self -> wf (snd (increment now key max self)).
Proof.
  unfold wf, increment. intros Hwf.
  destruct (JsMap.get key (_map self)) as [[ts|c fa]|]; simpl;
    try destruct (_ <? _); simpl; by apply wf_set.
Qed.

(** *** [increment] *)

Lemma increment_fresh now key max self :
  match JsMap.get key (_map self) with
  | Some (Attempts _ fa) => _windowMs self < now - fa
  | _ => True
  end ->
  increment now key max self
  = (false, with_map (JsMap.set key (Attempts 1 now) (_map self)) self).
Proof.
  unfold increment.
  destruct (JsMap.get key (_map self)) as [[ts|c fa]|]; try done.
  intros Hlt. by apply Z.ltb_lt in Hlt as ->.
Qed.

Lemma increment_live now key max self c fa :
  JsMap.get key (_map self) = Some (Attempts c fa) ->
  now - fa <= _windowMs self ->
  increment now key max self
  = (max <? c + 1,
     with_map (JsMap.set key (Attempts (c + 1) fa) (_map self)) self).
Proof.
  unfold increment. intros -> Hle.
  by apply Z.ltb_ge in Hle as ->.
Qed.

Lemma increment_all_live times : forall key max self c fa (i : nat),
  JsMap.get key (_map self) = Some (Attempts c fa) ->
  Forall (fun now => now - fa <= _windowMs self) times ->
  (i < length times)%nat ->
  fst (increment_all times key max self) !! i
  = Some (max <? c + Z.of_nat i + 1).
Proof.
  induction times as [|now times IH]; intros key max self c fa i Hget Hall Hi.
  - simpl in Hi. lia.
  - apply Forall_cons in Hall as [Hnow Hall]. simpl.
    rewrite (increment_live _ _ _ _ _ _ Hget Hnow).
    destruct (increment_all times key max _) as [bs self''] eqn:Hrec.
    destruct i as [|i]; simpl.
    + do 2 f_equal. lia.
    + specialize (IH key max
        (with_map (JsMap.set key (Attempts (c + 1) fa) (_map self)) self)
        (c + 1) fa i).
      rewrite Hrec in IH. simpl in IH. rewrite IH.
      * do 2 f_equal. lia.
      * apply get_set_eq.
      * done.
      * simpl in Hi. lia.
Qed.

(** Calls of [increment] that stay within one window, for a limit of at
    least one attempt: the [n]-th call answers [true] exactly when
    [n > max]. *)
Lemma increment_all_window t1 times key max self (i : nat) :
  match JsMap.get key (_map self) with
  | Some (Attempts _ fa) => _windowMs self < t1 - fa
  | _ => True
  end ->
  Forall (fun now => now - t1 <= _windowMs self) times ->
  1 <= max ->
  (i < length (t1 :: times))%nat ->
  fst (increment_all (t1 :: times) key max self) !! i
  = Some (max <? Z.of_nat i + 1).
Proof.
  intros Hfresh Hall Hmax Hi. simpl.
  rewrite (increment_fresh _ _ _ _ Hfresh).
  destruct (increment_all times key max _) as [bs self''] eqn:Hrec.
  destruct i as [|i]; simpl.
  - f_equal. symmetry. apply Z.ltb_ge. lia.
  - pose proof (increment_all_live times key max
      (with_map (JsMap.set key (Attempts 1 t1) (_map self)) self) 1 t1 i)
      as Hlive.
    rewrite Hrec in Hlive. simpl in Hlive. rewrite Hlive.
    + do 2 f_equal. lia.
    + apply get_set_eq.
    + done.
    + simpl in Hi. lia.
Qed.

(** *** [_purge] *)

Lemma filter_all_true {A} (l : list A) : List.filter (fun _ => true) l = l.
Proof. induction l; simpl; congruence. Qed.

Lemma filter_compose {A} (f g : A -> bool) (l : list A) :
  List.filter g (List.filter f l) = List.filter (fun x => f x && g x) l.
Proof.
  induction l as [|x l IH]; simpl; [done|].
  destruct (f x); simpl; [destruct (g x)|]; by rewrite IH.
Qed.

Lemma delete_filter key m :
  JsMap.delete key m
  = List.filter (fun kv => negb (bool_decide (kv.1 = key))) m.
Proof.
  induction m as [|[k v] m IH]; simpl; [done|].
  destruct (decide (k = key)) as [->|Hne].
  - by rewrite bool_decide_eq_true_2.
  - rewrite bool_decide_eq_false_2 by done. simpl. by rewrite IH.
Qed.

(** The loop of [_purge] over the entries [l], started on [m], removes
    from [m] the keys of the expired entries of [l]. *)
Lemma fold_purge_step now w (l : list (K * Entry)) : forall m,
  fold_left (purge_step now w) l m
  = List.filter
      (fun kv => negb (existsb
         (fun e => (w <? now - anchor e.2) && bool_decide (kv.1 = e.1)) l))
      m.
Proof.
  induction l as [|[k v] l IH]; intros m; simpl.
  - by rewrite filter_all_true.
  - rewrite IH. destruct (w <? now - anchor v); simpl.
    + rewrite delete_filter, filter_compose.
      apply filter_ext. intros [k' v']. simpl. by rewrite negb_orb.
    + done.
Qed.

Lemma existsb_expired now w m k v :
  JsMap.wf m -> (k, v) ∈ m ->
  existsb (fun e => (w <? now - anchor e.2) && bool_decide (k = e.1)) m
  = (w <? now - anchor v).
Proof.
  intros Hwf Hin. apply eq_true_iff_eq. rewrite existsb_exists. split.
  - intros [[k' v'] [Hin' Hb]]. apply andb_prop in Hb as [Hexp Hk].
    apply bool_decide_eq_true_1 in Hk. simpl in *. subst k'.
    apply list_elem_of_In in Hin'.
    pose proof (In_get _ _ _ Hwf Hin) as H1.
    pose proof (In_get _ _ _ Hwf Hin') as H2.
    congruence.
  - intros Hexp. exists (k, v). split; [by apply list_elem_of_In|].
    simpl. rewrite Hexp. simpl. by apply bool_decide_eq_true_2.
Qed.

Lemma purge_filter now self :
  wf self ->
  _map (_purge now self)
  = List.filter (fun kv => negb (_windowMs self <? now - anchor kv.2))
      (_map self).
Proof.
  intros Hwf. unfold _purge. simpl. rewrite fold_purge_step.
  apply filter_ext_in. intros [k v] Hin. simpl. f_equal.
  apply existsb_expired; [done | by apply list_elem_of_In].
Qed.

Lemma get_filter (f : Entry -> bool) key m :
  JsMap.wf m ->
  JsMap.get key (List.filter (fun kv => f kv.2) m)
  = match JsMap.get key m with
    | Some v => if f v then Some v else None
    | None => None
    end.
Proof.
  unfold JsMap.wf. induction m as [|[k v] m IH]; simpl; [done|].
  intros Hnd. apply NoDup_cons in Hnd as [Hk Hnd].
  destruct (decide (k = key)) as [->|Hne].
  - destruct (f v); simpl.
    + by rewrite decide_True.
    + rewrite (IH Hnd).
      by apply (get_None_keys (V:=Entry)) in Hk as ->.
  - destruct (f v); simpl; [rewrite decide_False by done|]; auto.
Qed.

Lemma wf_purge now self : wf self -> wf (_purge now self).
Proof.
  intros Hwf. unfold wf. rewrite purge_filter by done.
  unfold wf, JsMap.wf in *. revert Hwf.
  induction (_map self) as [|[k v] m IH]; simpl; [done|].
  intros Hnd. apply NoDup_cons in Hnd as [Hk Hnd].
  destruct (negb _); simpl; [|auto].
  apply NoDup_cons. split; [|auto].
  intros Hin. apply Hk. unfold keys in *.
  apply list_elem_of_fmap in Hin as [[k' v'] [-> Hin]].
  apply list_elem_of_In, filter_In in Hin as [Hin _].
  apply list_elem_of_fmap. exists (k', v'). split; [done|].
  by apply list_elem_of_In.
Qed.

(** C5: [_purge] removes exactly the entries whose anchor lies more than
    [_windowMs] in the past, where the anchor of a number written by
    [touch] is the number itself and the anchor of an object written by
    [increment] is its [firstAttempt]; every other entry stays, with its
    value and in its place. *)
Theorem purge_removes_exactly_expired now self :
  wf self ->
  (forall ts, anchor (Timestamp ts) = ts)
  /\ (forall count firstAttempt,
        anchor (Attempts count firstAttempt) = firstAttempt)
  /\ (forall key,
        JsMap.get key (_map (_purge now self))
        = match JsMap.get key (_map self) with
          | Some val =>
              if _windowMs self <? now - anchor val then None else Some val
          | None => None
          end)
  /\ (forall key val,
        JsMap.get key (_map self) = Some val ->
        now - anchor val <= _windowMs self ->
        JsMap.get key (_map (_purge now self)) = Some val)
  /\ _map (_purge now self)
     = List.filter (fun kv => negb (_windowMs self <? now - anchor kv.2))
         (_map self).
Proof.
  intros Hwf.
  assert (Hget : forall key,
    JsMap.get key (_map (_purge now self))
    = match JsMap.get key (_map self) with
      | Some val =>
          if _windowMs self <? now - anchor val then None else Some val
      | None => None
      end).
  { intros key. rewrite purge_filter by done.
    rewrite (get_filter (fun v => negb (_windowMs self <? now - anchor v)))
      by done.
    destruct (JsMap.get key (_map self)) as [v|]; [|done].
    by destruct (_ <? _). }
  repeat split; try done.
  - intros key val Hval Hle. rewrite Hget, Hval.
    by apply Z.ltb_ge in Hle as ->.
  - by apply purge_filter.
Qed.

(** *** [touch] and [isLimited] *)

Lemma get_touch now key self :
  JsMap.get key (_map (touch now key self)) = Some (Timestamp now).
Proof. unfold touch. simpl. apply get_set_eq. Qed.

(** C7: after [touch(key)] at time [now], [isLimited(key)] read at time
    [later] answers [later - now < _windowMs]: true at once (the window
    is positive) and for as long as less than the window has elapsed,
    false once more than the window has elapsed. It answers false for a
    key that is absent, and it leaves the object as it found it. *)
Theorem touch_then_isLimited now later key self :
  0 < _windowMs self ->
  fst (isLimited now key (touch now key self)) = true
  /\ (later - now < _windowMs self ->
      fst (isLimited later key (touch now key self)) = true)
  /\ (_windowMs self < later - now ->
      fst (isLimited later key (touch now key self)) = false)
  /\ fst (isLimited later key (touch now key self))
     = (later - now <? _windowMs self)
  /\ (forall (other : CooldownMap.t K) (k : K),
        JsMap.get k (_map other) = None ->
        fst (isLimited later k other) = false)
  /\ (forall (other : CooldownMap.t K) (k : K),
        snd (isLimited later k other) = other).
Proof.
  intros Hw.
  assert (Hread : forall t,
    fst (isLimited t key (touch now key self)) = (t - now <? _windowMs self)).
  { intros t. unfold isLimited. cbn [fst]. by rewrite get_touch. }
  repeat split.
  - rewrite Hread. apply Z.ltb_lt. lia.
  - intros Hlt. rewrite Hread. by apply Z.ltb_lt.
  - intros Hgt. rewrite Hread. apply Z.ltb_ge. lia.
  - apply Hread.
  - intros other k Hnone. unfold isLimited. simpl. by rewrite Hnone.
Qed.

(** *** The size bound kept by [touch] *)

Lemma size_touch_le now key self :
  0 < _maxSize self ->
  size self <= _maxSize self ->
  size (touch now key self) <= _maxSize self.
Proof.
  unfold size, touch. intros Hpos Hle. simpl.
  rewrite size_set.
  destruct (_maxSize self =? 0) eqn:Hz; [apply Z.eqb_eq in Hz; lia|]. simpl.
  destruct (_maxSize self <=? JsMap.size (_map self)) eqn:Hfull.
  - apply Z.leb_le in Hfull.
    destruct (_map self) as [|[k0 v0] rest] eqn:Hm.
    + unfold JsMap.size in *. simpl in *. lia.
    + simpl. rewrite decide_True by done.
      pose proof (size_delete_le k0 rest) as Hdel.
      unfold JsMap.size in *. simpl in *.
      destruct (has key (JsMap.delete k0 rest)); lia.
  - apply Z.leb_gt in Hfull. destruct (has key (_map self)); lia.
Qed.

(** A cache with a positive [maxSize] that is only ever written by
    [touch] never holds more than [maxSize] entries. *)
Lemma size_touches_le (ops : list (Z * K)) : forall self,
  0 < _maxSize self ->
  size self <= _maxSize self ->
  size (fold_left (fun s op => touch op.1 op.2 s) ops self) <= _maxSize self.
Proof.
  induction ops as [|[now key] ops IH]; intros self Hpos Hle; simpl; [done|].
  change (_maxSize self) with (_maxSize (touch now key self)).
  apply IH; [done|].
  change (_maxSize (touch now key self)) with (_maxSize self).
  by apply size_touch_le.
Qed.

(** [touch] of a new key on a full cache drops the entry at the head of
    the insertion order and appends the new one. *)
Lemma touch_evicts_oldest now key self k0 v0 rest :
  wf self ->
  0 < _maxSize self ->
  size self = _maxSize self ->
  _map self = (k0, v0) :: rest ->
  key ∉ JsMap.keys (_map self) ->
  _map (touch now key self) = rest ++ [(key, Timestamp now)]
  /\ size (touch now key self) = _maxSize self
  /\ JsMap.get k0 (_map (touch now key self)) = None.
Proof.
  unfold wf, size, touch. intros Hwf Hpos Hsize Hm Hnew. simpl.
  destruct (_maxSize self =? 0) eqn:Hz; [apply Z.eqb_eq in Hz; lia|]. simpl.
  rewrite (proj2 (Z.leb_le _ _)) by lia.
  rewrite Hm in *.
  change (first_key ((k0, v0) :: rest)) with (Some k0). cbv beta iota.
  rewrite delete_head by done.
  apply not_elem_of_cons in Hnew as [Hne Hnew].
  apply NoDup_cons in Hwf as [Hk0 Hrest].
  rewrite set_new by done. split; [done|]. split.
  - unfold JsMap.size in *. rewrite length_app. simpl in *. lia.
  - apply get_None_keys. unfold keys. rewrite fmap_app. simpl.
    rewrite elem_of_app. intros [Hin|Hin]; [done|].
    apply list_elem_of_singleton in Hin. by apply Hne.
Qed.

(** C1, amended: for a limit [max] of at least one attempt,
    [increment(key, max)] answers [true] exactly when the count it has
    just recorded for the current window exceeds [max]. The count is 1,
    in a window that starts now, when the key has no object or more than
    [_windowMs] has passed since [firstAttempt] (and the answer is then
    [false]); otherwise it is the stored count plus one, in the same
    window. So of the calls made within one window the first [max]
    answer [false] and the next answers [true]. *)
Theorem increment_exceeds_iff_over_max now key max self :
  1 <= max ->
  (exists count firstAttempt,
     JsMap.get key (_map (snd (increment now key max self)))
     = Some (Attempts count firstAttempt)
     /\ (fst (increment now key max self) = true <-> max < count)
     /\ match JsMap.get key (_map self) with
        | Some (Attempts c fa) =>
            if _windowMs self <? now - fa
            then count = 1 /\ firstAttempt = now
            else count = c + 1 /\ firstAttempt = fa
        | _ => count = 1 /\ firstAttempt = now
        end)
  /\ (forall c fa,
        JsMap.get key (_map self) = Some (Attempts c fa) ->
        _windowMs self < now - fa ->
        increment now key max self
        = (false, with_map (JsMap.set key (Attempts 1 now) (_map self)) self))
  /\ (forall (times : list Z) (i : nat),
        match JsMap.get key (_map self) with
        | Some (Attempts _ fa) => _windowMs self < now - fa
        | _ => True
        end ->
        Forall (fun t => t - now <= _windowMs self) times ->
        (i < length (now :: times))%nat ->
        fst (increment_all (now :: times) key max self) !! i
        = Some (max <? Z.of_nat i + 1)).
Proof.
  intros Hmax. split; [|split].
  - unfold increment.
    destruct (JsMap.get key (_map self)) as [[ts|c fa]|] eqn:Hget.
    + exists 1, now. simpl. rewrite get_set_eq.
      split; [done|]. split; [|done]. split; [done | lia].
    + destruct (_windowMs self <? now - fa) eqn:Hexp.
      * exists 1, now. simpl. rewrite get_set_eq.
        split; [done|]. split; [|done]. split; [done | lia].
      * exists (c + 1), fa. simpl. rewrite get_set_eq.
        split; [done|]. split; [|done]. apply Z.ltb_lt.
    + exists 1, now. simpl. rewrite get_set_eq.
      split; [done|]. split; [|done]. split; [done | lia].
  - intros c fa Hget Hexp. apply increment_fresh. by rewrite Hget.
  - intros times i Hfresh Hall Hi. by apply increment_all_window.
Qed.
End Facts.

Local Open Scope string_scope.

Lemma purge_removes_exactly_expired_witness :
  _map (_purge 2000 mixed) = [("c", Timestamp 1500); ("d", Attempts 1 1500)].
Proof.
  assert (Hwf : wf mixed).
  { unfold wf, JsMap.wf. apply (bool_decide_unpack _). vm_compute. exact I. }
  destruct (purge_removes_exactly_expired 2000 mixed Hwf)
    as (_ & _ & _ & _ & ->).
  reflexivity.
Defined.

Lemma touch_then_isLimited_witness :
  fst (isLimited 999 "key" (touch 0 "key" (new 1000))) = true
  /\ fst (isLimited 1001 "key" (touch 0 "key" (new 1000))) = false.
Proof.
  assert (Hw : 0 < _windowMs (new (K:=string) 1000)) by (simpl; lia).
  split.
  - destruct (touch_then_isLimited 0 999 "key" (new 1000) Hw)
      as (_ & Hin & _).
    apply Hin. simpl. lia.
  - destruct (touch_then_isLimited 0 1001 "key" (new 1000) Hw)
      as (_ & _ & Hout & _).
    apply Hout. simpl. lia.
Defined.

(** C1, as stated, fails for a limit below one: the first call of a window
    answers [false] without looking at [max], so with [max = 0] the count
    it has just recorded, 1, exceeds [max] and the answer is still
    [false]. *)
Lemma increment_first_call_ignores_max :
  let '(exceeded, self) := increment 0 "key" 0 (new 60000) in
  exceeded = false
  /\ JsMap.get "key" (_map self) = Some (Attempts 1 0)
  /\ (0 <? 1)%Z = true.
Proof. vm_compute. repeat split. Qed.

Lemma increment_exceeds_iff_over_max_witness :
  fst (increment_all [0; 10; 20] "key" 2 (new 60000)) !! 2%nat = Some true
  /\ fst (increment_all [0; 10; 20] "key" 2 (new 60000)) !! 1%nat = Some false.
Proof.
  assert (Hmax : (1 <= 2)%Z) by lia.
  destruct (increment_exceeds_iff_over_max 0 "key" 2 (new 60000) Hmax)
    as (_ & _ & Hseq).
  split.
  - apply (Hseq [10; 20]%Z 2%nat); [exact I | | simpl; lia].
    repeat constructor; simpl; lia.
  - apply (Hseq [10; 20]%Z 1%nat); [exact I | | simpl; lia].
    repeat constructor; simpl; lia.
Defined.

(** C2: [increment] stores a new key without looking at [_maxSize]: a
    cache built with [maxSize = 1] holds two entries after two calls. *)
Theorem increment_ignores_maxSize :
  let self := run [OpIncrement 0 "a" 5; OpIncrement 0 "b" 5]
                (new' 60000 2 1) in
  _maxSize self = 1 /\ size self = 2.
Proof. vm_compute. split; reflexivity. Qed.
End CooldownMapFacts.

(** ** Facts about strings and [isValidIntro] *)

Module IntroFacts.
Import Config Utf16 IntroUtf16.
Local Open Scope N_scope.

Lemma startsWith_spec (needle : Utf16.t) : forall s : Utf16.t,
  startsWith s needle = true <-> exists rest, s = needle ++ rest.
Proof.
  induction needle as [|a needle IH]; intros s; simpl.
  - destruct s; split; eauto.
  - destruct s as [|b s]; simpl.
    + split; [done | by intros [rest ?]].
    + destruct (a =? b) eqn:Hab.
      * apply N.eqb_eq in Hab as ->. rewrite IH. split.
        -- intros [rest ->]. by exists rest.
        -- intros [rest [= ->]]. by exists rest.
      * apply N.eqb_neq in Hab. split; [done|].
        intros [rest [= ? _]]. congruence.
Qed.

Lemma includes_spec (needle s : Utf16.t) :
  includes s needle = true
  <-> exists before after, s = before ++ needle ++ after.
Proof.
  induction s as [|c s IH]; cbn [includes].
  - rewrite orb_false_r, startsWith_spec. split.
    + intros [rest ->]. by exists [], rest.
    + intros [[|? ?] [after Heq]]; [by exists after | done].
  - rewrite orb_true_iff, startsWith_spec, IH. split.
    + intros [[rest ->]|(before & after & ->)].
      * by exists [], rest.
      * by exists (c :: before), after.
    + intros [[|c' before] [after Heq]]; simpl in Heq.
      * left. by exists after.
      * right. injection Heq as -> ->. by exists before, after.
Qed.

(** *** Letter case *)

Lemma lower_ascii_capital u : 65 <= u <= 90 -> lower_ascii u = u + 32.
Proof.
  intros [Hlo Hhi]. unfold lower_ascii.
  by rewrite (proj2 (N.leb_le _ _) Hlo), (proj2 (N.leb_le _ _) Hhi).
Qed.

Lemma lower_ascii_other u : ~ (65 <= u <= 90) -> lower_ascii u = u.
Proof.
  intros Hno. unfold lower_ascii.
  destruct (65 <=? u) eqn:Hlo; [|done].
  destruct (u <=? 90) eqn:Hhi; [|done].
  apply N.leb_le in Hlo, Hhi. lia.
Qed.

(** The pairs of [letter_pairs] are the capital letters, each with the
    unit 32 above it. *)
Lemma letter_pairs_spec a b :
  (a, b) ∈ letter_pairs <-> 65 <= a <= 90 /\ b = a + 32.
Proof.
  split.
  - unfold letter_pairs. intros Hin. vm_compute in Hin.
    repeat (apply elem_of_cons in Hin as [[= -> ->]|Hin]; [lia|]).
    by apply elem_of_nil in Hin.
  - intros [[Hlo Hhi] ->].
    assert (Hi : exists i, (i < 26)%nat /\ a = N.of_nat (65 + i)).
    { exists (N.to_nat a - 65)%nat. lia. }
    destruct Hi as (i & Hi & ->).
    do 26 (destruct i as [|i]; [vm_compute; set_solver|]). lia.
Qed.

(** Two units are the same up to letter case exactly when [toLowerCase]
    takes them to the same unit. *)
Lemma same_letter_lower a b :
  same_letter a b <-> lower_ascii a = lower_ascii b.
Proof.
  unfold same_letter. rewrite !letter_pairs_spec. split.
  - intros [->|[[Ha ->]|[Hb ->]]]; [done| |].
    + rewrite (lower_ascii_capital a Ha). rewrite lower_ascii_other; lia.
    + rewrite (lower_ascii_capital b Hb). rewrite lower_ascii_other; lia.
  - intros Heq.
    destruct (decide (65 <= a <= 90)) as [Ha|Ha];
      destruct (decide (65 <= b <= 90)) as [Hb|Hb];
      rewrite ?(lower_ascii_capital a Ha), ?(lower_ascii_capital b Hb),
        ?(lower_ascii_other a Ha), ?(lower_ascii_other b Hb) in Heq.
    + left. lia.
    + right. left. split; [done | lia].
    + right. right. split; [done | lia].
    + by left.
Qed.

Lemma Forall2_same_letter (mid kw : Utf16.t) :
  Forall2 same_letter mid kw <-> map lower_ascii mid = map lower_ascii kw.
Proof.
  split.
  - induction 1 as [|a b mid kw Hab _ IH]; simpl; [done|].
    apply same_letter_lower in Hab. by rewrite Hab, IH.
  - revert kw. induction mid as [|a mid IH]; intros [|b kw] Heq;
      simpl in Heq; try done.
    injection Heq as Hab Heq. constructor; [by apply same_letter_lower|].
    by apply IH.
Qed.

Lemma lower_ascii_below u : lower_ascii u < 128 -> u < 128.
Proof. unfold lower_ascii. destruct (_ && _); lia. Qed.

(** *** What [lowers] gives *)

(** A text of units below 128 is lowered unit by unit. *)
Lemma lowers_prefix (s l : Utf16.t) :
  lowers s l ->
  forall m a, s = m ++ a -> Forall (fun u => u < 128) m ->
  exists l3, l = map lower_ascii m ++ l3.
Proof.
  induction 1 as [|u s l Hu Hs IH|src img s l Hsrc Hhigh Himg Hcase Hs IH];
    intros m a Heq Hm.
  - destruct m; [by exists [] | done].
  - destruct m as [|x m]; [by eexists|].
    simpl in Heq. injection Heq as <- ->.
    apply Forall_cons in Hm as [_ Hm].
    destruct (IH m a eq_refl Hm) as [l3 ->]. by exists l3.
  - destruct m as [|x m]; [by eexists|]. exfalso.
    destruct src as [|y src]; [done|]. simpl in Heq. injection Heq as -> _.
    apply Forall_cons in Hm as [Hx _]. apply Forall_cons in Hhigh as [Hy _].
    lia.
Qed.

Lemma lowers_ascii_text (s l : Utf16.t) :
  lowers s l -> Forall (fun u => u < 128) s -> l = map lower_ascii s.
Proof.
  intros Hs Hall.
  destruct (lowers_prefix s l Hs s [] (eq_sym (app_nil_r s)) Hall)
    as [l3 Hl].
  assert (Hlen : List.length l = List.length s).
  { clear Hl. induction Hs as [|u s l Hu Hs IH|src img s l Hsrc Hhigh _ _ _ _].
    - done.
    - apply Forall_cons in Hall as [_ Hall]. simpl. by rewrite IH.
    - exfalso. destruct src as [|y src]; [done|].
      apply Forall_cons in Hall as [Hy _]. apply Forall_cons in Hhigh as [? _].
      lia. }
  rewrite Hl in Hlen. rewrite length_app, length_map in Hlen.
  destruct l3; [by rewrite app_nil_r in Hl | simpl in Hlen; lia].
Qed.

(** A stretch of units below 128 of the text is found lowered in the
    lowered text. *)
Lemma lowers_stretch (s l : Utf16.t) :
  lowers s l ->
  forall b m a, s = b ++ m ++ a -> Forall (fun u => u < 128) m ->
  exists l1 l3, l = l1 ++ map lower_ascii m ++ l3.
Proof.
  assert (Hempty : forall whole : Utf16.t,
    exists l1 l3 : Utf16.t, whole = l1 ++ map lower_ascii [] ++ l3).
  { intros whole. exists whole, []. by rewrite app_nil_r. }
  induction 1 as [|u s l Hu Hs IH|src img s l Hsrc Hhigh Himg Hcase Hs IH];
    intros b m a Heq Hm.
  - destruct b, m; done.
  - destruct b as [|x b].
    + destruct m as [|x m]; [by apply Hempty|].
      simpl in Heq. injection Heq as <- ->.
      apply Forall_cons in Hm as [_ Hm].
      destruct (lowers_prefix _ _ Hs m a eq_refl Hm) as [l3 ->].
      by exists [], l3.
    + simpl in Heq. injection Heq as <- ->.
      destruct (IH b m a eq_refl Hm) as (l1 & l3 & ->).
      by exists (lower_ascii u :: l1), l3.
  - apply List.app_eq_app in Heq as [k [[-> Hk]|[-> ->]]].
    + destruct k as [|x k].
      * simpl in Hk. subst s.
        destruct (IH [] m a eq_refl Hm) as (l1 & l3 & ->).
        exists (img ++ l1), l3. by rewrite <- app_assoc.
      * destruct m as [|y m]; [by apply Hempty|]. exfalso.
        simpl in Hk. injection Hk as -> _.
        apply Forall_cons in Hm as [Hx _].
        apply Forall_app in Hhigh as [_ Hhigh].
        apply Forall_cons in Hhigh as [? _]. lia.
    + destruct (IH k m a eq_refl Hm) as (l1 & l3 & ->).
      exists (img ++ l1), l3. by rewrite <- app_assoc.
Qed.

Lemma ascii_needle_cons u (rest : Utf16.t) :
  ascii_needle (u :: rest) = true ->
  u < 128 /\ u <> 107 /\ (rest = [] -> u <> 105)
  /\ ascii_needle rest = true.
Proof.
  cbn [ascii_needle]. intros H.
  apply andb_true_iff in H as [H Hrest].
  apply andb_true_iff in H as [Hlt Hk].
  apply N.ltb_lt in Hlt. apply negb_true_iff, N.eqb_neq in Hk.
  split_and!; try done.
  - intros ->. by apply negb_true_iff, N.eqb_neq in Hrest.
  - by destruct rest.
Qed.

(** The image of a character from 128 on does not start a needle. *)
Lemma no_needle_in_image (src img k' l kw l3 : Utf16.t) u :
  Forall (fun u => 128 <= u) img
  \/ (src = [304] /\ img = [105; 775])
  \/ (src = [8490] /\ img = [107]) ->
  u ∈ img ->
  (exists l1, img = l1 ++ u :: k') ->
  k' ++ l = kw ++ l3 ->
  ascii_needle (u :: kw) = true ->
  False.
Proof.
  intros Hcase Hin [l1 Himg] Hk Hneedle.
  apply ascii_needle_cons in Hneedle as (Hu & Hnk & Hlast & Hkw).
  destruct Hcase as [Hhigh|[[_ ->]|[_ ->]]].
  - rewrite Forall_forall in Hhigh. specialize (Hhigh u Hin). lia.
  - destruct l1 as [|x [|y [|z l1]]]; simplify_eq/=; try lia.
    destruct kw as [|k2 kw]; [by apply Hlast|].
    simpl in Hk. injection Hk as <- _.
    apply ascii_needle_cons in Hkw as (? & _). lia.
  - destruct l1 as [|x [|y l1]]; simplify_eq/=; try lia.
Qed.

(** A needle found at the head of the lowered text is the lowering of
    units below 128 at the head of the text. *)
Lemma lowers_prefix_back (s l : Utf16.t) :
  lowers s l ->
  forall kw l3, l = kw ++ l3 -> ascii_needle kw = true ->
  exists m a, s = m ++ a /\ map lower_ascii m = kw.
Proof.
  induction 1 as [|u s l Hu Hs IH|src img s l Hsrc Hhigh Himg Hcase Hs IH];
    intros kw l3 Heq Hkw.
  - destruct kw; [by exists [], [] | done].
  - destruct kw as [|k kw]; [by exists [], (u :: s)|].
    simpl in Heq. injection Heq as <- ->.
    apply ascii_needle_cons in Hkw as (_ & _ & _ & Hkw).
    destruct (IH kw l3 eq_refl Hkw) as (m & a & -> & <-).
    by exists (u :: m), a.
  - destruct kw as [|k kw]; [by exists [], (src ++ s)|]. exfalso.
    destruct img as [|i0 img]; [done|].
    simpl in Heq. injection Heq as -> Heq.
    apply (no_needle_in_image src (k :: img) img l kw l3 k Hcase);
      [apply list_elem_of_here | by exists [] | done | done].
Qed.

(** A needle found in the lowered text is the lowering of a stretch of
    units below 128 of the text. *)
Lemma lowers_stretch_back (s l : Utf16.t) :
  lowers s l ->
  forall l1 kw l3, l = l1 ++ kw ++ l3 -> kw <> [] ->
  ascii_needle kw = true ->
  exists b m a, s = b ++ m ++ a /\ map lower_ascii m = kw.
Proof.
  induction 1 as [|u s l Hu Hs IH|src img s l Hsrc Hhigh Himg Hcase Hs IH];
    intros l1 kw l3 Heq Hne Hkw.
  - by destruct l1, kw.
  - destruct l1 as [|x l1].
    + destruct kw as [|k kw]; [done|].
      simpl in Heq. injection Heq as <- ->.
      apply ascii_needle_cons in Hkw as (_ & _ & _ & Hkw).
      destruct (lowers_prefix_back _ _ Hs kw l3 eq_refl Hkw)
        as (m & a & -> & <-).
      by exists [], (u :: m), a.
    + simpl in Heq. injection Heq as _ ->.
      destruct (IH l1 kw l3 eq_refl Hne Hkw) as (b & m & a & -> & <-).
      by exists (u :: b), m, a.
  - apply List.app_eq_app in Heq as [k [[-> Hk]|[-> ->]]].
    + destruct k as [|x k].
      * simpl in Hk. subst l.
        destruct (IH [] kw l3 eq_refl Hne Hkw) as (b & m & a & -> & <-).
        exists (src ++ b), m, a. by rewrite <- app_assoc.
      * exfalso. destruct kw as [|y kw]; [done|].
        simpl in Hk. injection Hk as -> Hk.
        apply (no_needle_in_image src (l1 ++ x :: k) k l kw l3 x Hcase);
          [by apply elem_of_app; right; apply list_elem_of_here
          | by exists l1 | done | done].
    + destruct (IH k kw l3 eq_refl Hne Hkw) as (b & m & a & -> & <-).
      exists (src ++ b), m, a. by rewrite <- app_assoc.
Qed.

Lemma ascii_keyword_spec (kw : Utf16.t) :
  ascii_keyword kw = true ->
  kw <> [] /\ Forall (fun u => u < 128) kw
  /\ ascii_needle (map lower_ascii kw) = true.
Proof.
  unfold ascii_keyword. intros H.
  apply andb_true_iff in H as [H Hneedle].
  apply andb_true_iff in H as [Hne Hall].
  split_and!; [by destruct kw | | done].
  apply Forall_forall. intros u Hu.
  rewrite forallb_forall in Hall. apply N.ltb_lt, Hall.
  by apply list_elem_of_In.
Qed.

Lemma INTRO_KEYWORDS_ascii :
  Forall (fun kw => ascii_keyword (of_string kw) = true) INTRO_KEYWORDS.
Proof. repeat constructor. Qed.

(** A filter over a duplicate-free list keeps at least two elements exactly
    when two distinct elements pass the test. *)
Lemma filter_at_least_two {A} (f : A -> bool) (l : list A) :
  NoDup l ->
  (2 <= List.length (List.filter f l))%nat
  <-> exists x y, x <> y /\ x ∈ l /\ y ∈ l /\ f x = true /\ f y = true.
Proof.
  intros Hnd.
  assert (Hnd' : List.NoDup (List.filter f l)).
  { apply List.NoDup_filter. by apply NoDup_ListNoDup. }
  split.
  - intros Hlen.
    destruct (List.filter f l) as [|x [|y rest]] eqn:Hf; simpl in Hlen; try lia.
    assert (Hx : In x (List.filter f l)) by (rewrite Hf; by left).
    assert (Hy : In y (List.filter f l)) by (rewrite Hf; right; by left).
    apply filter_In in Hx as [Hx Hfx]. apply filter_In in Hy as [Hy Hfy].
    exists x, y. rewrite <- !list_elem_of_In in *.
    repeat split; try done.
    intros ->. apply List.NoDup_cons_iff in Hnd' as [Hnotin _].
    apply Hnotin. by left.
  - intros (x & y & Hne & Hx & Hy & Hfx & Hfy).
    assert (Hx' : In x (List.filter f l)).
    { apply filter_In. by rewrite <- list_elem_of_In. }
    assert (Hy' : In y (List.filter f l)).
    { apply filter_In. by rewrite <- list_elem_of_In. }
    destruct (List.filter f l) as [|a [|b rest]]; simpl in *; [done | | lia].
    destruct Hx' as [<-|[]], Hy' as [<-|[]]. done.
Qed.

Lemma INTRO_KEYWORDS_NoDup : NoDup INTRO_KEYWORDS.
Proof. apply (bool_decide_unpack _). vm_compute. exact I. Qed.

Section Spec.
Variable toLowerCase : Utf16.t -> Utf16.t.
Hypothesis toLowerCase_lowers : forall s, lowers s (toLowerCase s).

(** The test of the source, a search in the lowered text, finds a keyword
    exactly when the keyword occurs in the text up to letter case. *)
Lemma includes_lower_iff (kw text : Utf16.t) :
  ascii_keyword kw = true ->
  includes (toLowerCase text) (toLowerCase kw) = true
  <-> occurs_ignoring_case kw text.
Proof.
  intros Hkw. apply ascii_keyword_spec in Hkw as (Hne & Hascii & Hneedle).
  rewrite (lowers_ascii_text kw _ (toLowerCase_lowers kw) Hascii).
  rewrite includes_spec. unfold occurs_ignoring_case. split.
  - intros (l1 & l3 & Heq).
    destruct (lowers_stretch_back _ _ (toLowerCase_lowers text) l1 _ l3 Heq)
      as (b & m & a & -> & Hm); [by destruct kw | done |].
    exists b, m, a. split; [done|]. by apply Forall2_same_letter.
  - intros (b & m & a & -> & Hm). apply Forall2_same_letter in Hm.
    rewrite <- Hm.
    apply (lowers_stretch _ _ (toLowerCase_lowers (b ++ m ++ a)) b m a eq_refl).
    apply Forall_forall. intros u Hu. apply lower_ascii_below.
    assert (Hlow : lower_ascii u ∈ map lower_ascii kw).
    { rewrite <- Hm. by apply list_elem_of_fmap_2. }
    apply list_elem_of_fmap in Hlow as (v & -> & Hv).
    rewrite Forall_forall in Hascii. specialize (Hascii v Hv).
    unfold lower_ascii. destruct (_ && _) eqn:Hcap; [|done].
    apply andb_true_iff in Hcap as [_ Hhi]. apply N.leb_le in Hhi. lia.
Qed.

(** C3: whatever the text, of any code units, [isValidIntro(text)] is
    true exactly when the length of [text] lies between 50 and 4000 and
    either two different configured keywords occur in [text] up to the
    case of the letters [A]-[Z] or the length is at least 150. A text of
    49 units, and a text of 4001 units, is rejected whatever it
    contains. [toLowerCase] is any function that lowers as the built-in
    does ([lowers]). *)
Theorem isValidIntro_spec (text : Utf16.t) :
  (isValidIntro toLowerCase text = true
   <-> (50 <= Utf16.length text <= 4000
        /\ (two_keywords_occur text \/ 150 <= Utf16.length text))%Z)
  /\ (Utf16.length text = 49%Z -> isValidIntro toLowerCase text = false)
  /\ (Utf16.length text = 4001%Z -> isValidIntro toLowerCase text = false).
Proof.
  assert (Hmain : isValidIntro toLowerCase text = true
    <-> (50 <= Utf16.length text <= 4000
         /\ (two_keywords_occur text \/ 150 <= Utf16.length text))%Z).
  { unfold isValidIntro, INTRO_MIN_LENGTH, INTRO_MAX_LENGTH,
      INTRO_KEYWORD_BYPASS_LENGTH.
    destruct (Utf16.length text <? 50)%Z eqn:Hmin.
    { apply Z.ltb_lt in Hmin. split; [done | lia]. }
    apply Z.ltb_ge in Hmin.
    destruct (4000 <? Utf16.length text)%Z eqn:Hmax.
    { apply Z.ltb_lt in Hmax. split; [done | lia]. }
    apply Z.ltb_ge in Hmax.
    rewrite orb_true_iff, !Z.leb_le.
    assert (Hkw : (2 <= Z.of_nat (List.length (List.filter
                    (fun kw => includes (toLowerCase text)
                                 (toLowerCase (of_string kw)))
                    INTRO_KEYWORDS)))%Z
                  <-> two_keywords_occur text).
    { rewrite <- (Nat2Z.inj_le 2).
      rewrite (filter_at_least_two _ _ INTRO_KEYWORDS_NoDup).
      pose proof INTRO_KEYWORDS_ascii as Hascii.
      rewrite Forall_forall in Hascii.
      unfold two_keywords_occur.
      split; intros (k1 & k2 & Hne & H1 & H2 & Ho1 & Ho2);
        exists k1, k2; repeat split; try done;
        by apply includes_lower_iff; [apply Hascii|]. }
    rewrite Hkw. tauto. }
  split; [exact Hmain|].
  split; intros Hlen; apply not_true_is_false; rewrite Hmain; lia.
Qed.
End Spec.

(** *** The validator of the handlers

    On a text of code units below 256, [toLowerCase] of [JsString] is a
    function that lowers as the built-in does, and [Intro.isValidIntro]
    is the validator above. *)

Lemma lower_latin1_ascii u : u < 128 -> lower_latin1 u = lower_ascii u.
Proof.
  intros Hu.
  assert (Hi : exists i, (i < 128)%nat /\ u = N.of_nat i).
  { exists (N.to_nat u). lia. }
  destruct Hi as (i & Hi & ->).
  do 128 (destruct i as [|i]; [reflexivity|]). lia.
Qed.

Lemma lower_latin1_high u : 128 <= u -> 128 <= lower_latin1 u.
Proof.
  intros Hu. unfold lower_latin1.
  destruct (u <? 256) eqn:Hlt; [|done]. apply N.ltb_lt in Hlt.
  assert (Hi : exists i, (i < 128)%nat /\ u = N.of_nat (128 + i)).
  { exists (N.to_nat u - 128)%nat. lia. }
  destruct Hi as (i & Hi & ->).
  do 128 (destruct i as [|i]; [by vm_compute|]). lia.
Qed.

Lemma toLowerCase_latin1_lowers (s : Utf16.t) :
  lowers s (toLowerCase_latin1 s).
Proof.
  induction s as [|u s IH]; [constructor|].
  unfold toLowerCase_latin1. cbn [map].
  destruct (decide (u < 128)) as [Hu|Hu].
  - rewrite lower_latin1_ascii by done. by constructor.
  - apply (lowers_other [u] [lower_latin1 u] s (map lower_latin1 s));
      [done | | done | | done].
    + constructor; [lia | constructor].
    + left. constructor; [apply lower_latin1_high; lia | constructor].
Qed.

Lemma of_string_toLowerCase (s : string) :
  of_string (JsString.toLowerCase s) = toLowerCase_latin1 (of_string s).
Proof.
  unfold of_string, toLowerCase_latin1.
  induction s as [|c s IH]; [done|]. simpl. rewrite IH. f_equal.
  unfold lower_latin1.
  rewrite (proj2 (N.ltb_lt _ _) (N_ascii_bounded c)).
  by rewrite ascii_N_embedding.
Qed.

Lemma of_string_startsWith (needle : string) : forall s : string,
  startsWith (of_string s) (of_string needle) = JsString.startsWith s needle.
Proof.
  induction needle as [|a needle IH]; intros s; [by destruct s|].
  destruct s as [|b s]; [done|].
  change (of_string (String a needle))
    with (N_of_ascii a :: of_string needle).
  change (of_string (String b s)) with (N_of_ascii b :: of_string s).
  cbn [startsWith JsString.startsWith]. rewrite IH.
  destruct (Ascii.eqb a b) eqn:Hab.
  - apply Ascii.eqb_eq in Hab as ->. by rewrite N.eqb_refl.
  - apply Ascii.eqb_neq in Hab.
    rewrite (proj2 (N.eqb_neq _ _)); [done|].
    intros Heq. apply Hab.
    by rewrite <- (ascii_N_embedding a), Heq, ascii_N_embedding.
Qed.

Lemma of_string_includes (needle s : string) :
  includes (of_string s) (of_string needle) = JsString.includes s needle.
Proof.
  induction s as [|c s IH].
  - cbn [includes JsString.includes of_string list_ascii_of_string map].
    by rewrite <- (of_string_startsWith needle EmptyString).
  - change (of_string (String c s)) with (N_of_ascii c :: of_string s).
    cbn [includes JsString.includes].
    change (N_of_ascii c :: of_string s) with (of_string (String c s)).
    by rewrite of_string_startsWith, IH.
Qed.

Lemma of_string_length (s : string) :
  Utf16.length (of_string s) = JsString.length s.
Proof.
  unfold Utf16.length, JsString.length, of_string. rewrite length_map.
  f_equal. induction s as [|c s IH]; simpl; [done | by rewrite IH].
Qed.

Lemma isValidIntro_latin1 (text : string) :
  Intro.isValidIntro text
  = isValidIntro toLowerCase_latin1 (of_string text).
Proof.
  unfold Intro.isValidIntro, isValidIntro.
  rewrite of_string_length, <- !of_string_toLowerCase.
  destruct (_ <? _)%Z; [done|]. destruct (_ <? _)%Z; [done|].
  cbv zeta. do 4 f_equal.
  apply filter_ext. intros kw.
  by rewrite <- of_string_toLowerCase, of_string_includes.
Qed.

Lemma toLowerCase_basic_lowers (s : Utf16.t) :
  lowers s (toLowerCase_basic s).
Proof.
  induction s as [|u s IH]; [constructor|].
  unfold toLowerCase_basic. cbn [flat_map]. unfold lower_basic at 1.
  destruct (decide (u < 128)) as [Hu|Hu].
  - rewrite (proj2 (N.eqb_neq u 304)), (proj2 (N.eqb_neq u 8490)) by lia.
    rewrite lower_latin1_ascii by done. by constructor.
  - assert (Hsrc : Forall (fun v => 128 <= v) [u]).
    { constructor; [lia | constructor]. }
    destruct (u =? 304) eqn:H304; [apply N.eqb_eq in H304 as ->|].
    { apply (lowers_other [304] [105; 775]); try done. right. by left. }
    destruct (u =? 8490) eqn:H8490; [apply N.eqb_eq in H8490 as ->|].
    { apply (lowers_other [8490] [107]); try done. right. by right. }
    apply (lowers_other [u] [lower_latin1 u]); try done.
    left. constructor; [apply lower_latin1_high; lia | constructor].
Qed.

(** A text with a capital dotted I and an emoji between two keywords in
    capitals. *)
Lemma isValidIntro_spec_witness :
  isValidIntro toLowerCase_basic
    (of_string "Who Are You: dev. " ++ [304; 55357; 56395]
       ++ of_string " WHAT DO YOU DO: build stuff. padding!") = true.
Proof.
  apply (proj1 (isValidIntro_spec toLowerCase_basic
                  toLowerCase_basic_lowers _)).
  split; [by vm_compute|]. left.
  exists "who are you"%string, "what do you do"%string.
  split; [done|]. split; [set_solver|]. split; [set_solver|]. split.
  - exists [], (of_string "Who Are You"),
      (of_string ": dev. " ++ [304; 55357; 56395]
         ++ of_string " WHAT DO YOU DO: build stuff. padding!").
    split; [reflexivity|].
    apply Forall2_same_letter. reflexivity.
  - exists (of_string "Who Are You: dev. " ++ [304; 55357; 56395]
              ++ of_string " "),
      (of_string "WHAT DO YOU DO"), (of_string ": build stuff. padding!").
    split; [reflexivity|].
    apply Forall2_same_letter. reflexivity.
Defined.
End IntroFacts.

(** ** Facts about [adminCache.isAdmin] *)

Module AdminCacheFacts.
Import JsMap JsMapFacts JsValue Telegram AdminCache Scenarios.

Lemma resolve_None response :
  resolve response = None
  <-> response = Rejected \/ response = Resolved None.
Proof.
  destruct response as [[member|]|]; simpl; split; try done; auto.
  intros [?|?]; done.
Qed.

(** An entry that is absent or expired stays so as the clock moves on,
    so a call finds no fresh entry and asks the resolver. *)
Lemma isAdmin_miss telegram now now' chatId userId chat user
    (_cache : AdminCache.t) :
  to_integer chatId = Some chat ->
  to_integer userId = Some user ->
  match JsMap.get (chat, user) _cache with
  | Some entry => expires entry <= now
  | None => True
  end ->
  calls (isAdmin telegram now now' chatId userId _cache) = [(chat, user)].
Proof.
  intros Hc Hu Hmiss. unfold isAdmin. rewrite Hc, Hu.
  destruct (JsMap.get (chat, user) _cache) as [entry|].
  - apply Z.ltb_ge in Hmiss. rewrite Hmiss.
    by destruct (resolve _).
  - by destruct (resolve _).
Qed.

Lemma isAdmin_called telegram now now' chatId userId chat user
    (_cache : AdminCache.t) :
  to_integer chatId = Some chat ->
  to_integer userId = Some user ->
  calls (isAdmin telegram now now' chatId userId _cache) <> [] ->
  match JsMap.get (chat, user) _cache with
  | Some entry => expires entry <= now
  | None => True
  end.
Proof.
  intros Hc Hu. unfold isAdmin. rewrite Hc, Hu.
  destruct (JsMap.get (chat, user) _cache) as [entry|]; [|done].
  destruct (now <? expires entry) eqn:Hlt; [done|].
  intros _. by apply Z.ltb_ge.
Qed.

(** C6: with a [chatId] or a [userId] that is not an integer, [isAdmin]
    answers [false], leaves the cache alone and makes no call of
    [getChatMember]. When it does call and the call fails (the promise is
    rejected, or reading the member throws), it answers [false] and leaves
    the cache as it was, so that a later call for the same pair calls
    [getChatMember] again. *)
Theorem isAdmin_validates_and_forgets_failures
    (telegram telegram2 : Telegram.t) (now now' later later' : Z)
    (chatId userId : JsValue.t) (_cache : AdminCache.t) :
  (Number_isInteger chatId = false \/ Number_isInteger userId = false ->
   isAdmin telegram now now' chatId userId _cache
   = {| answer := false; cache := _cache; calls := [] |})
  /\ (forall chat user,
        to_integer chatId = Some chat ->
        to_integer userId = Some user ->
        calls (isAdmin telegram now now' chatId userId _cache) <> [] ->
        telegram chat user = Rejected \/ telegram chat user = Resolved None ->
        now <= later ->
        isAdmin telegram now now' chatId userId _cache
        = {| answer := false; cache := _cache; calls := [(chat, user)] |}
        /\ calls (isAdmin telegram2 later later' chatId userId
                    (cache (isAdmin telegram now now' chatId userId _cache)))
           = [(chat, user)]).
Proof.
  split.
  - unfold Number_isInteger, isAdmin.
    destruct (to_integer chatId), (to_integer userId); intros [?|?]; done.
  - intros chat user Hc Hu Hcalled Hfail Hclock.
    pose proof (isAdmin_called _ _ _ _ _ _ _ _ Hc Hu Hcalled) as Hmiss.
    apply resolve_None in Hfail.
    assert (Hfirst : isAdmin telegram now now' chatId userId _cache
      = {| answer := false; cache := _cache; calls := [(chat, user)] |}).
    { unfold isAdmin. rewrite Hc, Hu, Hfail.
      destruct (JsMap.get (chat, user) _cache) as [entry|]; [|done].
      apply Z.ltb_ge in Hmiss. by rewrite Hmiss. }
    split; [done|]. rewrite Hfirst. simpl.
    apply isAdmin_miss; try done.
    destruct (JsMap.get (chat, user) _cache); [lia | done].
Qed.

Lemma isAdmin_validates_and_forgets_failures_witness :
  isAdmin failing 0 5 (Str "abc") (of_Z 123) JsMap.empty
  = {| answer := false; cache := JsMap.empty; calls := [] |}
  /\ isAdmin failing 0 5 (Num (Finite 3 (-1))) (of_Z 123) JsMap.empty
     = {| answer := false; cache := JsMap.empty; calls := [] |}
  /\ isAdmin failing 0 5 (of_Z (-100123)) (of_Z 456) JsMap.empty
     = {| answer := false; cache := JsMap.empty; calls := [(-100123, 456)] |}
  /\ calls (isAdmin failing 10 15 (of_Z (-100123)) (of_Z 456)
             (cache (isAdmin failing 0 5 (of_Z (-100123)) (of_Z 456)
                       JsMap.empty)))
     = [(-100123, 456)].
Proof.
  split; [|split].
  - apply (isAdmin_validates_and_forgets_failures failing failing 0 5 10 15).
    left. reflexivity.
  - apply (isAdmin_validates_and_forgets_failures failing failing 0 5 10 15).
    left. reflexivity.
  - apply (isAdmin_validates_and_forgets_failures failing failing 0 5 10 15
             (of_Z (-100123)) (of_Z 456) JsMap.empty).
    + reflexivity.
    + reflexivity.
    + simpl. discriminate.
    + left. reflexivity.
    + lia.
Defined.
End AdminCacheFacts.

(** ** Facts about the store *)

Module DbFacts.
Import Db Scenarios.
Local Open Scope string_scope.

Lemma VALID_SETTING_KEYS_spec key :
  existsb (String.eqb key) VALID_SETTING_KEYS = true
  <-> key ∈ VALID_SETTING_KEYS.
Proof.
  rewrite existsb_exists. split.
  - intros (k & Hin & Heq). apply String.eqb_eq in Heq as ->.
    by apply list_elem_of_In.
  - intros Hin. exists key. split; [by apply list_elem_of_In|].
    apply String.eqb_refl.
Qed.

(** C9, as stated, fails for [getSetting]: a key outside the list is
    looked up like any other and the answer is [null], not an error. *)
Lemma getSetting_accepts_unlisted_key :
  ("INVALID_KEY" ∉ VALID_SETTING_KEYS)
  /\ getSetting "INVALID_KEY" initialize = (Ok None, initialize).
Proof.
  split; [|reflexivity].
  intros Hin. apply VALID_SETTING_KEYS_spec in Hin. discriminate.
Qed.

(** C9, amended: [setSetting] accepts the two listed keys only; with any
    other key it throws the invalid-key error and the store is as before.
    [getSetting] checks nothing: for every key it returns what is stored
    under it, or [null], and changes nothing. *)
Theorem setSetting_restricted_getSetting_total (key value : string)
    (db : Db.t) :
  VALID_SETTING_KEYS = ["MAIN_GROUP_ID"; "INTRO_CHANNEL_ID"]
  /\ (key ∉ VALID_SETTING_KEYS ->
      setSetting key value db = (Throw (InvalidSettingKey key), db))
  /\ (key ∈ VALID_SETTING_KEYS ->
      setSetting key value db
      = (Ok tt, {| users := users db;
                   settings := <[key := value]> (settings db) |}))
  /\ getSetting key db = (Ok (settings db !! key), db).
Proof.
  split; [reflexivity|]. unfold setSetting.
  destruct (existsb (String.eqb key) VALID_SETTING_KEYS) eqn:Hv; simpl.
  - apply VALID_SETTING_KEYS_spec in Hv. repeat split; done.
  - assert (key ∉ VALID_SETTING_KEYS) as Hout.
    { intros Hin. apply VALID_SETTING_KEYS_spec in Hin. congruence. }
    repeat split; done.
Qed.

Lemma setSetting_restricted_getSetting_total_witness :
  setSetting "INVALID_KEY" "val" initialize
  = (Throw (InvalidSettingKey "INVALID_KEY"), initialize)
  /\ setSetting "MAIN_GROUP_ID" "-100123456" initialize
     = (Ok tt, {| users := ∅;
                  settings := <["MAIN_GROUP_ID" := "-100123456"]> ∅ |}).
Proof.
  split.
  - apply (setSetting_restricted_getSetting_total
             "INVALID_KEY" "val" initialize).
    intros Hin. apply VALID_SETTING_KEYS_spec in Hin. discriminate.
  - apply (setSetting_restricted_getSetting_total
             "MAIN_GROUP_ID" "-100123456" initialize).
    apply VALID_SETTING_KEYS_spec. reflexivity.
Defined.

(** C10: on a user that has a row, [upsertUser] rewrites [username],
    [first_name] and [updated_at] of that row and nothing else: the
    [introduced] flag, [introduced_at] and [intro_msg_id] (and [user_id]
    and [joined_at]) keep their values, every other row and the settings
    are as before. *)
Theorem upsertUser_keeps_introduction
    (now userId : Z) (username firstName : option string)
    (db : Db.t) (row : UserRow) :
  0 < userId ->
  users db !! userId = Some row ->
  exists db' row',
    upsertUser now userId username firstName db = (Ok tt, db')
    /\ users db' !! userId = Some row'
    /\ introduced row' = introduced row
    /\ introduced_at row' = introduced_at row
    /\ intro_msg_id row' = intro_msg_id row
    /\ user_id row' = user_id row
    /\ joined_at row' = joined_at row
    /\ Db.username row' = truncate 64 username
    /\ first_name row' = truncate 128 firstName
    /\ updated_at row' = Some now
    /\ (forall other, other <> userId -> users db' !! other = users db !! other)
    /\ settings db' = settings db.
Proof.
  intros Hpos Hrow. unfold upsertUser, assertSafeInteger, bind, modify, ret.
  rewrite (proj2 (Z.leb_gt _ _) Hpos). rewrite Hrow.
  eexists _, _. split; [reflexivity|]. simpl. split.
  - apply lookup_insert_eq.
  - repeat split; try done.
    intros other Hne. by apply lookup_insert_ne.
Qed.

Lemma upsertUser_keeps_introduction_witness :
  exists db' row',
    upsertUser 300 1 (Some "alice2") (Some "Alice") introduced_db = (Ok tt, db')
    /\ users db' !! 1 = Some row'
    /\ introduced row' = 1
    /\ introduced_at row' = Some 200
    /\ intro_msg_id row' = Some 42.
Proof.
  assert (Hrow : users introduced_db !! 1 =
    Some {| user_id := 1; username := Some "alice"; first_name := Some "Alice";
            introduced := 1; introduced_at := Some 200; joined_at := Some 100;
            intro_msg_id := Some 42; updated_at := Some 200 |}).
  { vm_compute. reflexivity. }
  destruct (upsertUser_keeps_introduction 300 1 (Some "alice2") (Some "Alice")
              introduced_db _ ltac:(lia) Hrow)
    as (db' & row' & Hrun & Hget & Hi & Hat & Hmsg & _).
  exists db', row'. repeat split; done.
Defined.
End DbFacts.

(** ** Facts about the handlers *)

Module BotFacts.
Import Config Db Bot Scenarios.

(** *** The join handler *)

Lemma upsertUser_ok now userId username firstName (d : Db.t) :
  0 < userId ->
  upsertUser now userId username firstName d
  = (Ok tt,
     {| users :=
          <[userId := upsert_row now userId (truncate 64 username)
                        (truncate 128 firstName) (users d !! userId)]>
            (users d);
        settings := settings d |}).
Proof.
  intros Hpos. unfold upsertUser, assertSafeInteger, bind, modify, ret.
  by rewrite (proj2 (Z.leb_gt _ _) Hpos).
Qed.

Lemma upsert_all_keeps now (ms : list User) : forall d k,
  written_at now d k -> written_at now (upsert_all now ms d) k.
Proof.
  induction ms as [|m ms IH]; intros d k Hk; simpl; [done|].
  destruct (is_bot m); [by apply IH|]. apply IH.
  unfold upsertUser, assertSafeInteger, bind, modify, ret.
  destruct (id m <=? 0); simpl; [done|].
  destruct Hk as (row & Hrow & Hupd). unfold written_at. simpl.
  destruct (decide (id m = k)) as [->|Hne].
  - rewrite lookup_insert_eq, Hrow. eexists. split; [done|]. by simpl.
  - rewrite lookup_insert_ne by done. by exists row.
Qed.

Lemma upsert_all_member now (ms : list User) : forall d m,
  m ∈ ms -> is_bot m = false -> 0 < id m ->
  written_at now (upsert_all now ms d) (id m).
Proof.
  induction ms as [|m' ms IH]; intros d m Hin Hbot Hpos.
  - by apply elem_of_nil in Hin.
  - apply elem_of_cons in Hin as [<-|Hin].
    + cbn [upsert_all]. rewrite Hbot. apply upsert_all_keeps.
      rewrite upsertUser_ok by done. unfold written_at. simpl.
      rewrite lookup_insert_eq. eexists. split; [done|].
      by destruct (users d !! id m) as [row|]; simpl.
    + simpl. by apply IH.
Qed.

(** The loop of the join handler when the event is a mass join. *)
Lemma mass_join_loop now (ms : list User) : forall w,
  Forall (fun m => is_bot m = false -> 0 < id m) ms ->
  for_of ms (fun member =>
    if is_bot member then ret tt
    else bind (on_db (upsertUser now (id member) (username member)
                        (first_name member)))
           (fun _ => ret tt)) w
  = (Ok tt, with_db (upsert_all now ms (db w)) w).
Proof.
  induction ms as [|m ms IH]; intros w Hall; simpl.
  - unfold ret. by destruct w.
  - apply Forall_cons in Hall as [Hm Hall]. unfold bind at 1.
    destruct (is_bot m) eqn:Hbot.
    + unfold ret at 1. by rewrite IH.
    + unfold bind at 1, on_db. rewrite upsertUser_ok by auto.
      unfold ret at 1. by rewrite IH.
Qed.

(** C8: a join event in the main space with more members than
    [MAX_NEW_MEMBERS_PER_EVENT]: [upsertUser] is run for every member that
    is not a bot, so each of them has a row written by this event, and the
    only thing the handler emits is its log line: no reply is sent and the
    welcome limiter is left alone. *)
Theorem mass_join_tracks_all_welcomes_none now (ctx : JoinCtx) (w : World) :
  mainGroupId w = Some (join_chat_id ctx) ->
  MAX_NEW_MEMBERS_PER_EVENT < Z.of_nat (length (new_chat_members ctx)) ->
  Forall (fun m => is_bot m = false -> 0 < id m) (new_chat_members ctx) ->
  exists w',
    welcome now ctx w = (Ok tt, w')
    /\ db w' = upsert_all now (new_chat_members ctx) (db w)
    /\ (forall m, m ∈ new_chat_members ctx -> is_bot m = false ->
                  written_at now (db w') (id m))
    /\ sent w'
       = sent w ++ [ConsoleError (Z.of_nat (length (new_chat_members ctx)))]
    /\ welcomeCooldowns w' = welcomeCooldowns w.
Proof.
  intros Hmain Hmass Hids.
  unfold welcome. unfold bind at 1, gets at 1. rewrite Hmain.
  rewrite bool_decide_eq_true_2 by done.
  apply Z.ltb_lt in Hmass. rewrite Hmass. cbn [negb].
  unfold bind at 1, emit at 1, modify at 1.
  rewrite mass_join_loop by done.
  eexists. split; [reflexivity|]. simpl.
  repeat split; try done.
  intros m Hin Hbot. apply upsert_all_member; try done.
  rewrite Forall_forall in Hids. by apply Hids.
Qed.

(** *** The gatekeeper *)

(** C4: a message in the main space from a sender with a Telegram user
    id. The store is never written. If the sender is a bot, or [isAdmin]
    answers true, or the sender has no row, or the row is introduced, the
    handler only calls [next()]. Otherwise it deletes the message; if the
    reminder limiter reports the sender as limited it does nothing more,
    and if not it touches the limiter and sends the reminder. *)
Theorem gatekeeper_decision now now' (ctx : MessageCtx) (sender : User)
    (w : World) :
  mainGroupId w = Some (chat_id ctx) ->
  from ctx = Some sender ->
  0 < id sender ->
  let out :=
    AdminCache.isAdmin (telegram ctx) now now' (JsValue.of_Z (chat_id ctx))
      (JsValue.of_Z (id sender)) (adminCache w) in
  let asked :=
    map (fun c => GetChatMember c.1 c.2) (AdminCache.calls out) in
  let record := users (db w) !! id sender in
  let limited :=
    fst (CooldownMap.isLimited now' (id sender) (reminderCooldowns w)) in
  exists w',
    gatekeeper now now' ctx w = (Ok tt, w')
    /\ db w' = db w
    /\ (is_bot sender = true -> w' = with_sent (sent w ++ [Next]) w)
    /\ (is_bot sender = false ->
        AdminCache.answer out = true
        \/ record = None
        \/ (exists row, record = Some row /\ introduced row <> 0) ->
        sent w' = sent w ++ asked ++ [Next]
        /\ reminderCooldowns w' = reminderCooldowns w)
    /\ (is_bot sender = false ->
        AdminCache.answer out = false ->
        forall row, record = Some row -> introduced row = 0 ->
        if limited then
          sent w' = sent w ++ asked ++ [DeleteMessage]
          /\ reminderCooldowns w' = reminderCooldowns w
        else
          sent w'
          = sent w ++ asked
              ++ [DeleteMessage;
                  ReplyThenDelete REMINDER_MESSAGE REMINDER_AUTO_DELETE_MS]
          /\ reminderCooldowns w'
             = CooldownMap.touch now' (id sender) (reminderCooldowns w)).
Proof.
  intros Hmain Hfrom Hpos out asked record limited.
  unfold gatekeeper. unfold bind at 1, gets at 1. rewrite Hmain.
  rewrite bool_decide_eq_true_2 by done. cbn [negb]. rewrite Hfrom.
  destruct (is_bot sender) eqn:Hbot.
  { eexists. split; [reflexivity|]. by split_and!. }
  unfold bind at 1, isAdmin at 1. fold out. fold asked.
  destruct (AdminCache.answer out) eqn:Hadmin.
  { eexists. split; [reflexivity|]. simpl. rewrite <- app_assoc.
    by split_and!. }
  unfold bind at 1, on_db at 1, getUser, assertSafeInteger.
  unfold bind at 1. rewrite (proj2 (Z.leb_gt _ _) Hpos).
  unfold ret at 1, gets at 1. cbn [db with_sent with_adminCache with_db].
  fold record.
  destruct record as [row|] eqn:Hrecord.
  2:{ eexists. split; [reflexivity|]. simpl. rewrite <- app_assoc.
      destruct w. by split_and!. }
  destruct (introduced row =? 0) eqn:Hintro; cbn [negb].
  2:{ apply Z.eqb_neq in Hintro.
      eexists. split; [reflexivity|]. simpl. rewrite <- app_assoc.
      destruct w. split_and!; try done.
      by intros _ _ row' [= <-] Hzero. }
  apply Z.eqb_eq in Hintro.
  unfold bind at 1, emit at 1, modify at 1.
  unfold bind at 1, gets at 1.
  cbn [reminderCooldowns with_sent with_adminCache with_db]. fold limited.
  destruct limited eqn:Hlimited.
  - eexists. split; [reflexivity|]. simpl. rewrite <- !app_assoc.
    destruct w. split_and!; try done.
    by intros _ [?|[?|(row' & [= <-] & Hne)]].
  - eexists. split; [reflexivity|]. simpl. rewrite <- !app_assoc.
    destruct w. split_and!; try done.
    by intros _ [?|[?|(row' & [= <-] & Hne)]].
Qed.

Lemma gatekeeper_passes_without_sender now now' (ctx : MessageCtx) (w : World) :
  from ctx = None ->
  gatekeeper now now' ctx w = (Ok tt, with_sent (sent w ++ [Next]) w).
Proof.
  intros Hfrom. unfold gatekeeper, bind, gets. rewrite Hfrom.
  by destruct (negb _).
Qed.

Lemma mass_join_tracks_all_welcomes_none_witness :
  exists w',
    welcome 0 eleven_join (start (Some MAIN_GROUP) (Some INTRO_CHANNEL))
    = (Ok tt, w')
    /\ (forall m, m ∈ new_chat_members eleven_join ->
                  written_at 0 (db w') (id m))
    /\ sent w' = [ConsoleError 11].
Proof.
  assert (Hids : Forall (fun m => is_bot m = false -> 0 < id m)
                   (new_chat_members eleven_join)).
  { vm_compute. repeat constructor. }
  destruct (mass_join_tracks_all_welcomes_none 0 eleven_join
              (start (Some MAIN_GROUP) (Some INTRO_CHANNEL))
              eq_refl eq_refl Hids)
    as (w' & Hrun & _ & Hrows & Hsent & _).
  exists w'. split; [exact Hrun|]. split; [|exact Hsent].
  intros m Hin. apply Hrows; [exact Hin|].
  apply list_elem_of_fmap in Hin as (n & -> & _). reflexivity.
Defined.

Lemma gatekeeper_decision_witness :
  exists w',
    gatekeeper 1000 1001 post_by_42 pending_world = (Ok tt, w')
    /\ sent w'
       = [GetChatMember MAIN_GROUP 42; DeleteMessage;
          ReplyThenDelete REMINDER_MESSAGE REMINDER_AUTO_DELETE_MS]
    /\ fst (CooldownMap.isLimited 1001 42 (reminderCooldowns w')) = true.
Proof.
  destruct (gatekeeper_decision 1000 1001 post_by_42
              {| id := 42; is_bot := false; username := Some "bob"%string;
                 first_name := Some "Bob"%string |}
              pending_world eq_refl eq_refl eq_refl)
    as (w' & Hrun & _ & _ & _ & Hblock).
  pose proof (Hblock eq_refl eq_refl _ eq_refl eq_refl) as [Hsent Hcool].
  exists w'. split; [exact Hrun|]. split; [exact Hsent|].
  rewrite Hcool. reflexivity.
Defined.
End BotFacts.

(** ** The embedding run on cases of the repository's test suites *)

Module SuiteChecks.
Import CooldownMap Intro AdminCache Db Scenarios.
Local Open Scope string_scope.

(** [maxSize] eviction: evicts the oldest entry when at capacity. *)
Example touch_evicts_a :
  let m := run [OpTouch 0 "a"; OpTouch 0 "b"; OpTouch 0 "c"]
             (new' 60000 2 2) in
  size m = 2%Z
  /\ fst (isLimited 0 "a" m) = false
  /\ fst (isLimited 0 "b" m) = true
  /\ fst (isLimited 0 "c" m) = true.
Proof. vm_compute. auto. Qed.

(** count mode: returns true when exceeding the max. *)
Example third_call_exceeds_two :
  fst (increment_all [0; 0; 0]%Z "key" 2 (new 60000)) = [false; false; true].
Proof. reflexivity. Qed.

(** count mode: resets count after the window expires. *)
Example count_resets_after_window :
  fst (increment_all [0; 0; 1001]%Z "key" 1 (new 1000)) = [false; true; false].
Proof. reflexivity. Qed.

(** [_purge]: removes expired count entries on purge tick. *)
Example purge_removes_count_entry :
  size (_purge 2000 (snd (increment 0 "key" 5 (new 1000)))) = 0%Z.
Proof. reflexivity. Qed.

(** intro validation: accepts an intro with two keywords, in any case. *)
Example two_keywords_accepted :
  isValidIntro "who are you: dev. what do you do: build stuff. padding!" = true
  /\ isValidIntro "Who Are You: dev. WHAT DO YOU DO: build stuff. padding!"
     = true.
Proof. vm_compute. auto. Qed.

(** intro validation: rejects an intro with one keyword below 150 units. *)
Example one_keyword_rejected :
  isValidIntro "who are you: I am a developer. padding padding pad!!" = false.
Proof. reflexivity. Qed.

(** caching: one call of the API within the TTL, a second after it. *)
Example admin_answer_cached_for_ttl :
  let admin : Telegram.t :=
    fun _ _ => Telegram.Resolved
                 (Some {| Telegram.status := "administrator" |}) in
  let first := isAdmin admin 0 0 (JsValue.of_Z (-100123)) (JsValue.of_Z 456)
                 JsMap.empty in
  answer first = true
  /\ calls first = [(-100123, 456)%Z]
  /\ calls (isAdmin admin 1000 1000 (JsValue.of_Z (-100123))
              (JsValue.of_Z 456) (cache first)) = []
  /\ calls (isAdmin admin 300001 300001 (JsValue.of_Z (-100123))
              (JsValue.of_Z 456) (cache first)) = [(-100123, 456)%Z].
Proof. vm_compute. auto. Qed.

(** settings: stores and retrieves [MAIN_GROUP_ID]. *)
Example setting_round_trip :
  fst (bind (setSetting "MAIN_GROUP_ID" "-100123456")
         (fun _ => getSetting "MAIN_GROUP_ID") initialize)
  = Ok (Some "-100123456").
Proof. vm_compute. reflexivity. Qed.

(** [resetUser]: clears introduced status, timestamp, and message id. *)
Example reset_clears_introduction :
  users (snd (resetUser 300 1 introduced_db)) !! 1%Z
  = Some {| user_id := 1; username := Some "alice";
            first_name := Some "Alice"; introduced := 0;
            introduced_at := None; joined_at := Some 100%Z;
            intro_msg_id := None; updated_at := Some 300%Z |}.
Proof. vm_compute. reflexivity. Qed.
End SuiteChecks.

(** ** More about [CooldownMap]: capacity, purge, independent keys *)

Module CooldownMapExtra.
Import JsMap JsMapFacts CooldownMap CooldownMapFacts.
Section Extra.
Context {K : Type} `{EqDecision K}.
Implicit Types (self : CooldownMap.t K) (m : JsMap.t K Entry) (key : K).
Implicit Types (now later max : Z) (val : Entry).

Lemma run_touches (touches : list (Z * K)) : forall self,
  run (map (fun p => OpTouch p.1 p.2) touches) self
  = fold_left (fun s p => touch p.1 p.2 s) touches self.
Proof.
  induction touches as [|[now key] touches IH]; intros self; [done|].
  apply IH.
Qed.

(** X1: a cache with a positive [maxSize] that is written by [touch] only
    never holds more than [maxSize] entries, whatever the keys and the
    times of the calls. *)
Theorem touch_only_cache_bounded (touches : list (Z * K)) self :
  0 < _maxSize self ->
  size self <= _maxSize self ->
  size (run (map (fun p => OpTouch p.1 p.2) touches) self) <= _maxSize self.
Proof.
  intros Hpos Hle. rewrite run_touches. revert self Hpos Hle.
  induction touches as [|[now key] touches IH]; intros self Hpos Hle; [done|].
  simpl. change (_maxSize self) with (_maxSize (touch now key self)).
  apply IH; [done|].
  change (_maxSize (touch now key self)) with (_maxSize self).
  by apply size_touch_le.
Qed.

(** X2: [touch] of a key that is not in a full cache removes the entry
    that was inserted first, leaves the others in their order, puts the
    new key last, and the cache is full as before. *)
Theorem touch_full_cache_evicts_first now key self k0 v0 rest :
  wf self ->
  0 < _maxSize self ->
  size self = _maxSize self ->
  _map self = (k0, v0) :: rest ->
  key ∉ JsMap.keys (_map self) ->
  _map (touch now key self) = rest ++ [(key, Timestamp now)]
  /\ size (touch now key self) = _maxSize self
  /\ JsMap.get k0 (_map (touch now key self)) = None
  /\ (forall k, k <> k0 -> k <> key ->
        JsMap.get k (_map (touch now key self)) = JsMap.get k (_map self)).
Proof.
  intros Hwf Hpos Hsize Hm Hnew.
  destruct (touch_evicts_oldest now key self k0 v0 rest Hwf Hpos Hsize Hm Hnew)
    as (Hmap & Hsz & Hgone).
  split_and!; try done.
  intros k Hk0 Hkey. rewrite Hmap, Hm.
  rewrite Hm in Hnew. simpl in Hnew.
  apply not_elem_of_cons in Hnew as [_ Hnew].
  rewrite <- (set_new key (Timestamp now) rest) by done.
  rewrite get_set_ne by done. simpl. by rewrite decide_False.
Qed.

(** Below capacity, or with no capacity set ([maxSize = 0]), [touch]
    evicts nothing: every other key keeps its entry, and the size grows
    by one exactly when the key is new. *)
Theorem touch_below_capacity_keeps_all now key self :
  _maxSize self = 0 \/ size self < _maxSize self ->
  (forall k, k <> key ->
     JsMap.get k (_map (touch now key self)) = JsMap.get k (_map self))
  /\ size (touch now key self)
     = if JsMap.has key (_map self) then size self else size self + 1.
Proof.
  intros Hroom. unfold touch, size in *.
  assert (Hno : negb (_maxSize self =? 0)
                && (_maxSize self <=? JsMap.size (_map self)) = false).
  { destruct Hroom as [->|Hlt]; [done|].
    apply andb_false_iff. right. apply Z.leb_gt. lia. }
  rewrite Hno. simpl. split.
  - intros k Hk. by apply get_set_ne.
  - apply size_set.
Qed.

Lemma get_purge now key self :
  wf self ->
  JsMap.get key (_map (_purge now self))
  = match JsMap.get key (_map self) with
    | Some val => if _windowMs self <? now - anchor val then None else Some val
    | None => None
    end.
Proof.
  intros Hwf. rewrite purge_filter by done.
  rewrite (get_filter (fun v => negb (_windowMs self <? now - anchor v)))
    by done.
  destruct (JsMap.get key (_map self)) as [v|]; [|done].
  by destruct (_ <? _).
Qed.

Lemma purge_with_map now self :
  wf self ->
  _purge now self
  = with_map
      (List.filter (fun kv => negb (_windowMs self <? now - anchor kv.2))
         (_map self)) self.
Proof.
  intros Hwf. pose proof (purge_filter now self Hwf) as Hf.
  unfold _purge in *. simpl in Hf. by rewrite Hf.
Qed.

Lemma hides_purge now self :
  wf self -> _maxSize self = 0 ->
  CooldownMapUse.hides now (_purge now self) self.
Proof.
  intros Hwf Hmax. unfold CooldownMapUse.hides. split_and!; try done.
  - by apply wf_purge.
  - intros key. rewrite get_purge by done.
    destruct (JsMap.get key (_map self)) as [val|]; [|by left].
    destruct (_windowMs self <? now - anchor val) eqn:Hover; [|by left].
    apply Z.ltb_lt in Hover. right. split; [done|]. by exists val.
Qed.

Lemma touch_unbounded now key self :
  _maxSize self = 0 ->
  touch now key self
  = with_map (JsMap.set key (Timestamp now) (_map self)) self.
Proof. intros Hmax. unfold touch. by rewrite Hmax. Qed.

Lemma maxSize_increment now key max self :
  _maxSize (snd (increment now key max self)) = _maxSize self
  /\ _windowMs (snd (increment now key max self)) = _windowMs self.
Proof.
  unfold increment.
  destruct (JsMap.get key (_map self)) as [[ts|c fa]|]; simpl;
    try destruct (_ <? _); done.
Qed.

(** Each call at a time from [now] on gets the same answer from both
    caches and leaves them related as before. *)
Lemma hides_call now (c : CooldownMapUse.Call K) purged kept :
  CooldownMapUse.hides now purged kept ->
  now <= CooldownMapUse.time c ->
  fst (CooldownMapUse.call c purged) = fst (CooldownMapUse.call c kept)
  /\ CooldownMapUse.hides now (snd (CooldownMapUse.call c purged))
       (snd (CooldownMapUse.call c kept)).
Proof.
  intros (Hw & Hmp & Hmk & Hwfp & Hwfk & Hget) Hlater.
  destruct c as [t key|t key|t key max|t]; cbn [CooldownMapUse.time] in Hlater.
  - (* isLimited *)
    cbn [CooldownMapUse.call isLimited fst snd].
    split; [|by unfold CooldownMapUse.hides].
    rewrite Hw. destruct (Hget key) as [->|(-> & val & -> & Hover)]; [done|].
    destruct val as [ts|count fa]; [|done]. cbn [anchor] in Hover.
    f_equal. symmetry. apply Z.ltb_ge. lia.
  - (* touch *)
    cbn [CooldownMapUse.call fst snd]. split; [done|].
    rewrite !touch_unbounded by done. unfold CooldownMapUse.hides.
    split_and!; try done; try (by apply wf_set).
    intros k. cbn [_map with_map].
    destruct (decide (key = k)) as [->|Hne].
    + left. by rewrite !get_set_eq.
    + rewrite !get_set_ne by done. apply Hget.
  - (* increment *)
    assert (Hsame :
      fst (increment t key max purged) = fst (increment t key max kept)
      /\ JsMap.get key (_map (snd (increment t key max purged)))
         = JsMap.get key (_map (snd (increment t key max kept)))).
    { unfold increment. rewrite Hw.
      destruct (Hget key) as [->|(-> & val & -> & Hover)].
      - destruct (JsMap.get key (_map kept)) as [[ts|count fa]|];
          cbn [fst snd _map with_map]; try by rewrite !get_set_eq.
        destruct (_windowMs kept <? t - fa); cbn [fst snd _map with_map];
          by rewrite !get_set_eq.
      - destruct val as [ts|count fa]; cbn [anchor] in Hover;
          cbn [fst snd _map with_map]; try by rewrite !get_set_eq.
        rewrite (proj2 (Z.ltb_lt (_windowMs kept) (t - fa))) by lia.
        cbn [fst snd _map with_map]. by rewrite !get_set_eq. }
    assert (Hother : forall self k, key <> k ->
      JsMap.get k (_map (snd (increment t key max self)))
      = JsMap.get k (_map self)).
    { intros self k Hne. unfold increment.
      destruct (JsMap.get key (_map self)) as [[ts|count fa]|]; simpl;
        try destruct (_ <? _); simpl; by apply get_set_ne. }
    cbn [CooldownMapUse.call].
    destruct (increment t key max purged) as [bp p'] eqn:Hp.
    destruct (increment t key max kept) as [bk k'] eqn:Hk.
    cbn [fst snd] in *. destruct Hsame as [-> Hkey]. split; [done|].
    pose proof (maxSize_increment t key max purged) as [Hm1 Hw1].
    pose proof (maxSize_increment t key max kept) as [Hm2 Hw2].
    pose proof (wf_increment t key max purged Hwfp) as Hwf1.
    pose proof (wf_increment t key max kept Hwfk) as Hwf2.
    pose proof (Hother purged) as Ho1. pose proof (Hother kept) as Ho2.
    rewrite Hp in Hm1, Hw1, Hwf1, Ho1. rewrite Hk in Hm2, Hw2, Hwf2, Ho2.
    cbn [snd] in *. unfold CooldownMapUse.hides.
    split_and!; try congruence; try done.
    intros k. destruct (decide (key = k)) as [<-|Hne]; [by left|].
    rewrite Ho1, Ho2 by done. rewrite Hw2. apply Hget.
  - (* the purge timer *)
    cbn [CooldownMapUse.call fst snd]. split; [done|].
    unfold CooldownMapUse.hides.
    split_and!; try done; try (by apply wf_purge).
    intros key. rewrite !get_purge by done. rewrite Hw.
    change (_windowMs (_purge t kept)) with (_windowMs kept).
    destruct (Hget key) as [->|(-> & val & -> & Hover)]; [by left|].
    left. by rewrite (proj2 (Z.ltb_lt (_windowMs kept) (t - anchor val)))
      by lia.
Qed.

(** X3: on a cache without a size bound ([maxSize = 0], as the bot's
    caches are), [_purge] changes no answer: after a purge at time [now],
    any series of calls of [isLimited], [touch] and [increment] and of
    further purges, each at a time from [now] on, gets the answers it
    would have got without that purge. ([size] is not among them: it
    shrinks.) *)
Theorem purge_is_invisible now (cs : list (CooldownMapUse.Call K)) self :
  wf self ->
  _maxSize self = 0 ->
  Forall (fun c => now <= CooldownMapUse.time c) cs ->
  CooldownMapUse.answers cs (_purge now self)
  = CooldownMapUse.answers cs self.
Proof.
  intros Hwf Hmax Hlater.
  pose proof (hides_purge now self Hwf Hmax) as Hrel.
  revert Hrel. generalize (_purge now self) as purged.
  generalize self as kept.
  induction Hlater as [|c cs Hc Hcs IH]; intros kept purged Hrel; [done|].
  cbn [CooldownMapUse.answers].
  destruct (hides_call now c purged kept Hrel Hc) as [Hanswer Hnext].
  destruct (CooldownMapUse.call c purged) as [ap p'].
  destruct (CooldownMapUse.call c kept) as [ak k'].
  cbn [fst snd] in *. f_equal; [done|]. by apply IH.
Qed.

(** X4: the keys are independent: [increment] on one key leaves the entry
    of every other key as it was, so what [increment] and [isLimited]
    answer for another key does not depend on it. *)
Theorem increment_keys_independent now later key other max max' self :
  key <> other ->
  JsMap.get other (_map (snd (increment now key max self)))
  = JsMap.get other (_map self)
  /\ fst (increment later other max' (snd (increment now key max self)))
     = fst (increment later other max' self)
  /\ fst (isLimited later other (snd (increment now key max self)))
     = fst (isLimited later other self).
Proof.
  intros Hne.
  assert (Hget : JsMap.get other (_map (snd (increment now key max self)))
                 = JsMap.get other (_map self)).
  { unfold increment.
    destruct (JsMap.get key (_map self)) as [[ts|c fa]|]; simpl;
      try destruct (_ <? _); simpl; by apply get_set_ne. }
  assert (Hw : _windowMs (snd (increment now key max self)) = _windowMs self).
  { unfold increment.
    destruct (JsMap.get key (_map self)) as [[ts|c fa]|]; simpl;
      try destruct (_ <? _); done. }
  split; [done|]. unfold isLimited. cbn [fst]. rewrite Hget, Hw.
  split; [|done].
  unfold increment at 1 3. rewrite Hget, Hw.
  destruct (JsMap.get other (_map self)) as [[ts|c fa]|]; try done.
  by destruct (_ <? _).
Qed.

(** Purges compose: a purge at [later] after a purge at an earlier
    time [now] leaves what the purge at [later] alone leaves (so a second
    purge at the same time changes nothing), and a purge never adds an
    entry. *)
Theorem purge_after_purge now later self :
  wf self ->
  now <= later ->
  _purge later (_purge now self) = _purge later self
  /\ size (_purge now self) <= size self.
Proof.
  intros Hwf Hle. split.
  - rewrite (purge_with_map later (_purge now self)) by by apply wf_purge.
    rewrite (purge_with_map later self) by done.
    rewrite (purge_with_map now self) by done.
    unfold with_map. simpl. f_equal.
    rewrite filter_compose. apply filter_ext. intros [k v]. simpl.
    destruct (_windowMs self <? later - anchor v) eqn:Hl; simpl.
    + apply andb_false_r.
    + apply Z.ltb_ge in Hl. rewrite andb_true_r.
      apply negb_true_iff, Z.ltb_ge. lia.
  - rewrite purge_with_map by done. unfold size, JsMap.size. simpl.
    apply Nat2Z.inj_le. apply List.filter_length_le.
Qed.
End Extra.

Local Open Scope string_scope.

Lemma wf_mixed : wf Scenarios.mixed.
Proof. unfold wf, JsMap.wf. apply (bool_decide_unpack _). vm_compute. exact I. Qed.

Lemma touch_only_cache_bounded_witness :
  (size (run (map (fun p => OpTouch p.1 p.2)
                [(0, "a"); (1, "b"); (2, "c")]%Z) (new' 60000 2 2)) <= 2)%Z.
Proof.
  apply (touch_only_cache_bounded [(0, "a"); (1, "b"); (2, "c")]%Z
           (new' 60000 2 2)); simpl; unfold size, JsMap.size; simpl; lia.
Defined.

Lemma touch_full_cache_evicts_first_witness :
  _map (touch 5 "c" (run [OpTouch 0 "a"; OpTouch 1 "b"] (new' 60000 2 2)))
  = [("b", Timestamp 1); ("c", Timestamp 5)].
Proof.
  refine (proj1 (touch_full_cache_evicts_first 5 "c"
            (run [OpTouch 0 "a"; OpTouch 1 "b"] (new' 60000 2 2))
            "a" (Timestamp 0) [("b", Timestamp 1)] _ _ _ _ _)).
  - unfold wf, JsMap.wf. apply (bool_decide_unpack _). vm_compute. exact I.
  - simpl. lia.
  - reflexivity.
  - reflexivity.
  - apply (bool_decide_unpack _). vm_compute. exact I.
Defined.

Lemma touch_below_capacity_keeps_all_witness :
  size (touch 7 "b" (touch 3 "a" (new 1000))) = 2%Z
  /\ JsMap.get "a" (_map (touch 7 "b" (touch 3 "a" (new 1000))))
     = Some (Timestamp 3).
Proof.
  destruct (touch_below_capacity_keeps_all 7 "b" (touch 3 "a" (new 1000)))
    as [Hkeep Hsize]; [left; reflexivity|].
  split; [exact Hsize|]. rewrite Hkeep by discriminate. reflexivity.
Defined.

Lemma purge_is_invisible_witness :
  CooldownMapUse.answers
    [CooldownMapUse.IsLimited 2400 "c"; CooldownMapUse.Increment 2400 "b" 5;
     CooldownMapUse.Touch 2450 "a"; CooldownMapUse.Purge 2700;
     CooldownMapUse.IsLimited 2800 "a"; CooldownMapUse.Increment 2800 "b" 5]
    (_purge 2000 Scenarios.mixed)
  = [Some true; Some false; None; None; Some true; Some false].
Proof.
  rewrite (purge_is_invisible 2000
             [CooldownMapUse.IsLimited 2400 "c";
              CooldownMapUse.Increment 2400 "b" 5;
              CooldownMapUse.Touch 2450 "a"; CooldownMapUse.Purge 2700;
              CooldownMapUse.IsLimited 2800 "a";
              CooldownMapUse.Increment 2800 "b" 5]
             Scenarios.mixed wf_mixed).
  - reflexivity.
  - reflexivity.
  - repeat constructor; by vm_compute.
Defined.

Lemma increment_keys_independent_witness :
  fst (increment 10 "b" 1 (snd (increment 0 "a" 1 (new 60000)))) = false.
Proof.
  assert (Hne : "a" <> "b") by discriminate.
  destruct (increment_keys_independent 0 10 "a" "b" 1 1 (new 60000) Hne)
    as (_ & -> & _). reflexivity.
Defined.

Lemma purge_after_purge_witness :
  _purge 2600 (_purge 2000 Scenarios.mixed) = _purge 2600 Scenarios.mixed.
Proof.
  assert (Hle : (2000 <= 2600)%Z) by lia.
  exact (proj1 (purge_after_purge 2000 2600 Scenarios.mixed wf_mixed Hle)).
Defined.
End CooldownMapExtra.

(** ** More about [JsMap]: deleting while looping *)

Module JsMapExtra.
Import JsMap JsMapFacts.
Section Extra.
Context {K V : Type} `{EqDecision K}.
Implicit Types (m : JsMap.t K V) (key : K) (v : V).

Lemma filter_true (l : list (K * V)) : List.filter (fun _ => true) l = l.
Proof. induction l; simpl; congruence. Qed.

Lemma filter_and (f g : K * V -> bool) (l : list (K * V)) :
  List.filter g (List.filter f l) = List.filter (fun x => f x && g x) l.
Proof.
  induction l as [|x l IH]; simpl; [done|].
  destruct (f x); simpl; [destruct (g x)|]; by rewrite IH.
Qed.

Lemma delete_as_filter key m :
  JsMap.delete key m
  = List.filter (fun kv => negb (bool_decide (kv.1 = key))) m.
Proof.
  induction m as [|[k v] m IH]; simpl; [done|].
  destruct (decide (k = key)) as [->|Hne].
  - by rewrite bool_decide_eq_true_2.
  - rewrite bool_decide_eq_false_2 by done. simpl. by rewrite IH.
Qed.

(** A loop over the entries [l] that deletes from [m] the key of each
    entry that [drop] selects. *)
Lemma fold_delete (drop : V -> bool) (l : list (K * V)) : forall m,
  fold_left
    (fun c (kv : K * V) =>
       let '(key, val) := kv in if drop val then JsMap.delete key c else c)
    l m
  = List.filter
      (fun kv => negb (existsb
         (fun e => drop e.2 && bool_decide (kv.1 = e.1)) l))
      m.
Proof.
  induction l as [|[k v] l IH]; intros m; simpl.
  - by rewrite filter_true.
  - rewrite IH. destruct (drop v); simpl; [|done].
    rewrite delete_as_filter, filter_and.
    apply filter_ext. intros [k' v']. simpl. by rewrite negb_orb.
Qed.

Lemma existsb_drop (drop : V -> bool) m k v :
  JsMap.wf m -> (k, v) ∈ m ->
  existsb (fun e => drop e.2 && bool_decide (k = e.1)) m = drop v.
Proof.
  intros Hwf Hin. apply eq_true_iff_eq. rewrite existsb_exists. split.
  - intros [[k' v'] [Hin' Hb]]. apply andb_prop in Hb as [Hd Hk].
    apply bool_decide_eq_true_1 in Hk. simpl in *. subst k'.
    apply list_elem_of_In in Hin'.
    pose proof (In_get _ _ _ Hwf Hin) as H1.
    pose proof (In_get _ _ _ Hwf Hin') as H2.
    congruence.
  - intros Hd. exists (k, v). split; [by apply list_elem_of_In|].
    simpl. rewrite Hd. simpl. by apply bool_decide_eq_true_2.
Qed.

(** Run over the map itself, the loop keeps the entries not selected. *)
Lemma fold_delete_self (drop : V -> bool) m :
  JsMap.wf m ->
  fold_left
    (fun c (kv : K * V) =>
       let '(key, val) := kv in if drop val then JsMap.delete key c else c)
    m m
  = List.filter (fun kv => negb (drop kv.2)) m.
Proof.
  intros Hwf. rewrite fold_delete.
  apply filter_ext_in. intros [k v] Hin. simpl. f_equal.
  apply existsb_drop; [done | by apply list_elem_of_In].
Qed.

Lemma get_filter_values (keep : V -> bool) key m :
  JsMap.wf m ->
  JsMap.get key (List.filter (fun kv => keep kv.2) m)
  = match JsMap.get key m with
    | Some v => if keep v then Some v else None
    | None => None
    end.
Proof.
  unfold JsMap.wf. induction m as [|[k v] m IH]; simpl; [done|].
  intros Hnd. apply NoDup_cons in Hnd as [Hk Hnd].
  destruct (decide (k = key)) as [->|Hne].
  - destruct (keep v); simpl.
    + by rewrite decide_True.
    + rewrite (IH Hnd). by apply (get_None_keys (V:=V)) in Hk as ->.
  - destruct (keep v); simpl; [rewrite decide_False by done|]; auto.
Qed.

Lemma size_delete_first k v m :
  JsMap.size (JsMap.delete k ((k, v) :: m)) <= JsMap.size m.
Proof. simpl. rewrite decide_True by done. apply size_delete_le. Qed.
End Extra.
End JsMapExtra.

(** ** More about [adminCache]: reuse, refusal, capacity, purge *)

Module AdminCacheExtra.
Import JsMap JsMapFacts JsMapExtra JsValue Telegram AdminCache AdminCacheFacts.
Local Open Scope string_scope.

Lemma wf_evict (c : AdminCache.t) :
  JsMap.wf c ->
  JsMap.wf (if (ADMIN_CACHE_MAX <=? JsMap.size c)%Z then
              match JsMap.first_key c with
              | Some oldest => JsMap.delete oldest c
              | None => c
              end
            else c).
Proof.
  intros Hwf. destruct (_ <=? _)%Z; [|done].
  destruct (first_key c); [by apply wf_delete | done].
Qed.

Lemma size_evict (c : AdminCache.t) :
  (JsMap.size c <= ADMIN_CACHE_MAX)%Z ->
  (JsMap.size
     (if (ADMIN_CACHE_MAX <=? JsMap.size c)%Z then
        match JsMap.first_key c with
        | Some oldest => JsMap.delete oldest c
        | None => c
        end
      else c) < ADMIN_CACHE_MAX)%Z.
Proof.
  intros Hle. destruct (ADMIN_CACHE_MAX <=? JsMap.size c)%Z eqn:Hfull.
  - apply Z.leb_le in Hfull. destruct c as [|[k0 v0] rest].
    + unfold ADMIN_CACHE_MAX, JsMap.size in *. simpl in *. lia.
    + change (first_key ((k0, v0) :: rest)) with (Some k0). cbv beta iota.
      pose proof (size_delete_first k0 v0 rest).
      unfold JsMap.size in *. simpl length in *. lia.
  - by apply Z.leb_gt in Hfull.
Qed.


(** X6: [isAdmin] never answers [true] on its own authority: a [true]
    comes either from an entry of the cache that has not expired and says
    so, or from a member object that Telegram has just returned with the
    status ["creator"] or ["administrator"]. *)
Theorem isAdmin_true_has_evidence
    (telegram : Telegram.t) (now now' : Z) (chatId userId : JsValue.t)
    (_cache : AdminCache.t) :
  answer (isAdmin telegram now now' chatId userId _cache) = true ->
  exists chat user,
    to_integer chatId = Some chat
    /\ to_integer userId = Some user
    /\ ((exists entry,
           JsMap.get (chat, user) _cache = Some entry
           /\ (now < expires entry)%Z /\ isAdmin_ entry = true)
        \/ (exists member,
              telegram chat user = Resolved (Some member)
              /\ (status member = "creator"
                  \/ status member = "administrator"))).
Proof.
  unfold isAdmin.
  destruct (to_integer chatId) as [chat|]; [|done].
  destruct (to_integer userId) as [user|]; [|done].
  intros Hans. exists chat, user. split_and!; try done.
  assert (Hmiss :
    answer
      match resolve (telegram chat user) with
      | Some result =>
          {| answer := result;
             cache := JsMap.set (chat, user)
               {| isAdmin_ := result; expires := (now' + ADMIN_CACHE_MS)%Z |}
               (if (ADMIN_CACHE_MAX <=? JsMap.size _cache)%Z then
                  match JsMap.first_key _cache with
                  | Some oldest => JsMap.delete oldest _cache
                  | None => _cache
                  end
                else _cache);
             calls := [(chat, user)] |}
      | None => {| answer := false; cache := _cache; calls := [(chat, user)] |}
      end = true ->
    exists member,
      telegram chat user = Resolved (Some member)
      /\ (status member = "creator" \/ status member = "administrator")).
  { destruct (telegram chat user) as [[member|]|]; simpl; try done.
    intros Hor. exists member. split; [done|].
    apply orb_true_iff in Hor as [Heq|Heq]; apply String.eqb_eq in Heq; auto. }
  destruct (JsMap.get (chat, user) _cache) as [entry|]; simpl in Hans.
  - destruct (now <? expires entry)%Z eqn:Hfresh.
    + left. exists entry. apply Z.ltb_lt in Hfresh. by split_and!.
    + right. by apply Hmiss.
  - right. by apply Hmiss.
Qed.

(** X7: the cache keeps its bound: a cache of at most [ADMIN_CACHE_MAX]
    entries with distinct keys is, after any call of [isAdmin], again a
    cache of at most [ADMIN_CACHE_MAX] entries with distinct keys. *)
Theorem isAdmin_keeps_capacity
    (telegram : Telegram.t) (now now' : Z) (chatId userId : JsValue.t)
    (_cache : AdminCache.t) :
  JsMap.wf _cache ->
  (JsMap.size _cache <= ADMIN_CACHE_MAX)%Z ->
  JsMap.wf (cache (isAdmin telegram now now' chatId userId _cache))
  /\ (JsMap.size (cache (isAdmin telegram now now' chatId userId _cache))
      <= ADMIN_CACHE_MAX)%Z.
Proof.
  intros Hwf Hle. unfold isAdmin.
  destruct (to_integer chatId) as [chat|]; [|done].
  destruct (to_integer userId) as [user|]; [|done].
  assert (Hmiss : forall o,
    o = match resolve (telegram chat user) with
        | Some result =>
            {| answer := result;
               cache := JsMap.set (chat, user)
                 {| isAdmin_ := result; expires := (now' + ADMIN_CACHE_MS)%Z |}
                 (if (ADMIN_CACHE_MAX <=? JsMap.size _cache)%Z then
                    match JsMap.first_key _cache with
                    | Some oldest => JsMap.delete oldest _cache
                    | None => _cache
                    end
                  else _cache);
               calls := [(chat, user)] |}
        | None =>
            {| answer := false; cache := _cache; calls := [(chat, user)] |}
        end ->
    JsMap.wf (cache o) /\ (JsMap.size (cache o) <= ADMIN_CACHE_MAX)%Z).
  { intros o ->. destruct (resolve _); [|done]. cbn [cache]. split.
    - apply wf_set. by apply wf_evict.
    - rewrite size_set. pose proof (size_evict _cache Hle).
      destruct (has _ _); lia. }
  destruct (JsMap.get (chat, user) _cache) as [entry|]; simpl.
  - destruct (now <? expires entry)%Z; [done|]. by apply Hmiss.
  - by apply Hmiss.
Qed.

Lemma purge_as_filter now (_cache : AdminCache.t) :
  JsMap.wf _cache ->
  purge now _cache
  = List.filter (fun kv => negb (expires kv.2 <=? now)%Z) _cache.
Proof.
  intros Hwf.
  exact (fold_delete_self (fun entry => (expires entry <=? now)%Z) _cache Hwf).
Qed.

(** A call from [now] on, on caches with room for one more entry, gets
    the same answer and makes the same calls on both, and leaves them
    related as before, each with at most one entry more. *)
Lemma hides_lookup now (l : AdminCacheUse.Lookup) (purged kept : AdminCache.t) :
  AdminCacheUse.hides now purged kept ->
  (now <= AdminCacheUse.asked_at l)%Z ->
  (JsMap.size purged < ADMIN_CACHE_MAX)%Z ->
  (JsMap.size kept < ADMIN_CACHE_MAX)%Z ->
  answer (AdminCacheUse.lookup l purged) = answer (AdminCacheUse.lookup l kept)
  /\ calls (AdminCacheUse.lookup l purged)
     = calls (AdminCacheUse.lookup l kept)
  /\ AdminCacheUse.hides now (cache (AdminCacheUse.lookup l purged))
       (cache (AdminCacheUse.lookup l kept))
  /\ (JsMap.size (cache (AdminCacheUse.lookup l purged))
      <= JsMap.size purged + 1)%Z
  /\ (JsMap.size (cache (AdminCacheUse.lookup l kept))
      <= JsMap.size kept + 1)%Z.
Proof.
  intros Hrel Hlater Hp Hk.
  destruct l as [telegram asked settled chatId userId].
  unfold AdminCacheUse.lookup.
  cbn [AdminCacheUse.telegram AdminCacheUse.asked_at AdminCacheUse.settled_at
       AdminCacheUse.chatId AdminCacheUse.userId] in *.
  unfold isAdmin.
  destruct (to_integer chatId) as [chat|];
    [|cbn [answer calls cache]; split_and!; try done; lia].
  destruct (to_integer userId) as [user|];
    [|cbn [answer calls cache]; split_and!; try done; lia].
  cbv zeta.
  rewrite (proj2 (Z.leb_gt ADMIN_CACHE_MAX (JsMap.size purged))) by done.
  rewrite (proj2 (Z.leb_gt ADMIN_CACHE_MAX (JsMap.size kept))) by done.
  assert (Hset : forall entry,
    AdminCacheUse.hides now (JsMap.set (chat, user) entry purged)
      (JsMap.set (chat, user) entry kept)).
  { intros entry key. destruct (decide ((chat, user) = key)) as [<-|Hne].
    - left. by rewrite !get_set_eq.
    - rewrite !get_set_ne by done. apply Hrel. }
  assert (Hsize : forall entry (c : AdminCache.t),
    (JsMap.size (JsMap.set (chat, user) entry c) <= JsMap.size c + 1)%Z).
  { intros entry c. rewrite size_set. destruct (JsMap.has _ _); lia. }
  assert (Hmiss : forall c : AdminCache.t,
    let out :=
      match resolve (telegram chat user) with
      | Some result =>
          {| answer := result;
             cache := JsMap.set (chat, user)
                        {| isAdmin_ := result;
                           expires := (settled + ADMIN_CACHE_MS)%Z |} c;
             calls := [(chat, user)] |}
      | None => {| answer := false; cache := c; calls := [(chat, user)] |}
      end in
    (JsMap.size (cache out) <= JsMap.size c + 1)%Z).
  { intros c. destruct (resolve _); cbn [cache]; [apply Hsize | lia]. }
  destruct (Hrel (chat, user)) as [->|(-> & entry & -> & Hexpired)].
  - destruct (JsMap.get (chat, user) kept) as [entry|].
    + destruct (asked <? expires entry)%Z.
      * cbn [answer calls cache]. split_and!; try done; lia.
      * split_and!; try apply Hmiss; destruct (resolve _);
          cbn [answer calls cache]; try done; try apply Hset.
    + split_and!; try apply Hmiss; destruct (resolve _);
        cbn [answer calls cache]; try done; try apply Hset.
  - rewrite (proj2 (Z.ltb_ge asked (expires entry))) by lia.
    split_and!; try apply Hmiss; destruct (resolve _);
      cbn [answer calls cache]; try done; try apply Hset.
Qed.

(** X8: the periodic purge of the admin cache removes exactly the entries
    with [now >= expires] and keeps the others in their order. As long as
    the cache does not fill up (its size and the number of calls together
    stay within [ADMIN_CACHE_MAX]), a purge at [now] changes nothing for
    the callers: any series of calls of [isAdmin] from [now] on gets the
    same answers and makes the same calls of [getChatMember] as without
    the purge. *)
Theorem purge_removes_expired_admin_entries
    (now : Z) (ls : list AdminCacheUse.Lookup) (_cache : AdminCache.t) :
  JsMap.wf _cache ->
  Forall (fun l => now <= AdminCacheUse.asked_at l)%Z ls ->
  (JsMap.size _cache + Z.of_nat (length ls) <= ADMIN_CACHE_MAX)%Z ->
  purge now _cache
  = List.filter (fun kv => negb (expires kv.2 <=? now)%Z) _cache
  /\ (forall key,
        JsMap.get key (purge now _cache)
        = match JsMap.get key _cache with
          | Some entry =>
              if (expires entry <=? now)%Z then None else Some entry
          | None => None
          end)
  /\ AdminCacheUse.lookups ls (purge now _cache)
     = AdminCacheUse.lookups ls _cache.
Proof.
  intros Hwf Hlater Hroom.
  assert (Hget : forall key,
    JsMap.get key (purge now _cache)
    = match JsMap.get key _cache with
      | Some entry => if (expires entry <=? now)%Z then None else Some entry
      | None => None
      end).
  { intros key. rewrite purge_as_filter by done.
    rewrite (get_filter_values (fun e => negb (expires e <=? now)%Z)) by done.
    destruct (JsMap.get key _cache) as [entry|]; [|done].
    by destruct (_ <=? _)%Z. }
  split; [by apply purge_as_filter|]. split; [exact Hget|].
  assert (Hrel : AdminCacheUse.hides now (purge now _cache) _cache).
  { intros key. rewrite Hget.
    destruct (JsMap.get key _cache) as [entry|]; [|by left].
    destruct (expires entry <=? now)%Z eqn:Hexp; [|by left].
    apply Z.leb_le in Hexp. right. split; [done|]. by exists entry. }
  assert (Hroom' :
    (JsMap.size (purge now _cache) + Z.of_nat (length ls)
     <= ADMIN_CACHE_MAX)%Z).
  { rewrite purge_as_filter by done. unfold JsMap.size in *.
    pose proof (List.filter_length_le
                  (fun kv : Z * Z * CacheEntry =>
                     negb (expires kv.2 <=? now)%Z) _cache).
    lia. }
  clear Hwf Hget. revert Hrel Hroom Hroom'.
  generalize (purge now _cache) as purged. generalize _cache as kept.
  induction Hlater as [|l ls Hl Hls IH]; intros kept purged Hrel Hk Hp;
    [done|].
  cbn [length] in Hk, Hp. cbn [AdminCacheUse.lookups].
  destruct (hides_lookup now l purged kept Hrel Hl)
    as (Hanswer & Hcalls & Hnext & Hp' & Hk'); [lia | lia |].
  rewrite Hanswer, Hcalls. f_equal. apply IH; [done | lia | lia].
Qed.


Lemma isAdmin_true_has_evidence_witness :
  exists member,
    (fun _ _ => Resolved (Some {| status := "creator" |})) (-100123)%Z 456%Z
    = Resolved (Some member)
    /\ (status member = "creator" \/ status member = "administrator").
Proof.
  destruct (isAdmin_true_has_evidence
              (fun _ _ => Resolved (Some {| status := "creator" |})) 0 5
              (of_Z (-100123)) (of_Z 456) JsMap.empty eq_refl)
    as (chat & user & Hc & Hu & [(entry & Hget & _)|Hres]).
  - discriminate Hget.
  - injection Hc as <-. injection Hu as <-. exact Hres.
Defined.

Lemma isAdmin_keeps_capacity_witness :
  (JsMap.size (cache (isAdmin Scenarios.plain_member 0 5 (of_Z (-100123))
                        (of_Z 456) JsMap.empty)) <= ADMIN_CACHE_MAX)%Z.
Proof.
  refine (proj2 (isAdmin_keeps_capacity Scenarios.plain_member 0 5
            (of_Z (-100123)) (of_Z 456) JsMap.empty _ _)).
  - apply NoDup_nil_2.
  - unfold ADMIN_CACHE_MAX, JsMap.size. simpl. lia.
Defined.

Lemma purge_removes_expired_admin_entries_witness :
  AdminCacheUse.lookups
    [ {| AdminCacheUse.telegram := Scenarios.failing;
         AdminCacheUse.asked_at := 300006;
         AdminCacheUse.settled_at := 300007;
         AdminCacheUse.chatId := of_Z (-100123);
         AdminCacheUse.userId := of_Z 456 |};
      {| AdminCacheUse.telegram := Scenarios.plain_member;
         AdminCacheUse.asked_at := 300010;
         AdminCacheUse.settled_at := 300011;
         AdminCacheUse.chatId := of_Z (-100123);
         AdminCacheUse.userId := of_Z 456 |};
      {| AdminCacheUse.telegram := Scenarios.failing;
         AdminCacheUse.asked_at := 300020;
         AdminCacheUse.settled_at := 300021;
         AdminCacheUse.chatId := of_Z (-100123);
         AdminCacheUse.userId := of_Z 456 |} ]
    (purge 300005
       (cache (isAdmin Scenarios.plain_member 0 5 (of_Z (-100123))
                 (of_Z 456) JsMap.empty)))
  = [ (false, [(-100123, 456)%Z]); (false, [(-100123, 456)%Z]);
      (false, []) ].
Proof.
  refine (eq_trans (proj2 (proj2 (purge_removes_expired_admin_entries
            300005 _
            (cache (isAdmin Scenarios.plain_member 0 5 (of_Z (-100123))
                      (of_Z 456) JsMap.empty)) _ _ _))) _).
  - unfold JsMap.wf. apply (bool_decide_unpack _). vm_compute. exact I.
  - repeat constructor; by vm_compute.
  - by vm_compute.
  - reflexivity.
Defined.
End AdminCacheExtra.

(** ** More about the store: validation, invariant, round trips *)

Module DbExtra.
Import Db DbSpec.

Lemma db_eta (db : Db.t) : {| users := users db; settings := settings db |} = db.
Proof. by destruct db. Qed.

Lemma alter_absent {A} (f : A -> A) (k : Z) (m : gmap Z A) :
  m !! k = None -> alter f k m = m.
Proof.
  intros Hnone. apply map_eq. intros i. rewrite lookup_alter.
  case_decide; [|done]. subst. by rewrite Hnone.
Qed.

(** X9: the operations on users refuse an id that is not positive: they
    throw the invalid-integer error for [userId] and leave the store as it
    was; [markIntroduced] does the same for a message id that is given and
    not positive. *)
Theorem user_operations_reject_bad_ids
    (now userId : Z) (username firstName : option string) (msgId : option Z)
    (db : Db.t) :
  (userId <= 0 ->
   getUser userId db = (Throw (InvalidInteger "userId"%string userId), db)
   /\ upsertUser now userId username firstName db
      = (Throw (InvalidInteger "userId"%string userId), db)
   /\ markIntroduced now userId msgId db
      = (Throw (InvalidInteger "userId"%string userId), db)
   /\ resetUser now userId db
      = (Throw (InvalidInteger "userId"%string userId), db))
  /\ (forall m, 0 < userId -> m <= 0 ->
        markIntroduced now userId (Some m) db
        = (Throw (InvalidInteger "msgId"%string m), db)).
Proof.
  split.
  - intros Hbad. apply Z.leb_le in Hbad.
    unfold getUser, upsertUser, markIntroduced, resetUser, assertSafeInteger,
      bind, throw.
    rewrite Hbad. by split_and!.
  - intros m Hpos Hbad. apply Z.leb_gt in Hpos. apply Z.leb_le in Hbad.
    unfold markIntroduced, assertSafeInteger, bind, throw, ret.
    by rewrite Hpos, Hbad.
Qed.

Lemma consistent_insert (db : Db.t) userId row :
  consistent db -> row_ok userId row ->
  consistent {| users := <[userId := row]> (users db);
                settings := settings db |}.
Proof.
  intros Hdb Hrow k r. simpl. rewrite lookup_insert.
  case_decide as Hk; [intros [= <-]; by subst | apply Hdb].
Qed.

Lemma consistent_alter (db : Db.t) userId (f : UserRow -> UserRow) :
  consistent db ->
  (forall row, users db !! userId = Some row -> row_ok userId (f row)) ->
  consistent {| users := alter f userId (users db);
                settings := settings db |}.
Proof.
  intros Hdb Hf k r. simpl. rewrite lookup_alter.
  case_decide as Hk; [|apply Hdb]. subst k.
  destruct (users db !! userId) as [row|] eqn:Hrow; simpl; [|done].
  intros [= <-]. by apply Hf.
Qed.

(** X10: the operations keep the users table consistent: starting from the
    empty tables, and after [upsertUser], [markIntroduced] or [resetUser]
    with any arguments (accepted or refused), every row sits under its
    positive id, has the flag 0 or 1, and carries an introduction time
    and message only if it is introduced. *)
Theorem operations_keep_rows_consistent
    (now userId : Z) (username firstName : option string) (msgId : option Z)
    (db : Db.t) :
  consistent db ->
  consistent initialize
  /\ consistent (snd (upsertUser now userId username firstName db))
  /\ consistent (snd (markIntroduced now userId msgId db))
  /\ consistent (snd (resetUser now userId db)).
Proof.
  intros Hdb. split; [intros k r; simpl; by rewrite lookup_empty|].
  unfold upsertUser, markIntroduced, resetUser, assertSafeInteger, bind,
    throw, ret, modify.
  destruct (userId <=? 0) eqn:Hid; [by split_and!|].
  apply Z.leb_gt in Hid. simpl. split_and!.
  - apply consistent_insert; [done|].
    destruct (users db !! userId) as [row|] eqn:Hrow; simpl.
    + destruct (Hdb _ _ Hrow) as (? & ? & ? & ? & ?). by split_and!.
    + unfold row_ok. simpl. split_and!; try done; auto.
  - destruct msgId as [m|]; [destruct (m <=? 0); [done|]|]; simpl;
      (apply consistent_alter; [done|]; intros row Hrow;
       destruct (Hdb _ _ Hrow) as (? & ? & ? & ? & ?);
       unfold row_ok; simpl; split_and!; try done; auto).
  - apply consistent_alter; [done|]. intros row Hrow.
    destruct (Hdb _ _ Hrow) as (? & ? & ? & ? & ?).
    unfold row_ok. simpl. split_and!; try done; auto.
Qed.

(** X11: [markIntroduced] and [resetUser] on a user that has no row
    succeed and change nothing: no row is created and no error is
    raised. *)
Theorem mark_and_reset_ignore_unknown_users
    (now userId : Z) (msgId : option Z) (db : Db.t) :
  0 < userId ->
  (forall m, msgId = Some m -> 0 < m) ->
  users db !! userId = None ->
  markIntroduced now userId msgId db = (Ok tt, db)
  /\ resetUser now userId db = (Ok tt, db).
Proof.
  intros Hpos Hmsg Hnone. apply Z.leb_gt in Hpos.
  unfold markIntroduced, resetUser, assertSafeInteger, bind, modify, ret.
  rewrite Hpos. split.
  - destruct msgId as [m|].
    + rewrite (proj2 (Z.leb_gt m 0)) by by apply Hmsg.
      by rewrite alter_absent, db_eta.
    + by rewrite alter_absent, db_eta.
  - by rewrite alter_absent, db_eta.
Qed.

(** A user who is new to the store is created pending: after
    [upsertUser], [getUser] returns a row with the flag 0, no
    introduction time or message, and [joined_at] set to the time of the
    call; the rows of the other users and the settings are as before. *)
Theorem upsertUser_then_getUser_new
    (now userId : Z) (username firstName : option string) (db : Db.t) :
  0 < userId ->
  users db !! userId = None ->
  exists db',
    bind (upsertUser now userId username firstName)
      (fun _ => getUser userId) db
    = (Ok (Some {| user_id := userId;
                   Db.username := truncate 64 username;
                   first_name := truncate 128 firstName;
                   introduced := 0;
                   introduced_at := None;
                   joined_at := Some now;
                   intro_msg_id := None;
                   updated_at := Some now |}), db')
    /\ (forall other, other <> userId ->
          users db' !! other = users db !! other)
    /\ settings db' = settings db.
Proof.
  intros Hpos Hnone. apply Z.leb_gt in Hpos.
  unfold upsertUser, getUser, assertSafeInteger, bind, modify, ret, gets.
  rewrite Hpos, Hnone. cbn [users settings upsert_row].
  eexists. split.
  - apply (f_equal2 pair); [|reflexivity]. f_equal. apply lookup_insert_eq.
  - simpl. split; [|done]. intros other Hne. by apply lookup_insert_ne.
Qed.

(** X12: [resetUser] undoes [markIntroduced]: on a pending row,
    [markIntroduced] sets the flag, the time and the message id, and a
    following [resetUser] gives back the row as it was, but for
    [updated_at]. *)
Theorem resetUser_undoes_markIntroduced
    (t1 t2 userId : Z) (msgId : option Z) (db : Db.t) (row : UserRow) :
  0 < userId ->
  (forall m, msgId = Some m -> 0 < m) ->
  users db !! userId = Some row ->
  introduced row = 0 ->
  introduced_at row = None ->
  intro_msg_id row = None ->
  exists db1 db2,
    markIntroduced t1 userId msgId db = (Ok tt, db1)
    /\ users db1 !! userId
       = Some {| user_id := user_id row; username := username row;
                 first_name := first_name row; introduced := 1;
                 introduced_at := Some t1; joined_at := joined_at row;
                 intro_msg_id := msgId; updated_at := Some t1 |}
    /\ resetUser t2 userId db1 = (Ok tt, db2)
    /\ users db2 !! userId
       = Some {| user_id := user_id row; username := username row;
                 first_name := first_name row; introduced := introduced row;
                 introduced_at := introduced_at row;
                 joined_at := joined_at row;
                 intro_msg_id := intro_msg_id row; updated_at := Some t2 |}
    /\ (forall other, other <> userId ->
          users db2 !! other = users db !! other).
Proof.
  intros Hpos Hmsg Hrow Hi Hat Hm. apply Z.leb_gt in Hpos.
  assert (Hmark : markIntroduced t1 userId msgId db
    = (Ok tt,
       {| users :=
            alter (fun row =>
              {| user_id := user_id row; username := username row;
                 first_name := first_name row; introduced := 1;
                 introduced_at := Some t1; joined_at := joined_at row;
                 intro_msg_id := msgId; updated_at := Some t1 |})
              userId (users db);
          settings := settings db |})).
  { unfold markIntroduced, assertSafeInteger, bind, modify, ret.
    rewrite Hpos. destruct msgId as [m|]; [|done].
    by rewrite (proj2 (Z.leb_gt m 0)) by by apply Hmsg. }
  eexists _, _. split; [exact Hmark|]. simpl.
  split; [by rewrite lookup_alter_eq, Hrow|].
  unfold resetUser, assertSafeInteger, bind, modify, ret. rewrite Hpos.
  split; [reflexivity|]. simpl. split.
  - rewrite !lookup_alter_eq, Hrow. simpl. by rewrite Hi, Hat, Hm.
  - intros other Hne. by rewrite !lookup_alter_ne.
Qed.

(** Settings round trip: a value stored under a listed key is what
    [getSetting] returns for that key afterwards (a later [setSetting]
    replaces it); the other keys and the users table are not
    affected. *)
Theorem setSetting_then_getSetting (key key' value value' : string)
    (db : Db.t) :
  key ∈ VALID_SETTING_KEYS ->
  exists db1 db2,
    setSetting key value db = (Ok tt, db1)
    /\ getSetting key db1 = (Ok (Some value), db1)
    /\ (key' <> key -> fst (getSetting key' db1) = fst (getSetting key' db))
    /\ users db1 = users db
    /\ setSetting key value' db1 = (Ok tt, db2)
    /\ getSetting key db2 = (Ok (Some value'), db2).
Proof.
  intros Hvalid. apply DbFacts.VALID_SETTING_KEYS_spec in Hvalid.
  unfold setSetting, getSetting, modify, gets. rewrite Hvalid. cbn [negb].
  eexists _, _. split; [reflexivity|]. cbn [settings users fst].
  split_and!; try done.
  - do 2 f_equal. apply lookup_insert_eq.
  - intros Hne. f_equal. by apply lookup_insert_ne.
  - do 2 f_equal. apply lookup_insert_eq.
Qed.

Lemma slice0_cut (n : nat) : forall s,
  exists rest,
    s = JsString.slice0 n s +:+ rest
    /\ (String.length (JsString.slice0 n s) <= n)%nat
    /\ ((String.length s <= n)%nat -> JsString.slice0 n s = s).
Proof.
  induction n as [|n IH]; intros s.
  - exists s. simpl. split_and!; try done.
    intros Hlen. destruct s; [done | simpl in Hlen; lia].
  - destruct s as [|c s]; simpl.
    + exists EmptyString. split_and!; try done. lia.
    + destruct (IH s) as (rest & Heq & Hlen & Hshort). exists rest.
      simpl. split_and!.
      * exact (f_equal (String c) Heq).
      * lia.
      * intros Hle. rewrite Hshort; [done | lia].
Qed.

Lemma truncate_cut_at (n : nat) (given : option string) :
  cut_at n given (truncate n given).
Proof.
  unfold cut_at, truncate. destruct given as [[|c s]|]; try done.
  destruct (slice0_cut n (String c s)) as (rest & Heq & Hlen & Hshort).
  by exists (JsString.slice0 n (String c s)), rest.
Qed.

(** X13: for a user id that SQLite can store (positive and at most
    [MAX_ROWID]), [upsertUser] stores at most the first 64 code units of
    the username and the first 128 of the first name (the whole name when
    it is not longer), and stores [null] for a name that is missing or
    empty, for a new user and for a known one. *)
Theorem upsertUser_cuts_names
    (now userId : Z) (username firstName : option string) (db : Db.t) :
  0 < userId ->
  userId <= MAX_ROWID ->
  exists row,
    users (snd (upsertUser now userId username firstName db)) !! userId
    = Some row
    /\ cut_at 64 username (Db.username row)
    /\ cut_at 128 firstName (first_name row).
Proof.
  intros Hpos _. apply Z.leb_gt in Hpos.
  unfold upsertUser, assertSafeInteger, bind, modify, ret. rewrite Hpos.
  simpl. rewrite lookup_insert_eq. eexists. split; [done|].
  destruct (users db !! userId); simpl; split; apply truncate_cut_at.
Qed.

Lemma operations_keep_rows_consistent_witness :
  consistent
    (snd (upsertUser 100 1 (Some "alice"%string) (Some "Alice"%string)
            initialize)).
Proof.
  refine (proj1 (proj2 (operations_keep_rows_consistent 100 1
            (Some "alice"%string) (Some "Alice"%string) None initialize _))).
  intros k r Hk. vm_compute in Hk. discriminate Hk.
Defined.

Lemma mark_and_reset_ignore_unknown_users_witness :
  markIntroduced 5 7 (Some 3) initialize = (Ok tt, initialize)
  /\ resetUser 5 7 initialize = (Ok tt, initialize).
Proof.
  apply (mark_and_reset_ignore_unknown_users 5 7 (Some 3) initialize).
  - lia.
  - intros m [= <-]. lia.
  - reflexivity.
Defined.

Lemma upsertUser_then_getUser_new_witness :
  exists db',
    bind (upsertUser 100 1 (Some "alice"%string) None)
      (fun _ => getUser 1) initialize
    = (Ok (Some {| user_id := 1; username := Some "alice"%string;
                   first_name := None; introduced := 0;
                   introduced_at := None; joined_at := Some 100;
                   intro_msg_id := None; updated_at := Some 100 |}), db').
Proof.
  destruct (upsertUser_then_getUser_new 100 1 (Some "alice"%string) None
              initialize ltac:(lia) eq_refl) as (db' & Hrun & _).
  exists db'. exact Hrun.
Defined.

Lemma resetUser_undoes_markIntroduced_witness :
  exists db1 db2,
    markIntroduced 200 1 (Some 42)
      (snd (upsertUser 100 1 (Some "alice"%string) None initialize))
    = (Ok tt, db1)
    /\ resetUser 300 1 db1 = (Ok tt, db2)
    /\ users db2 !! 1
       = Some {| user_id := 1; username := Some "alice"%string;
                 first_name := None; introduced := 0;
                 introduced_at := None; joined_at := Some 100;
                 intro_msg_id := None; updated_at := Some 300 |}.
Proof.
  destruct (resetUser_undoes_markIntroduced 200 300 1 (Some 42)
              (snd (upsertUser 100 1 (Some "alice"%string) None initialize))
              {| user_id := 1; username := Some "alice"%string;
                 first_name := None; introduced := 0;
                 introduced_at := None; joined_at := Some 100;
                 intro_msg_id := None; updated_at := Some 100 |})
    as (db1 & db2 & Hmark & _ & Hreset & Hrow & _).
  - lia.
  - intros m [= <-]. lia.
  - vm_compute. reflexivity.
  - reflexivity.
  - reflexivity.
  - reflexivity.
  - exists db1, db2. split; [exact Hmark|]. split; [exact Hreset|exact Hrow].
Defined.

Lemma setSetting_then_getSetting_witness :
  exists db1,
    setSetting "MAIN_GROUP_ID" "-100111" initialize = (Ok tt, db1)
    /\ getSetting "MAIN_GROUP_ID" db1 = (Ok (Some "-100111"%string), db1).
Proof.
  destruct (setSetting_then_getSetting "MAIN_GROUP_ID" "INTRO_CHANNEL_ID"
              "-100111" "-100222" initialize)
    as (db1 & db2 & Hset & Hget & _).
  - constructor.
  - exists db1. split; [exact Hset | exact Hget].
Defined.

Lemma upsertUser_cuts_names_witness :
  exists row,
    users (snd (upsertUser 100 1 (Some "alice"%string) (Some ""%string)
                  initialize)) !! 1
    = Some row
    /\ cut_at 64 (Some "alice"%string) (Db.username row)
    /\ cut_at 128 (Some ""%string) (first_name row).
Proof.
  apply (upsertUser_cuts_names 100 1 (Some "alice"%string) (Some ""%string)
           initialize).
  - lia.
  - by vm_compute.
Defined.

Lemma user_operations_reject_bad_ids_witness :
  getUser 0 initialize
  = (Throw (InvalidInteger "userId"%string 0), initialize)
  /\ markIntroduced 5 1 (Some (-3)) initialize
     = (Throw (InvalidInteger "msgId"%string (-3)), initialize).
Proof.
  split.
  - apply (proj1 (user_operations_reject_bad_ids 5 0 None None None
                    initialize)). lia.
  - apply (proj2 (user_operations_reject_bad_ids 5 1 None None None
                    initialize)); lia.
Defined.
End DbExtra.

(** ** Facts about [sanitizeName] *)

Module SanitizeFacts.
Import JsString Sanitize.
Local Open Scope string_scope.

Lemma markup_free_strip s : markup_free (strip s).
Proof.
  unfold markup_free. induction s as [|c s IH]; simpl; [constructor|].
  destruct (markup_unit c) eqn:Hc; [done|]. simpl. by constructor.
Qed.

Lemma markup_free_trimStart s : markup_free s -> markup_free (trimStart s).
Proof.
  unfold markup_free. induction s as [|c s IH]; simpl; [done|].
  intros Hall. destruct (white_unit c); [|done].
  apply IH. by apply Forall_cons in Hall as [_ ?].
Qed.

Lemma markup_free_trimEnd s : markup_free s -> markup_free (trimEnd s).
Proof.
  unfold markup_free. induction s as [|c s IH]; simpl; [done|].
  intros Hall. apply Forall_cons in Hall as [Hc Hall].
  specialize (IH Hall). destruct (trimEnd s) as [|d rest].
  - destruct (white_unit c); simpl; [constructor | by constructor].
  - simpl. by constructor.
Qed.

Lemma markup_free_slice0 n : forall s,
  markup_free s -> markup_free (slice0 n s).
Proof.
  unfold markup_free. induction n as [|n IH]; intros s Hall; simpl.
  - constructor.
  - destruct s as [|c s]; simpl; [constructor|].
    apply Forall_cons in Hall as [Hc Hall]. constructor; [done | by apply IH].
Qed.

Lemma length_slice0 n : forall s, (String.length (slice0 n s) <= n)%nat.
Proof.
  induction n as [|n IH]; intros s; simpl; [lia|].
  destruct s as [|c s]; simpl; [lia|]. specialize (IH s). lia.
Qed.

(** Every character written out in [markup_characters] is in the class
    that [strip] removes. *)
Lemma markup_characters_removed c :
  c ∈ markup_characters -> markup_unit c = true.
Proof.
  unfold markup_characters. intros Hc.
  repeat (apply elem_of_cons in Hc as [->|Hc]; [reflexivity|]).
  by apply elem_of_nil in Hc.
Qed.

(** And [strip] removes no other character. *)
Lemma markup_unit_listed c :
  markup_unit c = true -> c ∈ markup_characters.
Proof.
  unfold markup_unit, markup_characters. intros Hc.
  apply existsb_exists in Hc as (n & Hn & Heq).
  apply N.eqb_eq in Heq. rewrite <- (ascii_N_embedding c), Heq.
  repeat (destruct Hn as [<-|Hn]; [set_solver|]). destruct Hn.
Qed.

Lemma markup_free_free_of s : markup_free s -> free_of markup_characters s.
Proof.
  unfold markup_free. intros Hfree c Hc Hin.
  rewrite Forall_forall in Hfree. specialize (Hfree c Hin).
  by rewrite (markup_characters_removed c Hc) in Hfree.
Qed.

(** X14: whatever the name, [sanitizeName] returns a text that is not
    empty, has at most 64 code units, and in which none of the fifteen
    characters [< > & \r \n \t * _ ` [ ] ( ) ~ \] occurs. *)
Theorem sanitizeName_is_safe (name : option string) :
  sanitizeName name <> ""
  /\ (String.length (sanitizeName name) <= 64)%nat
  /\ free_of markup_characters (sanitizeName name).
Proof.
  assert (Hthere : "there" <> "" /\ (String.length "there" <= 64)%nat
                   /\ markup_free "there").
  { split_and!; [done | simpl; lia |]. unfold markup_free. simpl.
    repeat constructor. }
  assert (Hsafe : sanitizeName name <> ""
    /\ (String.length (sanitizeName name) <= 64)%nat
    /\ markup_free (sanitizeName name)).
  { unfold sanitizeName. destruct name as [[|c s]|]; try done.
    pose proof (length_slice0 64 (trim (strip (String c s)))) as Hlen.
    assert (Hfree : markup_free (slice0 64 (trim (strip (String c s))))).
    { apply markup_free_slice0, markup_free_trimEnd, markup_free_trimStart,
        markup_free_strip. }
    cbv zeta. destruct (slice0 64 (trim (strip (String c s)))); [done|].
    by split_and!. }
  destruct Hsafe as (Hne & Hlen & Hfree).
  split_and!; [done | done | by apply markup_free_free_of].
Qed.

Lemma sanitizeName_is_safe_witness :
  free_of markup_characters (sanitizeName (Some "<i>*Bob* [x](y)</i>")).
Proof.
  exact (proj2 (proj2 (sanitizeName_is_safe (Some "<i>*Bob* [x](y)</i>")))).
Defined.

Lemma strip_markup_free s : markup_free s -> strip s = s.
Proof.
  unfold markup_free. induction s as [|c s IH]; simpl; [done|].
  intros Hall. apply Forall_cons in Hall as [-> Hall]. by rewrite IH.
Qed.

Lemma trimEnd_fixed s :
  (forall before c, s = before +:+ String c "" -> white_unit c = false) ->
  trimEnd s = s.
Proof.
  induction s as [|c s IH]; simpl; [done|]. intros Hlast.
  destruct s as [|d s].
  - simpl. by rewrite (Hlast "" c eq_refl).
  - rewrite IH.
    + done.
    + intros before e Heq. apply (Hlast (String c before) e).
      simpl. by rewrite Heq.
Qed.

(** X15: a name that is already clean comes back unchanged: [sanitizeName]
    returns [name] itself when [name] is not empty, has at most 64 code
    units, contains none of the removed characters, and neither starts nor
    ends with white space. *)
Theorem sanitizeName_keeps_clean_names (name : string) :
  name <> "" ->
  (String.length name <= 64)%nat ->
  markup_free name ->
  trimmed name ->
  sanitizeName (Some name) = name.
Proof.
  intros Hne Hlen Hfree [Hfirst Hlast]. unfold sanitizeName.
  destruct name as [|c s]; [done|].
  rewrite strip_markup_free by done. unfold trim.
  assert (Hstart : trimStart (String c s) = String c s).
  { simpl. by rewrite (Hfirst c s eq_refl). }
  rewrite Hstart, trimEnd_fixed by done.
  destruct (DbExtra.slice0_cut 64 (String c s)) as (_ & _ & _ & ->); done.
Qed.

Lemma sanitizeName_keeps_clean_names_witness :
  sanitizeName (Some "Ali Baba") = "Ali Baba".
Proof.
  apply sanitizeName_keeps_clean_names.
  - discriminate.
  - simpl. lia.
  - unfold markup_free. simpl. repeat constructor.
  - split.
    + intros c rest [= <- _]. reflexivity.
    + intros before c Heq.
      repeat (destruct before as [|? before]; simpl in Heq;
              [ first [discriminate Heq | by injection Heq as <-]
              | first [discriminate Heq | injection Heq as _ Heq] ]).
Defined.
End SanitizeFacts.

(** ** Facts about the listener of the intro channel *)

Module IntroHandlerFacts.
Import Config Db IntroHandler.

Lemma getUser_ok userId (d : Db.t) :
  0 < userId -> getUser userId d = (Ok (users d !! userId), d).
Proof.
  intros Hpos. unfold getUser, assertSafeInteger, bind, gets, ret.
  by rewrite (proj2 (Z.leb_gt _ _) Hpos).
Qed.

Lemma markIntroduced_ok now userId m (d : Db.t) :
  0 < userId -> 0 < m ->
  markIntroduced now userId (Some m) d
  = (Ok tt,
     {| users :=
          alter (fun row =>
            {| user_id := user_id row; username := username row;
               first_name := first_name row; introduced := 1;
               introduced_at := Some now; joined_at := joined_at row;
               intro_msg_id := Some m; updated_at := Some now |})
            userId (users d);
        settings := settings d |}).
Proof.
  intros Hpos Hm. unfold markIntroduced, assertSafeInteger, bind, modify, ret.
  by rewrite (proj2 (Z.leb_gt _ _) Hpos), (proj2 (Z.leb_gt _ _) Hm).
Qed.

(** X16: a text in the intro channel from a user who is not yet
    introduced, when the rate limiter lets it through: the user gets a row
    if there was none, and [isValidIntro] decides. An accepted text marks
    the user introduced, with the id of the message and the time, and is
    answered with the acceptance; a rejected text leaves the user pending
    and is answered with the nudge. No other user's row changes. *)
Theorem listener_judges_intro now (ctx : Ctx) (sender : Bot.User)
    (t : string) (s : State) :
  introChannelId s = Some (chat_id ctx) ->
  from ctx = Some sender ->
  Bot.id sender <> chat_id ctx ->
  0 < Bot.id sender ->
  0 < message_id (message ctx) ->
  has_text (message ctx) = Some t ->
  fst (CooldownMap.increment now (Bot.id sender) INTRO_RATE_LIMIT_MAX
         (introRateLimiter s)) = false ->
  match users (db s) !! Bot.id sender with
  | Some row => introduced row = 0
  | None => True
  end ->
  exists s' row',
    listener now ctx s = (Ok tt, s')
    /\ users (db s') !! Bot.id sender = Some row'
    /\ (forall other, other <> Bot.id sender ->
          users (db s') !! other = users (db s) !! other)
    /\ if Intro.isValidIntro t then
         introduced row' = 1
         /\ intro_msg_id row' = Some (message_id (message ctx))
         /\ introduced_at row' = Some now
         /\ sent s'
            = sent s ++ [Reply (INTRO_ACCEPTED_MESSAGE (Bot.first_name sender))
                           (message_id (message ctx))]
       else
         introduced row' = 0
         /\ sent s'
            = sent s ++ [Reply INTRO_NUDGE_MESSAGE (message_id (message ctx))].
Proof.
  intros Hchan Hfrom Hself Hpos Hmid Htext Hlim Hrec.
  unfold listener. unfold bind at 1, gets at 1. rewrite Hchan.
  rewrite bool_decide_eq_true_2 by done. cbn [negb]. rewrite Hfrom.
  rewrite bool_decide_eq_false_2 by done. rewrite Htext.
  unfold bind at 1, increment at 1.
  destruct (CooldownMap.increment now (Bot.id sender) INTRO_RATE_LIMIT_MAX
              (introRateLimiter s)) as [b c] eqn:Hinc.
  simpl in Hlim. subst b.
  unfold bind at 1, on_db at 1. cbn [db with_introRateLimiter].
  rewrite getUser_ok by done.
  destruct (users (db s) !! Bot.id sender) as [row|] eqn:Hrow.
  - unfold bind at 1, ret at 1. rewrite Hrec. cbn [Z.eqb negb].
    destruct (Intro.isValidIntro t).
    + unfold bind at 1, on_db at 1. cbn [db with_db with_introRateLimiter].
      rewrite markIntroduced_ok by done. eexists _, _.
      split; [reflexivity|]. cbn.
      split; [by rewrite lookup_alter_eq, Hrow|].
      split; [|done]. intros other Hne. by rewrite lookup_alter_ne.
    + eexists _, _. split; [reflexivity|]. cbn.
      split; [exact Hrow|]. done.
  - unfold bind at 1. unfold bind at 1, on_db at 1.
    cbn [db with_db with_introRateLimiter].
    rewrite BotFacts.upsertUser_ok by done.
    unfold on_db at 1. cbn [db with_db with_introRateLimiter users].
    rewrite getUser_ok by done. cbn [users]. rewrite lookup_insert_eq.
    rewrite !Hrow. cbn [upsert_row introduced Z.eqb negb].
    destruct (Intro.isValidIntro t).
    + unfold bind at 1, on_db at 1. cbn [db with_db with_introRateLimiter].
      rewrite markIntroduced_ok by done. eexists _, _.
      split; [reflexivity|]. cbn.
      split; [by rewrite lookup_alter_eq, lookup_insert_eq|].
      split; [|done]. intros other Hne.
      by rewrite lookup_alter_ne, lookup_insert_ne.
    + eexists _, _. split; [reflexivity|]. cbn.
      split; [by rewrite lookup_insert_eq|].
      split; [|done]. intros other Hne. by rewrite lookup_insert_ne.
Qed.

(** X17: a text in the intro channel that the rate limiter reports as
    over the limit, or that comes from a user who is introduced already,
    is passed over in silence: nothing is sent and the store is as it
    was; the attempt has been counted by the limiter. *)
Theorem listener_stays_silent now (ctx : Ctx) (sender : Bot.User)
    (t : string) (s : State) :
  introChannelId s = Some (chat_id ctx) ->
  from ctx = Some sender ->
  Bot.id sender <> chat_id ctx ->
  0 < Bot.id sender ->
  has_text (message ctx) = Some t ->
  fst (CooldownMap.increment now (Bot.id sender) INTRO_RATE_LIMIT_MAX
         (introRateLimiter s)) = true
  \/ (exists row,
        users (db s) !! Bot.id sender = Some row /\ introduced row <> 0) ->
  listener now ctx s
  = (Ok tt,
     with_introRateLimiter
       (snd (CooldownMap.increment now (Bot.id sender) INTRO_RATE_LIMIT_MAX
               (introRateLimiter s))) s).
Proof.
  intros Hchan Hfrom Hself Hpos Htext Hwhy.
  unfold listener. unfold bind at 1, gets at 1. rewrite Hchan.
  rewrite bool_decide_eq_true_2 by done. cbn [negb]. rewrite Hfrom.
  rewrite bool_decide_eq_false_2 by done. rewrite Htext.
  unfold bind at 1, increment at 1.
  destruct (CooldownMap.increment now (Bot.id sender) INTRO_RATE_LIMIT_MAX
              (introRateLimiter s)) as [b c] eqn:Hinc.
  cbn [fst snd] in *. destruct b; [done|].
  destruct Hwhy as [?|(row & Hrow & Hintro)]; [done|].
  unfold bind at 1, on_db at 1. cbn [db with_introRateLimiter].
  rewrite getUser_ok by done. rewrite Hrow.
  unfold bind at 1, ret at 1.
  apply Z.eqb_neq in Hintro. rewrite Hintro. cbn [negb]. unfold ret.
  by destruct s.
Qed.

(** X18: a message without text in the intro channel is answered with the
    media nudge exactly when its sender has a row and is not introduced;
    the store and the rate limiter are not touched. *)
Theorem listener_nudges_media now (ctx : Ctx) (sender : Bot.User)
    (s : State) :
  introChannelId s = Some (chat_id ctx) ->
  from ctx = Some sender ->
  Bot.id sender <> chat_id ctx ->
  0 < Bot.id sender ->
  has_text (message ctx) = None ->
  listener now ctx s
  = (Ok tt,
     match users (db s) !! Bot.id sender with
     | Some row =>
         if introduced row =? 0 then
           with_sent
             (sent s ++ [Reply MEDIA_NUDGE (message_id (message ctx))]) s
         else s
     | None => s
     end).
Proof.
  intros Hchan Hfrom Hself Hpos Htext.
  unfold listener. unfold bind at 1, gets at 1. rewrite Hchan.
  rewrite bool_decide_eq_true_2 by done. cbn [negb]. rewrite Hfrom.
  rewrite bool_decide_eq_false_2 by done. rewrite Htext.
  unfold bind at 1, on_db at 1. rewrite getUser_ok by done.
  destruct (users (db s) !! Bot.id sender) as [row|].
  - destruct (introduced row =? 0); unfold emit, modify, ret; by destruct s.
  - unfold ret. by destruct s.
Qed.

(** What the listener does to its rate limiter on a text: it counts the
    attempt, whatever happens next. *)
Lemma listener_counts_attempt now (ctx : Ctx) (sender : Bot.User)
    (t : string) (s : State) :
  introChannelId s = Some (chat_id ctx) ->
  from ctx = Some sender ->
  Bot.id sender <> chat_id ctx ->
  has_text (message ctx) = Some t ->
  introRateLimiter (snd (listener now ctx s))
  = snd (CooldownMap.increment now (Bot.id sender) INTRO_RATE_LIMIT_MAX
           (introRateLimiter s))
  /\ introChannelId (snd (listener now ctx s)) = introChannelId s.
Proof.
  intros Hchan Hfrom Hself Htext.
  destruct s as [d0 channel limiter l0]. cbn [introChannelId] in Hchan.
  subst channel.
  set (s := {| db := d0; introChannelId := Some (chat_id ctx);
               introRateLimiter := limiter; sent := l0 |}).
  assert (Hrun : exists r d l,
    listener now ctx s
    = (r, {| db := d; introChannelId := introChannelId s;
             introRateLimiter :=
               snd (CooldownMap.increment now (Bot.id sender)
                      INTRO_RATE_LIMIT_MAX (introRateLimiter s));
             sent := l |})).
  { unfold s, listener. unfold bind at 1, gets at 1.
    cbn [introChannelId introRateLimiter].
    rewrite bool_decide_eq_true_2 by done. cbn [negb]. rewrite Hfrom.
    rewrite bool_decide_eq_false_2 by done. rewrite Htext.
    unfold bind at 1, increment at 1. cbn [introRateLimiter].
    destruct (CooldownMap.increment now (Bot.id sender) INTRO_RATE_LIMIT_MAX
                limiter) as [b c].
    cbn [snd]. destruct b; [eexists _, _, _; reflexivity|].
    unfold bind, on_db, emit, modify, ret, getUser, upsertUser,
      markIntroduced, assertSafeInteger, throw, gets, bind.
    cbn [db with_introRateLimiter with_db].
    destruct (Bot.id sender <=? 0); cbn; [eexists _, _, _; reflexivity|].
    destruct (users d0 !! Bot.id sender) as [row|] eqn:Hrow; cbn.
    - destruct (introduced row =? 0); cbn; [|eexists _, _, _; reflexivity].
      destruct (Intro.isValidIntro t); cbn; [|eexists _, _, _; reflexivity].
      destruct (message_id (message ctx) <=? 0); cbn; eexists _, _, _; reflexivity.
    - rewrite lookup_insert_eq, ?Hrow. cbn.
      destruct (Intro.isValidIntro t); cbn; [|eexists _, _, _; reflexivity].
      destruct (message_id (message ctx) <=? 0); cbn; eexists _, _, _; reflexivity. }
  destruct Hrun as (r & d & l & ->). done.
Qed.

Lemma listener_over_limit now (ctx : Ctx) (sender : Bot.User)
    (t : string) (s : State) :
  introChannelId s = Some (chat_id ctx) ->
  from ctx = Some sender ->
  Bot.id sender <> chat_id ctx ->
  has_text (message ctx) = Some t ->
  fst (CooldownMap.increment now (Bot.id sender) INTRO_RATE_LIMIT_MAX
         (introRateLimiter s)) = true ->
  listener now ctx s
  = (Ok tt,
     with_introRateLimiter
       (snd (CooldownMap.increment now (Bot.id sender) INTRO_RATE_LIMIT_MAX
               (introRateLimiter s))) s).
Proof.
  intros Hchan Hfrom Hself Htext Hlim.
  unfold listener. unfold bind at 1, gets at 1. rewrite Hchan.
  rewrite bool_decide_eq_true_2 by done. cbn [negb]. rewrite Hfrom.
  rewrite bool_decide_eq_false_2 by done. rewrite Htext.
  unfold bind at 1, increment at 1.
  destruct (CooldownMap.increment now (Bot.id sender) INTRO_RATE_LIMIT_MAX
              (introRateLimiter s)) as [b c].
  cbn [fst snd] in *. by subst b.
Qed.

Lemma increment_all_snoc (times : list Z) : forall (key max t : Z)
    (self : CooldownMap.t Z),
  CooldownMap.increment_all (times ++ [t]) key max self
  = (fst (CooldownMap.increment_all times key max self)
       ++ [fst (CooldownMap.increment t key max
                  (snd (CooldownMap.increment_all times key max self)))],
     snd (CooldownMap.increment t key max
            (snd (CooldownMap.increment_all times key max self)))).
Proof.
  induction times as [|t0 times IH]; intros key max t self; simpl.
  - by destruct (CooldownMap.increment t key max self).
  - destruct (CooldownMap.increment t0 key max self) as [b self'].
    rewrite IH.
    by destruct (CooldownMap.increment_all times key max self').
Qed.

Lemma increment_all_length (times : list Z) : forall (key max : Z)
    (self : CooldownMap.t Z),
  length (fst (CooldownMap.increment_all times key max self)) = length times.
Proof.
  induction times as [|t0 times IH]; intros key max self; simpl; [done|].
  destruct (CooldownMap.increment t0 key max self) as [b self'].
  specialize (IH key max self').
  destruct (CooldownMap.increment_all times key max self'). simpl in *. lia.
Qed.

(** The events are texts of [sender] in the chat [chat]. *)
Lemma listen_all_counts (chat : Z) (sender : Bot.User)
    (events : list (Z * Ctx)) : forall s,
  introChannelId s = Some chat ->
  Bot.id sender <> chat ->
  Forall (fun e => chat_id e.2 = chat /\ from e.2 = Some sender
                   /\ exists t, has_text (message e.2) = Some t) events ->
  introRateLimiter (listen_all events s)
  = snd (CooldownMap.increment_all (map fst events) (Bot.id sender)
           INTRO_RATE_LIMIT_MAX (introRateLimiter s))
  /\ introChannelId (listen_all events s) = Some chat.
Proof.
  induction events as [|[now ctx] events IH]; intros s Hchan Hself Hall.
  - done.
  - apply Forall_cons in Hall as [(Hc & Hfrom & t & Htext) Hall].
    simpl in Hc, Hfrom, Htext. subst chat.
    destruct (listener_counts_attempt now ctx sender t s Hchan Hfrom Hself
                Htext) as [Hlim Hcfg].
    cbn [listen_all fold_left map fst snd].
    destruct (IH (snd (listener now ctx s))) as [IHl IHc]; try done.
    { by rewrite Hcfg. }
    unfold listen_all in IHl, IHc. rewrite IHl, IHc, Hlim. split; [|done].
    cbn [CooldownMap.increment_all].
    destruct (CooldownMap.increment now (Bot.id sender) INTRO_RATE_LIMIT_MAX
                (introRateLimiter s)) as [b self'].
    cbn [snd].
    by destruct (CooldownMap.increment_all (map fst events) (Bot.id sender)
                   INTRO_RATE_LIMIT_MAX self').
Qed.

(** X19: the intro channel hears five texts per user and window: when a
    user whose window starts with the first of them has sent
    [INTRO_RATE_LIMIT_MAX] texts or more, a further text sent before the
    window is over gets no reply and leaves the store as it is, whatever
    it says. *)
Theorem listener_hears_five_per_window (chat t1 : Z) (sender : Bot.User)
    (first : Ctx) (more : list (Z * Ctx)) (now : Z) (ctx : Ctx) (s : State) :
  introChannelId s = Some chat ->
  Bot.id sender <> chat ->
  Forall (fun e => chat_id e.2 = chat /\ from e.2 = Some sender
                   /\ exists t, has_text (message e.2) = Some t)
    ((t1, first) :: more ++ [(now, ctx)]) ->
  match JsMap.get (Bot.id sender)
          (CooldownMap._map (introRateLimiter s)) with
  | Some (CooldownMap.Attempts _ fa) =>
      CooldownMap._windowMs (introRateLimiter s) < t1 - fa
  | _ => True
  end ->
  Forall (fun e => e.1 - t1 <= CooldownMap._windowMs (introRateLimiter s))
    (more ++ [(now, ctx)]) ->
  INTRO_RATE_LIMIT_MAX <= Z.of_nat (length ((t1, first) :: more)) ->
  let heard := listen_all ((t1, first) :: more) s in
  sent (snd (listener now ctx heard)) = sent heard
  /\ db (snd (listener now ctx heard)) = db heard
  /\ fst (listener now ctx heard) = Ok tt.
Proof.
  intros Hchan Hself Hall Hfresh Hwin Hmany heard.
  change ((t1, first) :: more ++ [(now, ctx)])
    with (((t1, first) :: more) ++ [(now, ctx)]) in Hall.
  apply Forall_app in Hall as [Hall Hlast].
  apply Forall_cons in Hlast as [(Hc & Hfrom & t & Htext) _].
  simpl in Hc, Hfrom, Htext.
  destruct (listen_all_counts chat sender ((t1, first) :: more) s Hchan Hself
              Hall) as [Hlim Hcfg].
  fold heard in Hlim, Hcfg.
  assert (Hover :
    fst (CooldownMap.increment now (Bot.id sender) INTRO_RATE_LIMIT_MAX
           (introRateLimiter heard)) = true).
  { assert (Hwin' : Forall
      (fun t0 => t0 - t1 <= CooldownMap._windowMs (introRateLimiter s))
      (map fst (more ++ [(now, ctx)]))).
    { apply Forall_fmap. exact Hwin. }
    assert (Hmax : 1 <= INTRO_RATE_LIMIT_MAX) by (unfold INTRO_RATE_LIMIT_MAX; lia).
    assert (Hi : (S (length more)
                  < length (t1 :: map fst (more ++ [(now, ctx)])))%nat).
    { simpl. rewrite length_map, length_app. simpl. lia. }
    pose proof (CooldownMapFacts.increment_all_window t1
        (map fst (more ++ [(now, ctx)])) (Bot.id sender) INTRO_RATE_LIMIT_MAX
        (introRateLimiter s) (S (length more)) Hfresh Hwin' Hmax Hi) as Hnth.
    rewrite Hlim.
    rewrite map_app in Hnth. cbn [map fst] in Hnth.
    change (t1 :: map fst more ++ [now])
      with ((t1 :: map fst more) ++ [now]) in Hnth.
    rewrite increment_all_snoc in Hnth. cbn [fst] in Hnth.
    rewrite lookup_app_r in Hnth
      by (rewrite increment_all_length; simpl; rewrite length_map; lia).
    rewrite increment_all_length in Hnth. simpl length in Hnth.
    rewrite length_map, Nat.sub_diag in Hnth.
    cbn [lookup list_lookup] in Hnth.
    injection Hnth as Hb. refine (eq_trans Hb _).
    apply Z.ltb_lt. simpl length in Hmany. lia. }
  rewrite (listener_over_limit now ctx sender t heard); try done;
    by rewrite Hc.
Qed.

Lemma listener_judges_intro_witness :
  exists s' row',
    listener 1000 (IntroScenarios.text_post 7 IntroScenarios.good_text)
      IntroScenarios.fresh = (Ok tt, s')
    /\ users (db s') !! 123 = Some row'
    /\ introduced row' = 1
    /\ intro_msg_id row' = Some 7
    /\ sent s' = [Reply (INTRO_ACCEPTED_MESSAGE (Some "Test"%string)) 7].
Proof.
  destruct (listener_judges_intro 1000
              (IntroScenarios.text_post 7 IntroScenarios.good_text)
              IntroScenarios.tester IntroScenarios.good_text
              IntroScenarios.fresh)
    as (s' & row' & Hrun & Hrow & _ & Hverdict).
  - reflexivity.
  - reflexivity.
  - discriminate.
  - simpl. lia.
  - simpl. lia.
  - reflexivity.
  - reflexivity.
  - vm_compute. exact I.
  - change (Intro.isValidIntro IntroScenarios.good_text) with true in Hverdict.
    destruct Hverdict as (Hi & Hm & _ & Hsent).
    exists s', row'. split_and!; done.
Defined.

Lemma listener_stays_silent_witness :
  sent (snd (listener 2000 (IntroScenarios.text_post 8 "thanks!")
               IntroScenarios.accepted))
  = sent IntroScenarios.accepted.
Proof.
  rewrite (listener_stays_silent 2000 (IntroScenarios.text_post 8 "thanks!")
             IntroScenarios.tester "thanks!" IntroScenarios.accepted).
  - reflexivity.
  - reflexivity.
  - reflexivity.
  - discriminate.
  - simpl. lia.
  - reflexivity.
  - right. eexists. split; [vm_compute; reflexivity | discriminate].
Defined.

Lemma listener_nudges_media_witness :
  listener 2000 (IntroScenarios.media_post 9) IntroScenarios.fresh
  = (Ok tt, IntroScenarios.fresh).
Proof.
  rewrite (listener_nudges_media 2000 (IntroScenarios.media_post 9)
             IntroScenarios.tester IntroScenarios.fresh).
  - reflexivity.
  - reflexivity.
  - reflexivity.
  - discriminate.
  - simpl. lia.
  - reflexivity.
Defined.

Lemma listener_hears_five_per_window_witness :
  sent (snd (listener 5000 (IntroScenarios.text_post 6 IntroScenarios.good_text)
               (listen_all IntroScenarios.five_posts IntroScenarios.fresh)))
  = sent (listen_all IntroScenarios.five_posts IntroScenarios.fresh).
Proof.
  refine (proj1 (listener_hears_five_per_window Scenarios.INTRO_CHANNEL 0
            IntroScenarios.tester (IntroScenarios.text_post 1 "hi")
            (tail IntroScenarios.five_posts) 5000
            (IntroScenarios.text_post 6 IntroScenarios.good_text)
            IntroScenarios.fresh _ _ _ _ _ _)).
  - reflexivity.
  - discriminate.
  - unfold IntroScenarios.five_posts. simpl.
    repeat (constructor; [split_and!; try reflexivity; by eexists|]).
    constructor.
  - exact I.
  - unfold IntroScenarios.five_posts. simpl.
    repeat (constructor; [by vm_compute|]). constructor.
  - simpl. unfold INTRO_RATE_LIMIT_MAX. lia.
Defined.
End IntroHandlerFacts.

(** ** Introduced users stay introduced *)

Module ProgressFacts.
Import Db Progress.

Lemma keeps_refl (d : Db.t) : keeps_introduced d d.
Proof. intros k row Hrow Hi. by exists row. Qed.

Lemma keeps_trans (d1 d2 d3 : Db.t) :
  keeps_introduced d1 d2 -> keeps_introduced d2 d3 -> keeps_introduced d1 d3.
Proof.
  intros H12 H23 k row Hrow Hi.
  destruct (H12 k row Hrow Hi) as (row2 & Hrow2 & Hi2). by apply (H23 k row2).
Qed.

Lemma getUser_same userId (d : Db.t) : snd (getUser userId d) = d.
Proof.
  unfold getUser, assertSafeInteger, bind, gets, ret, throw.
  by destruct (userId <=? 0).
Qed.

Lemma upsertUser_keeps now userId username firstName (d : Db.t) :
  keeps_introduced d (snd (upsertUser now userId username firstName d)).
Proof.
  unfold upsertUser, assertSafeInteger, bind, modify, ret, throw.
  destruct (userId <=? 0); simpl; [apply keeps_refl|].
  intros k row Hrow Hi. simpl. destruct (decide (userId = k)) as [->|Hne].
  - rewrite lookup_insert_eq, Hrow. eexists. split; [done|]. done.
  - rewrite lookup_insert_ne by done. by exists row.
Qed.

Lemma markIntroduced_keeps now userId msgId (d : Db.t) :
  keeps_introduced d (snd (markIntroduced now userId msgId d)).
Proof.
  unfold markIntroduced, assertSafeInteger, bind, modify, ret, throw.
  destruct (userId <=? 0); simpl; [apply keeps_refl|].
  destruct msgId as [m|]; [destruct (m <=? 0); simpl; [apply keeps_refl|]|];
    (intros k row Hrow Hi; simpl;
     destruct (decide (userId = k)) as [->|Hne];
     [ rewrite lookup_alter_eq, Hrow; eexists; split; [done|]; done
     | rewrite lookup_alter_ne by done; by exists row ]).
Qed.

Section Preserves.
Context {S : Type} (dbof : S -> Db.t).

Lemma preserves_ret {A} (a : A) : preserves dbof (ret a).
Proof. intros s. apply keeps_refl. Qed.

Lemma preserves_gets {A} (f : S -> A) : preserves dbof (gets f).
Proof. intros s. apply keeps_refl. Qed.

Lemma preserves_modify (f : S -> S) :
  (forall s, dbof (f s) = dbof s) -> preserves dbof (modify f).
Proof. intros Hf s. simpl. rewrite Hf. apply keeps_refl. Qed.

Lemma preserves_bind {A B} (m : Eff S A) (k : A -> Eff S B) :
  preserves dbof m -> (forall a, preserves dbof (k a)) ->
  preserves dbof (bind m k).
Proof.
  intros Hm Hk s. unfold bind. specialize (Hm s).
  destruct (m s) as [[a|e] s1]; simpl in *; [|done].
  eapply keeps_trans; [exact Hm | apply Hk].
Qed.

Lemma preserves_for_of {A} (xs : list A) (body : A -> Eff S unit) :
  (forall x, preserves dbof (body x)) -> preserves dbof (for_of xs body).
Proof.
  intros Hbody. induction xs as [|x xs IH]; simpl.
  - apply preserves_ret.
  - apply preserves_bind; [apply Hbody | intros _; apply IH].
Qed.
End Preserves.

Lemma preserves_intro_on_db {A} (m : Eff Db.t A) :
  (forall d, keeps_introduced d (snd (m d))) ->
  preserves IntroHandler.db (IntroHandler.on_db m).
Proof.
  intros Hm s. unfold IntroHandler.on_db. specialize (Hm (IntroHandler.db s)).
  by destruct (m (IntroHandler.db s)).
Qed.

Lemma preserves_bot_on_db {A} (m : Eff Db.t A) :
  (forall d, keeps_introduced d (snd (m d))) ->
  preserves Bot.db (Bot.on_db m).
Proof.
  intros Hm s. unfold Bot.on_db. specialize (Hm (Bot.db s)).
  by destruct (m (Bot.db s)).
Qed.

Lemma keeps_getUser userId (d : Db.t) :
  keeps_introduced d (snd (getUser userId d)).
Proof. rewrite getUser_same. apply keeps_refl. Qed.

Lemma preserves_intro_increment now userId max :
  preserves IntroHandler.db (IntroHandler.increment now userId max).
Proof.
  intros s. unfold IntroHandler.increment.
  destruct (CooldownMap.increment _ _ _ _). apply keeps_refl.
Qed.

Lemma preserves_bot_isAdmin telegram now now' chatId userId :
  preserves Bot.db (Bot.isAdmin telegram now now' chatId userId).
Proof. intros s. apply keeps_refl. Qed.

Ltac preserved :=
  repeat first
    [ apply preserves_ret
    | apply preserves_gets
    | apply preserves_intro_increment
    | apply preserves_bot_isAdmin
    | apply preserves_modify; intros ?; reflexivity
    | apply preserves_intro_on_db; intros ?;
      first [apply keeps_getUser | apply upsertUser_keeps
            | apply markIntroduced_keeps]
    | apply preserves_bot_on_db; intros ?;
      first [apply keeps_getUser | apply upsertUser_keeps
            | apply markIntroduced_keeps]
    | apply preserves_for_of; intros ?
    | apply preserves_bind; [|intros ?]
    | match goal with
      | |- preserves _ (if ?b then _ else _) => destruct b
      | |- preserves _ (match ?x with _ => _ end) => destruct x
      end ].

(** X20: the three listeners never demote a user: whatever the event and
    the state, and also when the handler ends in an error, every user who
    was introduced before the join handler, the intro listener or the
    gatekeeper ran is introduced after it. *)
Theorem handlers_never_demote :
  (forall now ctx, preserves Bot.db (Bot.welcome now ctx))
  /\ (forall now ctx, preserves IntroHandler.db (IntroHandler.listener now ctx))
  /\ (forall now now' ctx, preserves Bot.db (Bot.gatekeeper now now' ctx)).
Proof.
  split_and!.
  - intros now ctx. unfold Bot.welcome, Bot.emit. preserved.
  - intros now ctx. unfold IntroHandler.listener, IntroHandler.emit. preserved.
  - intros now now' ctx. unfold Bot.gatekeeper, Bot.emit. preserved.
Qed.
End ProgressFacts.

(** ** More about the join handler and the gatekeeper *)

Module BotExtra.
Import Config Db Bot.

Lemma getUser_run userId (d : Db.t) :
  0 < userId -> getUser userId d = (Ok (users d !! userId), d).
Proof.
  intros Hpos. unfold getUser, assertSafeInteger, bind, gets, ret.
  by rewrite (proj2 (Z.leb_gt _ _) Hpos).
Qed.

Lemma asked_no_delete (calls : list (Z * Z)) (last : Action) :
  last <> DeleteMessage ->
  DeleteMessage ∉ map (fun c => GetChatMember c.1 c.2) calls ++ [last].
Proof.
  intros Hlast Hin. apply elem_of_app in Hin as [Hin|Hin].
  - apply list_elem_of_fmap in Hin as (c & Hc & _). discriminate Hc.
  - apply list_elem_of_singleton in Hin. congruence.
Qed.

(** X21: the gatekeeper never writes the store, whatever the event and
    however it ends, and it asks for a message to be deleted only in the
    main group, for a sender who is not a bot, for whom [isAdmin] has
    answered [false], and who has a row that is not introduced. *)
Theorem gatekeeper_deletes_only_pending now now' (ctx : MessageCtx)
    (w : World) :
  db (snd (gatekeeper now now' ctx w)) = db w
  /\ exists new,
       sent (snd (gatekeeper now now' ctx w)) = sent w ++ new
       /\ (DeleteMessage ∈ new ->
           mainGroupId w = Some (chat_id ctx)
           /\ exists sender row,
                from ctx = Some sender
                /\ is_bot sender = false
                /\ AdminCache.answer
                     (AdminCache.isAdmin (telegram ctx) now now'
                        (JsValue.of_Z (chat_id ctx))
                        (JsValue.of_Z (id sender)) (adminCache w)) = false
                /\ users (db w) !! id sender = Some row
                /\ introduced row = 0).
Proof.
  destruct (gatekeeper now now' ctx w) as [r w'] eqn:Hrun. cbn [snd].
  unfold gatekeeper in Hrun. unfold bind at 1, gets at 1 in Hrun.
  destruct (decide (Some (chat_id ctx) = mainGroupId w)) as [Hmain|Hmain].
  2:{ rewrite bool_decide_eq_false_2 in Hrun by done. cbn in Hrun.
      injection Hrun as <- <-. split; [done|].
      exists [Next]. split; [done|]. intros Hin.
      apply list_elem_of_singleton in Hin. discriminate Hin. }
  rewrite bool_decide_eq_true_2 in Hrun by done. cbn [negb] in Hrun.
  rewrite <- Hmain in *.
  destruct (from ctx) as [sender|].
  2:{ cbn in Hrun. injection Hrun as <- <-. split; [done|].
      exists [Next]. split; [done|]. intros Hin.
      apply list_elem_of_singleton in Hin. discriminate Hin. }
  destruct (is_bot sender) eqn:Hbot.
  { cbn in Hrun. injection Hrun as <- <-. split; [done|].
    exists [Next]. split; [done|]. intros Hin.
    apply list_elem_of_singleton in Hin. discriminate Hin. }
  unfold bind at 1, isAdmin at 1 in Hrun.
  destruct (AdminCache.answer _) eqn:Hadmin.
  { cbn in Hrun. injection Hrun as <- <-. split; [done|].
    eexists. cbn. rewrite <- app_assoc. split; [done|].
    intros Hin. by apply asked_no_delete in Hin. }
  unfold bind at 1, on_db at 1, getUser, assertSafeInteger in Hrun.
  unfold bind at 1 in Hrun. cbn [db with_sent with_adminCache] in Hrun.
  destruct (id sender <=? 0) eqn:Hid.
  { cbn in Hrun. injection Hrun as <- <-. split; [done|].
    eexists. cbn. split; [done|]. intros Hin.
    apply list_elem_of_fmap in Hin as (c & Hc & _). discriminate Hc. }
  unfold ret at 1, gets at 1 in Hrun.
  cbn [db with_db with_sent with_adminCache] in Hrun.
  destruct (users (db w) !! id sender) as [row|] eqn:Hrow.
  2:{ cbn in Hrun. injection Hrun as <- <-. split; [done|].
      eexists. cbn. rewrite <- app_assoc. split; [done|].
      intros Hin. by apply asked_no_delete in Hin. }
  destruct (introduced row =? 0) eqn:Hintro; cbn [negb] in Hrun.
  2:{ cbn in Hrun. injection Hrun as <- <-. split; [done|].
      eexists. cbn. rewrite <- app_assoc. split; [done|].
      intros Hin. by apply asked_no_delete in Hin. }
  apply Z.eqb_eq in Hintro.
  assert (Hwhy : Some (chat_id ctx) = Some (chat_id ctx)
    /\ exists sender0 row0,
         Some sender = Some sender0 /\ is_bot sender0 = false
         /\ AdminCache.answer
              (AdminCache.isAdmin (telegram ctx) now now'
                 (JsValue.of_Z (chat_id ctx)) (JsValue.of_Z (id sender0))
                 (adminCache w)) = false
         /\ users (db w) !! id sender0 = Some row0 /\ introduced row0 = 0).
  { split; [done|]. by exists sender, row. }
  unfold bind at 1, emit at 1, modify at 1 in Hrun.
  unfold bind at 1, gets at 1 in Hrun.
  destruct (CooldownMap.isLimited _ _ _).1; cbn in Hrun;
    injection Hrun as <- <-; (split; [done|]); eexists; cbn;
    rewrite <- !app_assoc; (split; [done|]); intros _; exact Hwhy.
Qed.

(** The gatekeeper on a message of a pending user who is no admin. *)
Lemma gatekeeper_blocked now now' (ctx : MessageCtx) (sender : User)
    (row : UserRow) (w : World) :
  mainGroupId w = Some (chat_id ctx) ->
  from ctx = Some sender ->
  is_bot sender = false ->
  0 < id sender ->
  AdminCache.answer
    (AdminCache.isAdmin (telegram ctx) now now' (JsValue.of_Z (chat_id ctx))
       (JsValue.of_Z (id sender)) (adminCache w)) = false ->
  users (db w) !! id sender = Some row ->
  introduced row = 0 ->
  gatekeeper now now' ctx w
  = (Ok tt,
     let out :=
       AdminCache.isAdmin (telegram ctx) now now' (JsValue.of_Z (chat_id ctx))
         (JsValue.of_Z (id sender)) (adminCache w) in
     let w1 :=
       with_sent
         (sent w ++ map (fun c => GetChatMember c.1 c.2) (AdminCache.calls out)
            ++ [DeleteMessage])
         (with_adminCache (AdminCache.cache out) w) in
     if fst (CooldownMap.isLimited now' (id sender) (reminderCooldowns w))
     then w1
     else
       with_sent
         (sent w1 ++ [ReplyThenDelete REMINDER_MESSAGE REMINDER_AUTO_DELETE_MS])
         (with_reminderCooldowns
            (CooldownMap.touch now' (id sender) (reminderCooldowns w)) w1)).
Proof.
  intros Hmain Hfrom Hbot Hpos Hadmin Hrow Hintro.
  unfold gatekeeper. unfold bind at 1, gets at 1. rewrite Hmain.
  rewrite bool_decide_eq_true_2 by done. cbn [negb]. rewrite Hfrom, Hbot.
  unfold bind at 1, isAdmin at 1. rewrite Hadmin.
  unfold bind at 1, on_db at 1. cbn [db with_sent with_adminCache].
  rewrite getUser_run by done. rewrite Hrow, Hintro. cbn [Z.eqb negb].
  unfold bind at 1, emit at 1, modify at 1.
  unfold bind at 1, gets at 1.
  cbn [reminderCooldowns with_sent with_adminCache with_db sent].
  rewrite <- app_assoc.
  destruct (CooldownMap.isLimited now' (id sender) (reminderCooldowns w)).1;
    reflexivity.
Qed.

(** X22: one reminder per cooldown: when a pending user's message in the
    main group has been deleted and answered with the reminder, a further
    message of that user is deleted without a reminder as long as less
    than the window of the reminder limiter has passed, and is answered
    with a reminder again from then on. *)
Theorem gatekeeper_reminds_once_per_cooldown t1 t1' t2 t2'
    (ctx1 ctx2 : MessageCtx) (sender : User) (row : UserRow) (w : World) :
  mainGroupId w = Some (chat_id ctx1) ->
  chat_id ctx2 = chat_id ctx1 ->
  from ctx1 = Some sender ->
  from ctx2 = Some sender ->
  is_bot sender = false ->
  0 < id sender ->
  users (db w) !! id sender = Some row ->
  introduced row = 0 ->
  let out1 :=
    AdminCache.isAdmin (telegram ctx1) t1 t1' (JsValue.of_Z (chat_id ctx1))
      (JsValue.of_Z (id sender)) (adminCache w) in
  let out2 :=
    AdminCache.isAdmin (telegram ctx2) t2 t2' (JsValue.of_Z (chat_id ctx1))
      (JsValue.of_Z (id sender)) (AdminCache.cache out1) in
  AdminCache.answer out1 = false ->
  AdminCache.answer out2 = false ->
  fst (CooldownMap.isLimited t1' (id sender) (reminderCooldowns w)) = false ->
  let w1 := snd (gatekeeper t1 t1' ctx1 w) in
  let w2 := snd (gatekeeper t2 t2' ctx2 w1) in
  let asked2 := map (fun c => GetChatMember c.1 c.2) (AdminCache.calls out2) in
  (t2' - t1' < CooldownMap._windowMs (reminderCooldowns w) ->
   sent w2 = sent w1 ++ asked2 ++ [DeleteMessage]
   /\ reminderCooldowns w2 = reminderCooldowns w1)
  /\ (CooldownMap._windowMs (reminderCooldowns w) <= t2' - t1' ->
      sent w2
      = sent w1 ++ asked2
          ++ [DeleteMessage;
              ReplyThenDelete REMINDER_MESSAGE REMINDER_AUTO_DELETE_MS]).
Proof.
  intros Hmain Hchat Hfrom1 Hfrom2 Hbot Hpos Hrow Hintro out1 out2
    Hadmin1 Hadmin2 Hfree w1 w2 asked2.
  assert (Hw1 : w1
    = with_sent
        (sent w ++ map (fun c => GetChatMember c.1 c.2) (AdminCache.calls out1)
           ++ [DeleteMessage;
               ReplyThenDelete REMINDER_MESSAGE REMINDER_AUTO_DELETE_MS])
        (with_reminderCooldowns
           (CooldownMap.touch t1' (id sender) (reminderCooldowns w))
           (with_adminCache (AdminCache.cache out1) w))).
  { unfold w1.
    rewrite (gatekeeper_blocked t1 t1' ctx1 sender row w) by done.
    cbn [snd]. fold out1. rewrite Hfree. unfold with_sent. cbn.
    by rewrite <- !app_assoc. }
  assert (Hlim : forall t,
    fst (CooldownMap.isLimited t (id sender) (reminderCooldowns w1))
    = (t - t1' <? CooldownMap._windowMs (reminderCooldowns w))).
  { intros t. rewrite Hw1. cbn [reminderCooldowns with_sent
      with_reminderCooldowns]. unfold CooldownMap.isLimited. cbn [fst].
    by rewrite CooldownMapFacts.get_touch. }
  assert (Hrun2 : gatekeeper t2 t2' ctx2 w1
    = (Ok tt,
       let w1' :=
         with_sent (sent w1 ++ asked2 ++ [DeleteMessage])
           (with_adminCache (AdminCache.cache out2) w1) in
       if fst (CooldownMap.isLimited t2' (id sender) (reminderCooldowns w1))
       then w1'
       else
         with_sent
           (sent w1' ++ [ReplyThenDelete REMINDER_MESSAGE
                           REMINDER_AUTO_DELETE_MS])
           (with_reminderCooldowns
              (CooldownMap.touch t2' (id sender) (reminderCooldowns w1)) w1'))).
  { assert (Hcache : adminCache w1 = AdminCache.cache out1)
      by by rewrite Hw1.
    rewrite (gatekeeper_blocked t2 t2' ctx2 sender row w1);
      rewrite ?Hchat, ?Hcache; try done.
    - by rewrite Hw1.
    - by rewrite Hw1. }
  unfold w2. rewrite Hrun2. cbn [snd]. rewrite Hlim. split.
  - intros Hin. rewrite (proj2 (Z.ltb_lt _ _) Hin). by cbn.
  - intros Hout. rewrite (proj2 (Z.ltb_ge _ _) Hout). cbn.
    by rewrite <- !app_assoc.
Qed.

(** The loop of the join handler of an ordinary join, while the welcome
    limiter reports the chat as limited. *)
Lemma welcome_loop_limited now (chat : Z) (ms : list User) : forall w,
  Forall (fun m => is_bot m = false -> 0 < id m) ms ->
  fst (CooldownMap.isLimited now chat (welcomeCooldowns w)) = true ->
  for_of ms (fun member =>
    if is_bot member then ret tt
    else
      bind (on_db (upsertUser now (id member) (username member)
                     (first_name member)))
        (fun _ =>
           bind (gets (fun w =>
                   fst (CooldownMap.isLimited now chat (welcomeCooldowns w))))
             (fun limited =>
                if limited then ret tt
                else
                  bind (modify (fun w =>
                          with_welcomeCooldowns
                            (CooldownMap.touch now chat (welcomeCooldowns w))
                            w))
                    (fun _ =>
                       bind (gets introChannelId)
                         (fun intro =>
                            emit (Reply (WELCOME_MESSAGE (first_name member)
                                           intro))))))) w
  = (Ok tt, with_db (upsert_all now ms (db w)) w).
Proof.
  induction ms as [|m ms IH]; intros w Hall Hlim; cbn [for_of upsert_all].
  - unfold ret. by destruct w.
  - apply Forall_cons in Hall as [Hm Hall]. unfold bind at 1.
    destruct (is_bot m) eqn:Hbot.
    + unfold ret at 1. by rewrite IH.
    + unfold bind at 1, on_db at 1.
      rewrite BotFacts.upsertUser_ok by auto.
      unfold bind at 1, gets at 1. cbv beta.
      change (welcomeCooldowns (with_db ?d w)) with (welcomeCooldowns w).
      rewrite Hlim. unfold ret at 1. by rewrite IH.
Qed.

(** X23: at most one welcome for a join event: in the main group, for an
    event that is no mass join, every member that is not a bot is
    upserted; if the welcome limiter reports the chat as limited no reply
    is sent, and if not, one welcome is sent, to the first member that is
    not a bot, and the limiter is touched. *)
Theorem welcome_greets_once_per_event now (ctx : JoinCtx) (w : World) :
  mainGroupId w = Some (join_chat_id ctx) ->
  Z.of_nat (length (new_chat_members ctx)) <= MAX_NEW_MEMBERS_PER_EVENT ->
  Forall (fun m => is_bot m = false -> 0 < id m) (new_chat_members ctx) ->
  0 < CooldownMap._windowMs (welcomeCooldowns w) ->
  exists w',
    welcome now ctx w = (Ok tt, w')
    /\ db w' = upsert_all now (new_chat_members ctx) (db w)
    /\ (sent w', welcomeCooldowns w')
       = if fst (CooldownMap.isLimited now (join_chat_id ctx)
                   (welcomeCooldowns w))
         then (sent w, welcomeCooldowns w)
         else
           match List.find (fun m => negb (is_bot m)) (new_chat_members ctx)
           with
           | Some m =>
               (sent w
                  ++ [Reply (WELCOME_MESSAGE (first_name m) (introChannelId w))],
                CooldownMap.touch now (join_chat_id ctx) (welcomeCooldowns w))
           | None => (sent w, welcomeCooldowns w)
           end.
Proof.
  intros Hmain Hfew Hids Hwin.
  unfold welcome. unfold bind at 1, gets at 1. rewrite Hmain.
  rewrite bool_decide_eq_true_2 by done.
  apply Z.ltb_ge in Hfew. rewrite Hfew. cbn [negb].
  unfold bind at 1, ret at 1.
  destruct (CooldownMap.isLimited now (join_chat_id ctx)
              (welcomeCooldowns w)).1 eqn:Hlim.
  { rewrite welcome_loop_limited by done.
    eexists. split; [reflexivity|]. by cbn. }
  clear Hfew. revert w Hmain Hwin Hlim Hids.
  generalize (new_chat_members ctx) as ms.
  induction ms as [|m ms IH]; intros w Hmain Hwin Hlim Hids.
  - eexists. split; [reflexivity|]. by cbn.
  - apply Forall_cons in Hids as [Hm Hids]. cbn [for_of List.find].
    unfold bind at 1. destruct (is_bot m) eqn:Hbot; cbn [negb].
    + unfold ret at 1. destruct (IH w Hmain Hwin Hlim Hids)
        as (w' & Hrun & Hdb & Hrest).
      exists w'. split; [exact Hrun|]. split; [|exact Hrest].
      cbn [upsert_all]. by rewrite Hbot.
    + unfold bind at 1, on_db at 1.
      rewrite BotFacts.upsertUser_ok by auto.
      unfold bind at 1, gets at 1. cbv beta.
      change (welcomeCooldowns (with_db ?d w)) with (welcomeCooldowns w).
      rewrite Hlim.
      unfold bind at 1, modify at 1. unfold bind at 1, gets at 1.
      unfold emit at 1, modify at 1.
      rewrite welcome_loop_limited.
      * eexists. split; [reflexivity|]. cbn. split; [|done].
        by rewrite Hbot, BotFacts.upsertUser_ok by auto.
      * done.
      * cbn [welcomeCooldowns with_welcomeCooldowns with_db with_sent].
        unfold CooldownMap.isLimited. cbn [fst].
        rewrite CooldownMapFacts.get_touch. apply Z.ltb_lt.
        change (CooldownMap._windowMs
                  (CooldownMap.touch now (join_chat_id ctx)
                     (welcomeCooldowns w)))
          with (CooldownMap._windowMs (welcomeCooldowns w)).
        lia.
Qed.

Lemma gatekeeper_reminds_once_per_cooldown_witness :
  sent (snd (gatekeeper 5000 5001 Scenarios.post_by_42
               (snd (gatekeeper 1000 1001 Scenarios.post_by_42
                       Scenarios.pending_world))))
  = sent (snd (gatekeeper 1000 1001 Scenarios.post_by_42
                 Scenarios.pending_world)) ++ [DeleteMessage].
Proof.
  refine (proj1 (proj1 (gatekeeper_reminds_once_per_cooldown
            1000 1001 5000 5001 Scenarios.post_by_42 Scenarios.post_by_42
            {| id := 42; is_bot := false; username := Some "bob"%string;
               first_name := Some "Bob"%string |}
            {| user_id := 42; Db.username := Some "bob"%string;
               Db.first_name := Some "Bob"%string; introduced := 0;
               introduced_at := None; joined_at := Some 0;
               intro_msg_id := None; updated_at := Some 0 |}
            Scenarios.pending_world _ _ _ _ _ _ _ _ _ _ _) _));
    first [reflexivity | by vm_compute].
Defined.

Lemma welcome_greets_once_per_event_witness :
  exists w',
    welcome 0 {| join_chat_id := Scenarios.MAIN_GROUP;
                 new_chat_members := [Scenarios.user 1; Scenarios.user 2] |}
      (start (Some Scenarios.MAIN_GROUP) (Some Scenarios.INTRO_CHANNEL))
    = (Ok tt, w')
    /\ sent w'
       = [Reply (WELCOME_MESSAGE (Some "User"%string)
                   (Some Scenarios.INTRO_CHANNEL))].
Proof.
  destruct (welcome_greets_once_per_event 0
              {| join_chat_id := Scenarios.MAIN_GROUP;
                 new_chat_members := [Scenarios.user 1; Scenarios.user 2] |}
              (start (Some Scenarios.MAIN_GROUP) (Some Scenarios.INTRO_CHANNEL)))
    as (w' & Hrun & _ & Hsent).
  - reflexivity.
  - by vm_compute.
  - repeat constructor.
  - by vm_compute.
  - exists w'. split; [exact Hrun|].
    exact (f_equal fst Hsent).
Defined.

Lemma gatekeeper_deletes_only_pending_witness :
  exists sender row,
    from Scenarios.post_by_42 = Some sender
    /\ users (db Scenarios.pending_world) !! id sender = Some row
    /\ introduced row = 0.
Proof.
  destruct (gatekeeper_deletes_only_pending 1000 1001 Scenarios.post_by_42
              Scenarios.pending_world) as (_ & new & Hsent & Hwhy).
  vm_compute in Hsent. subst new.
  destruct Hwhy as (_ & sender & row & Hfrom & _ & _ & Hrow & Hintro).
  - apply list_elem_of_further, list_elem_of_here.
  - by exists sender, row.
Defined.
End BotExtra.

(** ** The commands *)

Module AdminFacts.
Import Db Bot Admin.

Lemma state_eta (s : State) :
  with_log (log s ++ [])
    (with_world (with_adminCache (adminCache (world s)) (world s)) s) = s.
Proof.
  destruct s as [[] ? ? ?]. unfold with_log, with_world, with_adminCache.
  cbn. by rewrite app_nil_r.
Qed.

(** The guard lets an administrator of the main group through. *)
Lemma guard_admits (handler : Z -> Ctx -> Eff State unit) now now'
    (ctx : Ctx) (sender : User) (s : State) :
  mainGroupId (world s) = Some (chat_id ctx) ->
  chat_id ctx <> 0 ->
  from ctx = Some sender ->
  AdminCache.answer
    (AdminCache.isAdmin (telegram ctx) now now' (JsValue.of_Z (chat_id ctx))
       (JsValue.of_Z (id sender)) (adminCache (world s))) = true ->
  requireMainGroupAdmin handler now now' ctx s
  = handler now' ctx
      (snd (isAdmin (telegram ctx) now now' (JsValue.of_Z (chat_id ctx))
              (JsValue.of_Z (id sender)) s)).
Proof.
  intros Hmain Hchat Hfrom Hadmin.
  unfold requireMainGroupAdmin. unfold bind at 1, gets at 1.
  rewrite Hmain. rewrite bool_decide_eq_true_2 by done. cbn [negb].
  rewrite Hfrom. unfold configured.
  rewrite (proj2 (Z.eqb_neq _ _) Hchat). cbn [negb].
  unfold bind at 1, isAdmin at 1. rewrite Hadmin. by cbn [negb].
Qed.

(** X24: a command behind [requireMainGroupAdmin] does nothing for an
    outsider: unless it is sent in the main group by someone for whom
    [isAdmin] answers [true] there, the handler is not run, and nothing
    changes but the admin cache and the record of lookups made. *)
Theorem guarded_commands_ignore_outsiders
    (handler : Z -> Ctx -> Eff State unit) now now' (ctx : Ctx) (s : State) :
  (forall sender,
     mainGroupId (world s) = Some (chat_id ctx) ->
     from ctx = Some sender ->
     AdminCache.answer
       (AdminCache.isAdmin (telegram ctx) now now'
          (JsValue.of_Z (chat_id ctx)) (JsValue.of_Z (id sender))
          (adminCache (world s))) = false) ->
  exists cache' calls,
    requireMainGroupAdmin handler now now' ctx s
    = (Ok tt,
       with_log (log s ++ map (fun c => Asked c.1 c.2) calls)
         (with_world (with_adminCache cache' (world s)) s)).
Proof.
  intros Hout. unfold requireMainGroupAdmin. unfold bind at 1, gets at 1.
  assert (Hsame : exists cache' calls,
    (Ok tt, s)
    = (Ok tt,
       with_log (log s ++ map (fun c => Asked c.1 c.2) calls)
         (with_world (with_adminCache cache' (world s)) s))).
  { exists (adminCache (world s)), []. by rewrite state_eta. }
  destruct (decide (Some (chat_id ctx) = mainGroupId (world s)))
    as [Hmain|Hmain].
  2:{ by rewrite bool_decide_eq_false_2 by done. }
  rewrite bool_decide_eq_true_2 by done. cbn [negb].
  destruct (from ctx) as [sender|] eqn:Hfrom; [|done].
  destruct (configured (mainGroupId (world s))) eqn:Hconf; [|done].
  cbn [negb]. unfold bind at 1, isAdmin at 1.
  rewrite <- Hmain. rewrite (Hout sender) by done. cbn [negb].
  by eexists _, _.
Qed.

(** What [/approve] by an administrator of the main group leaves. *)
Lemma approve_run now now' (ctx : Ctx) (sender : User) (t : Z) (s : State) :
  mainGroupId (world s) = Some (chat_id ctx) ->
  chat_id ctx <> 0 ->
  from ctx = Some sender ->
  AdminCache.answer
    (AdminCache.isAdmin (telegram ctx) now now' (JsValue.of_Z (chat_id ctx))
       (JsValue.of_Z (id sender)) (adminCache (world s))) = true ->
  target ctx = Some t ->
  0 < t ->
  exists s' row,
    approve now now' ctx s = (Ok tt, s')
    /\ users (db (world s')) !! t = Some row
    /\ introduced row = 1
    /\ introduced_at row = Some now'
    /\ intro_msg_id row = None
    /\ match users (db (world s)) !! t with
       | Some old =>
           Db.username row = Db.username old
           /\ Db.first_name row = Db.first_name old
           /\ joined_at row = joined_at old
       | None =>
           Db.username row = None
           /\ Db.first_name row = None
           /\ joined_at row = Some now'
       end
    /\ (forall u, u <> t ->
          users (db (world s')) !! u = users (db (world s)) !! u)
    /\ settings (db (world s')) = settings (db (world s))
    /\ last (log s')
       = Some (EphemeralReply "User has been manually approved."
                 EPHEMERAL_REPLY_TTL_MS)
    /\ mainGroupId (world s') = mainGroupId (world s).
Proof.
  intros Hmain Hchat Hfrom Hadmin Htarget Hpos.
  unfold approve. rewrite (guard_admits _ _ _ _ sender) by done.
  set (s1 := snd (isAdmin _ _ _ _ _ s)).
  assert (Hdb : db (world s1) = db (world s)) by done.
  unfold approve_handler. rewrite Htarget.
  unfold bind at 1, on_db at 1. rewrite BotExtra.getUser_run by done.
  rewrite Hdb.
  destruct (users (db (world s)) !! t) as [old|] eqn:Hold.
  - unfold bind at 1, ret at 1. unfold bind at 1, on_db at 1.
    cbn [world with_world db with_db].
    unfold markIntroduced, assertSafeInteger.
    rewrite (proj2 (Z.leb_gt _ _) Hpos).
    unfold bind, ret, modify, ephemeralReply.
    cbn [world with_world db with_db users settings log with_log].
    eexists _, _. split; [reflexivity|].
    cbn [world with_world db with_db users settings log with_log].
    split; [by rewrite lookup_alter_eq, Hold|].
    cbn. split_and!; try done.
    + intros u Hu. by rewrite lookup_alter_ne.
    + by rewrite last_snoc.
  - unfold bind at 1. unfold bind at 1, on_db at 1.
    cbn [world with_world db with_db].
    rewrite BotFacts.upsertUser_ok by done. rewrite Hold.
    unfold on_db. cbn [world with_world db with_db].
    unfold markIntroduced, assertSafeInteger.
    rewrite (proj2 (Z.leb_gt _ _) Hpos).
    unfold bind, ret, modify, ephemeralReply.
    cbn [world with_world db with_db users settings log with_log].
    eexists _, _. split; [reflexivity|].
    cbn [world with_world db with_db users settings log with_log].
    split; [by rewrite lookup_alter_eq, lookup_insert_eq|].
    cbn. split_and!; try done.
    + intros u Hu. by rewrite lookup_alter_ne, lookup_insert_ne.
    + by rewrite last_snoc.
Qed.

(** X25: [/approve] by an administrator of the main group, for a target
    id that SQLite can store (positive and at most [MAX_ROWID]), leaves
    the target introduced, with no introduction message, whether or not
    the target was known: an unknown target gets a row without names. No
    other row changes, and the command is answered. *)
Theorem approve_introduces_target now now' (ctx : Ctx) (sender : User)
    (t : Z) (s : State) :
  mainGroupId (world s) = Some (chat_id ctx) ->
  chat_id ctx <> 0 ->
  from ctx = Some sender ->
  AdminCache.answer
    (AdminCache.isAdmin (telegram ctx) now now' (JsValue.of_Z (chat_id ctx))
       (JsValue.of_Z (id sender)) (adminCache (world s))) = true ->
  target ctx = Some t ->
  0 < t ->
  t <= DbSpec.MAX_ROWID ->
  exists s' row,
    approve now now' ctx s = (Ok tt, s')
    /\ users (db (world s')) !! t = Some row
    /\ introduced row = 1
    /\ introduced_at row = Some now'
    /\ intro_msg_id row = None
    /\ match users (db (world s)) !! t with
       | Some old =>
           Db.username row = Db.username old
           /\ Db.first_name row = Db.first_name old
           /\ joined_at row = joined_at old
       | None =>
           Db.username row = None
           /\ Db.first_name row = None
           /\ joined_at row = Some now'
       end
    /\ (forall u, u <> t ->
          users (db (world s')) !! u = users (db (world s)) !! u)
    /\ settings (db (world s')) = settings (db (world s))
    /\ last (log s')
       = Some (EphemeralReply "User has been manually approved."
                 EPHEMERAL_REPLY_TTL_MS).
Proof.
  intros Hmain Hchat Hfrom Hadmin Htarget Hpos _.
  destruct (approve_run now now' ctx sender t s)
    as (s' & row & Hrun & Hrow & Hi & Hat & Hmsg & Hold & Hrest & Hset
        & Hlog & _); try done.
  by exists s', row.
Qed.

(** The gatekeeper on a message of a user who has been introduced. *)
Lemma gatekeeper_passes_introduced now now' (post : MessageCtx)
    (poster : User) (row : UserRow) (w : World) :
  Bot.from post = Some poster ->
  0 < id poster ->
  users (db w) !! id poster = Some row ->
  introduced row = 1 ->
  exists asked,
    sent (snd (gatekeeper now now' post w))
    = sent w ++ map (fun c => GetChatMember c.1 c.2) asked ++ [Next].
Proof.
  intros Hfrom Hpos Hrow Hintro. unfold gatekeeper.
  unfold bind at 1, gets at 1.
  destruct (negb (bool_decide (Some (Bot.chat_id post) = mainGroupId w))).
  { by exists []. }
  rewrite Hfrom. destruct (is_bot poster).
  { by exists []. }
  unfold bind at 1, Bot.isAdmin at 1.
  destruct (AdminCache.answer _).
  { eexists. cbn. by rewrite <- app_assoc. }
  unfold bind at 1, Bot.on_db at 1. cbn [db with_sent with_adminCache].
  rewrite BotExtra.getUser_run by done. rewrite Hrow, Hintro.
  eexists. cbn. by rewrite <- app_assoc.
Qed.

(** X26: approval opens the gate: once an administrator of the main
    group has approved a user, the gatekeeper passes every message of
    that user on, without asking for a deletion. *)
Theorem approved_user_passes_gatekeeper now now' (ctx : Ctx)
    (sender : User) (t : Z) (s : State)
    later later' (post : MessageCtx) (poster : User) :
  mainGroupId (world s) = Some (chat_id ctx) ->
  chat_id ctx <> 0 ->
  from ctx = Some sender ->
  AdminCache.answer
    (AdminCache.isAdmin (telegram ctx) now now' (JsValue.of_Z (chat_id ctx))
       (JsValue.of_Z (id sender)) (adminCache (world s))) = true ->
  target ctx = Some t ->
  0 < t ->
  Bot.from post = Some poster ->
  id poster = t ->
  let w' := world (snd (approve now now' ctx s)) in
  exists asked,
    sent (snd (gatekeeper later later' post w'))
    = sent w' ++ map (fun c => GetChatMember c.1 c.2) asked ++ [Next].
Proof.
  intros Hmain Hchat Hfrom Hadmin Htarget Hpos Hposter Hid.
  destruct (approve_run now now' ctx sender t s)
    as (s' & row & Hrun & Hrow & Hi & _); try done.
  rewrite Hrun. cbn [snd]. subst t.
  by apply (gatekeeper_passes_introduced _ _ _ poster row).
Qed.

(** What [/reset] by an administrator of the main group leaves. *)
Lemma reset_run now now' (ctx : Ctx) (sender : User) (t : Z) (s : State) :
  mainGroupId (world s) = Some (chat_id ctx) ->
  chat_id ctx <> 0 ->
  from ctx = Some sender ->
  AdminCache.answer
    (AdminCache.isAdmin (telegram ctx) now now' (JsValue.of_Z (chat_id ctx))
       (JsValue.of_Z (id sender)) (adminCache (world s))) = true ->
  target ctx = Some t ->
  0 < t ->
  exists s',
    reset now now' ctx s = (Ok tt, s')
    /\ mainGroupId (world s') = mainGroupId (world s)
    /\ adminCache (world s')
       = AdminCache.cache
           (AdminCache.isAdmin (telegram ctx) now now'
              (JsValue.of_Z (chat_id ctx)) (JsValue.of_Z (id sender))
              (adminCache (world s)))
    /\ match users (db (world s)) !! t with
       | None =>
           db (world s') = db (world s)
           /\ last (log s')
              = Some (EphemeralReply "User not found in database."
                        EPHEMERAL_REPLY_TTL_MS)
       | Some old =>
           users (db (world s')) !! t
           = Some {| user_id := user_id old;
                     Db.username := Db.username old;
                     Db.first_name := Db.first_name old;
                     introduced := 0;
                     introduced_at := None;
                     joined_at := joined_at old;
                     intro_msg_id := None;
                     updated_at := Some now' |}
           /\ (forall u, u <> t ->
                 users (db (world s')) !! u = users (db (world s)) !! u)
           /\ settings (db (world s')) = settings (db (world s))
           /\ last (log s')
              = Some (EphemeralReply
                        "User has been reset. They will need to re-introduce themselves."
                        EPHEMERAL_REPLY_TTL_MS)
       end.
Proof.
  intros Hmain Hchat Hfrom Hadmin Htarget Hpos.
  unfold reset. rewrite (guard_admits _ _ _ _ sender) by done.
  set (s1 := snd (isAdmin _ _ _ _ _ s)).
  assert (Hdb : db (world s1) = db (world s)) by done.
  unfold reset_handler. rewrite Htarget.
  unfold bind at 1, on_db at 1. rewrite BotExtra.getUser_run by done.
  rewrite Hdb.
  destruct (users (db (world s)) !! t) as [old|] eqn:Hold.
  - unfold bind at 1, on_db at 1.
    cbn [world with_world db with_db].
    unfold resetUser, assertSafeInteger.
    rewrite (proj2 (Z.leb_gt _ _) Hpos).
    unfold bind, ret, modify, ephemeralReply.
    cbn [world with_world db with_db users settings log with_log].
    eexists. split; [reflexivity|].
    cbn [world with_world db with_db users settings log with_log].
    split; [done|]. split; [done|].
    split; [by rewrite lookup_alter_eq, Hold|].
    split_and!; try done.
    + intros u Hu. by rewrite lookup_alter_ne.
    + by rewrite last_snoc.
  - unfold ephemeralReply, modify.
    eexists. split; [reflexivity|].
    cbn [world with_world db with_db users settings log with_log].
    split; [done|]. split; [done|]. split.
    + subst s1. cbn. by destruct (db (world s)).
    + by rewrite last_snoc.
Qed.

(** X27: [/reset] by an administrator of the main group puts a known
    target back to pending, erasing when and with which message the
    target was introduced and keeping the names and the day of joining;
    for an unknown target it changes nothing in the store and says so. *)
Theorem reset_returns_target_to_pending now now' (ctx : Ctx)
    (sender : User) (t : Z) (s : State) :
  mainGroupId (world s) = Some (chat_id ctx) ->
  chat_id ctx <> 0 ->
  from ctx = Some sender ->
  AdminCache.answer
    (AdminCache.isAdmin (telegram ctx) now now' (JsValue.of_Z (chat_id ctx))
       (JsValue.of_Z (id sender)) (adminCache (world s))) = true ->
  target ctx = Some t ->
  0 < t ->
  exists s',
    reset now now' ctx s = (Ok tt, s')
    /\ match users (db (world s)) !! t with
       | None =>
           db (world s') = db (world s)
           /\ last (log s')
              = Some (EphemeralReply "User not found in database."
                        EPHEMERAL_REPLY_TTL_MS)
       | Some old =>
           users (db (world s')) !! t
           = Some {| user_id := user_id old;
                     Db.username := Db.username old;
                     Db.first_name := Db.first_name old;
                     introduced := 0;
                     introduced_at := None;
                     joined_at := joined_at old;
                     intro_msg_id := None;
                     updated_at := Some now' |}
           /\ (forall u, u <> t ->
                 users (db (world s')) !! u = users (db (world s)) !! u)
           /\ settings (db (world s')) = settings (db (world s))
           /\ last (log s')
              = Some (EphemeralReply
                        "User has been reset. They will need to re-introduce themselves."
                        EPHEMERAL_REPLY_TTL_MS)
       end.
Proof.
  intros Hmain Hchat Hfrom Hadmin Htarget Hpos.
  destruct (reset_run now now' ctx sender t s)
    as (s' & Hrun & _ & _ & Hrest); try done.
  by exists s'.
Qed.

(** X28: a reset closes the gate again: after an administrator of the
    main group has reset a known user, the next message of that user in
    the main group is deleted, unless the user is a bot or [isAdmin]
    answers [true] for them. *)
Theorem reset_user_is_gated_again now now' (ctx : Ctx)
    (sender : User) (t : Z) (old : UserRow) (s : State)
    later later' (post : MessageCtx) (poster : User) :
  mainGroupId (world s) = Some (chat_id ctx) ->
  chat_id ctx <> 0 ->
  from ctx = Some sender ->
  AdminCache.answer
    (AdminCache.isAdmin (telegram ctx) now now' (JsValue.of_Z (chat_id ctx))
       (JsValue.of_Z (id sender)) (adminCache (world s))) = true ->
  target ctx = Some t ->
  0 < t ->
  users (db (world s)) !! t = Some old ->
  Bot.chat_id post = chat_id ctx ->
  Bot.from post = Some poster ->
  id poster = t ->
  is_bot poster = false ->
  let w' := world (snd (reset now now' ctx s)) in
  let out :=
    AdminCache.isAdmin (Bot.telegram post) later later'
      (JsValue.of_Z (chat_id ctx)) (JsValue.of_Z t) (adminCache w') in
  AdminCache.answer out = false ->
  exists reminder,
    sent (snd (gatekeeper later later' post w'))
    = sent w' ++ map (fun c => GetChatMember c.1 c.2) (AdminCache.calls out)
        ++ DeleteMessage :: reminder.
Proof.
  intros Hmain Hchat Hfrom Hadmin Htarget Hpos Hold Hpost Hposter Hid Hbot.
  destruct (reset_run now now' ctx sender t s)
    as (s' & Hrun & Hmain' & _ & Hrest); try done.
  rewrite Hold in Hrest. destruct Hrest as (Hrow & _).
  rewrite Hrun. cbn [snd]. cbv zeta. intros Hno. subst t.
  assert (Hmain'' : mainGroupId (world s') = Some (Bot.chat_id post))
    by by rewrite Hmain', Hmain, Hpost.
  rewrite <- Hpost in Hno |- *.
  rewrite (BotExtra.gatekeeper_blocked later later' post poster _ (world s')
             Hmain'' Hposter Hbot Hpos Hno Hrow eq_refl).
  cbn [snd].
  destruct (CooldownMap.isLimited later' (id poster) _).1;
    cbn [sent with_sent with_reminderCooldowns];
    rewrite <- ?app_assoc; eexists; reflexivity.
Qed.

Lemma setSetting_run (key value : string) (d : Db.t) :
  key ∈ VALID_SETTING_KEYS ->
  setSetting key value d
  = (Ok tt, {| users := users d; settings := <[key := value]> (settings d) |}).
Proof.
  intros Hkey. unfold setSetting.
  assert (Hin : existsb (String.eqb key) VALID_SETTING_KEYS = true).
  { apply existsb_exists. exists key. split; [by apply list_elem_of_In|].
    apply String.eqb_refl. }
  by rewrite Hin.
Qed.

Ltac untouched Hrun :=
  injection Hrun as <- <-;
  cbn [world with_world with_log with_adminCache db mainGroupId
       introChannelId];
  split_and!; try done;
  let H := fresh in intros [H|H]; by destruct H.

(** X29: [/setgroup] always ends normally and touches neither the users
    nor the intro channel. It changes the main group or the stored
    settings only outside private chats, when the id is not fixed by the
    environment, for a sender who administers the chat and, if another
    main group is configured, administers that one as well; and then the
    main group is this chat, in memory and in the stored setting. *)
Theorem setgroup_needs_admin_of_both now now1 now2 (ctx : Ctx) (s : State) :
  let s' := snd (setgroup now now1 now2 ctx s) in
  fst (setgroup now now1 now2 ctx s) = Ok tt
  /\ users (db (world s')) = users (db (world s))
  /\ introChannelId (world s') = introChannelId (world s)
  /\ (mainGroupId (world s') <> mainGroupId (world s)
      \/ settings (db (world s')) <> settings (db (world s)) ->
      chat_type ctx <> "private"%string
      /\ mainGroupFromEnv s = false
      /\ mainGroupId (world s') = Some (chat_id ctx)
      /\ settings (db (world s'))
         = <["MAIN_GROUP_ID"%string := String_ (chat_id ctx)]>
             (settings (db (world s)))
      /\ exists sender,
           from ctx = Some sender
           /\ let out :=
                AdminCache.isAdmin (telegram ctx) now now1
                  (JsValue.of_Z (chat_id ctx)) (JsValue.of_Z (id sender))
                  (adminCache (world s)) in
              AdminCache.answer out = true
              /\ forall g,
                   mainGroupId (world s) = Some g ->
                   g <> 0 ->
                   g <> chat_id ctx ->
                   AdminCache.answer
                     (AdminCache.isAdmin (telegram ctx) now1 now2
                        (JsValue.of_Z g) (JsValue.of_Z (id sender))
                        (AdminCache.cache out)) = true).
Proof.
  destruct (setgroup now now1 now2 ctx s) as [r s'] eqn:Hrun.
  cbn [fst snd]. cbv zeta. unfold setgroup in Hrun.
  destruct (String.eqb (chat_type ctx) "private") eqn:Hpriv.
  { unfold ephemeralReply, modify in Hrun. untouched Hrun. }
  apply String.eqb_neq in Hpriv.
  destruct (from ctx) as [sender|] eqn:Hfrom.
  2:{ unfold ret in Hrun. untouched Hrun. }
  unfold bind at 1, isAdmin at 1 in Hrun.
  destruct (AdminCache.answer _) eqn:Hadmin; cbn [negb] in Hrun.
  2:{ unfold ret in Hrun. untouched Hrun. }
  unfold bind at 1, gets at 1 in Hrun.
  cbn [world with_world with_log with_adminCache mainGroupId] in Hrun.
  set (out := AdminCache.isAdmin _ _ _ _ _ (adminCache (world s))) in *.
  set (s1 := with_log _ _) in Hrun.
  assert (Htail : forall s0 : State,
    mainGroupFromEnv s0 = mainGroupFromEnv s ->
    db (world s0) = db (world s) ->
    introChannelId (world s0) = introChannelId (world s) ->
    mainGroupId (world s0) = mainGroupId (world s) ->
    (forall g, mainGroupId (world s) = Some g -> g <> 0 -> g <> chat_id ctx ->
       AdminCache.answer
         (AdminCache.isAdmin (telegram ctx) now1 now2 (JsValue.of_Z g)
            (JsValue.of_Z (id sender)) (AdminCache.cache out)) = true) ->
    bind (ret false) (fun refused : bool =>
      if refused then
        ephemeralReply
          "A main group is already configured. Only admins of the existing main group can reassign it."
      else
        bind (gets mainGroupFromEnv) (fun fromEnv : bool =>
          if fromEnv then
            ephemeralReply
              "Main group is set via MAIN_GROUP_ID environment variable. Remove it from .env to use /setgroup instead."
          else
            bind (on_db (setSetting "MAIN_GROUP_ID" (String_ (chat_id ctx))))
              (fun _ =>
                 bind (setMainGroupId (chat_id ctx))
                   (fun _ => ephemeralReply "Main group set to this chat."))))
      s0 = (r, s') ->
    r = Ok tt
    /\ users (db (world s')) = users (db (world s))
    /\ introChannelId (world s') = introChannelId (world s)
    /\ (mainGroupId (world s') <> mainGroupId (world s)
        \/ settings (db (world s')) <> settings (db (world s)) ->
        chat_type ctx <> "private"%string
        /\ mainGroupFromEnv s = false
        /\ mainGroupId (world s') = Some (chat_id ctx)
        /\ settings (db (world s'))
           = <["MAIN_GROUP_ID"%string := String_ (chat_id ctx)]>
               (settings (db (world s)))
        /\ exists sender0,
             Some sender = Some sender0
             /\ AdminCache.answer
                  (AdminCache.isAdmin (telegram ctx) now now1
                     (JsValue.of_Z (chat_id ctx)) (JsValue.of_Z (id sender0))
                     (adminCache (world s))) = true
             /\ forall g,
                  mainGroupId (world s) = Some g ->
                  g <> 0 ->
                  g <> chat_id ctx ->
                  AdminCache.answer
                    (AdminCache.isAdmin (telegram ctx) now1 now2
                       (JsValue.of_Z g) (JsValue.of_Z (id sender0))
                       (AdminCache.cache
                          (AdminCache.isAdmin (telegram ctx) now now1
                             (JsValue.of_Z (chat_id ctx))
                             (JsValue.of_Z (id sender0))
                             (adminCache (world s))))) = true)).
  { intros s0 Henv0 Hdb0 Hintro0 Hmain0 Hauth Htail.
    unfold bind at 1, ret at 1 in Htail.
    unfold bind at 1, gets at 1 in Htail. rewrite Henv0 in Htail.
    destruct (mainGroupFromEnv s) eqn:Henv.
    { unfold ephemeralReply, modify in Htail.
      injection Htail as <- <-.
      cbn [world with_world with_log db mainGroupId introChannelId].
      rewrite Hdb0, Hintro0, Hmain0.
      split_and!; try done. intros [H|H]; by destruct H. }
    unfold bind at 1, on_db at 1 in Htail.
    rewrite setSetting_run in Htail by (unfold VALID_SETTING_KEYS; set_solver).
    unfold bind, setMainGroupId, ephemeralReply, modify in Htail.
    injection Htail as <- <-.
    cbn [world with_world with_log with_db db mainGroupId introChannelId
         users settings].
    rewrite Hdb0, Hintro0.
    split_and!; try done. intros _.
    split_and!; try done. by exists sender. }
  destruct (configured (mainGroupId (world s))
            && negb (bool_decide (mainGroupId (world s) = Some (chat_id ctx))))
    eqn:Hother.
  - apply andb_true_iff in Hother as [Hconf Hne].
    apply negb_true_iff, bool_decide_eq_false in Hne.
    destruct (mainGroupId (world s)) as [g|] eqn:Hmain; [|done].
    unfold bind at 1 in Hrun. unfold bind at 1, isAdmin at 1 in Hrun.
    unfold s1 in Hrun.
    cbn [world with_world with_log with_adminCache adminCache] in Hrun.
    destruct (AdminCache.answer
                (AdminCache.isAdmin (telegram ctx) now1 now2 (JsValue.of_Z g)
                   (JsValue.of_Z (id sender)) (AdminCache.cache out)))
      eqn:Hexisting.
    + cbn [negb] in Hrun. set (s2 := with_log _ _) in Hrun.
      refine (Htail s2 eq_refl eq_refl eq_refl Hmain _ Hrun).
      intros g' Hg' _ _. by injection Hg' as <-.
    + unfold bind, ret, ephemeralReply, modify in Hrun. cbn [negb] in Hrun.
      untouched Hrun.
  - refine (Htail s1 eq_refl eq_refl eq_refl eq_refl _ Hrun).
    intros g Hg Hg0 Hgc. exfalso.
    rewrite Hg in Hother. unfold configured in Hother.
    rewrite (proj2 (Z.eqb_neq _ _) Hg0) in Hother.
    rewrite bool_decide_eq_false_2 in Hother by congruence. done.
Qed.


(** X30: [/setintro] always ends normally and touches neither the users
    nor the main group. It changes the intro channel or the stored
    settings only outside private chats, when the id is not fixed by the
    environment, in a chat that is not the main group, for a sender who
    administers the chat and, if another intro channel is configured,
    administers the main group, which must then be configured; and then
    the intro channel is this chat, in memory and in the stored
    setting. *)
Theorem setintro_never_takes_main_group now now1 now2 (ctx : Ctx)
    (s : State) :
  let s' := snd (setintro now now1 now2 ctx s) in
  fst (setintro now now1 now2 ctx s) = Ok tt
  /\ users (db (world s')) = users (db (world s))
  /\ mainGroupId (world s') = mainGroupId (world s)
  /\ (introChannelId (world s') <> introChannelId (world s)
      \/ settings (db (world s')) <> settings (db (world s)) ->
      chat_type ctx <> "private"%string
      /\ introChannelFromEnv s = false
      /\ mainGroupId (world s) <> Some (chat_id ctx)
      /\ introChannelId (world s') = Some (chat_id ctx)
      /\ settings (db (world s'))
         = <["INTRO_CHANNEL_ID"%string := String_ (chat_id ctx)]>
             (settings (db (world s)))
      /\ exists sender,
           from ctx = Some sender
           /\ let out :=
                AdminCache.isAdmin (telegram ctx) now now1
                  (JsValue.of_Z (chat_id ctx)) (JsValue.of_Z (id sender))
                  (adminCache (world s)) in
              AdminCache.answer out = true
              /\ forall c,
                   introChannelId (world s) = Some c ->
                   c <> 0 ->
                   c <> chat_id ctx ->
                   exists g,
                     mainGroupId (world s) = Some g
                     /\ g <> 0
                     /\ AdminCache.answer
                          (AdminCache.isAdmin (telegram ctx) now1 now2
                             (JsValue.of_Z g) (JsValue.of_Z (id sender))
                             (AdminCache.cache out)) = true).
Proof.
  destruct (setintro now now1 now2 ctx s) as [r s'] eqn:Hrun.
  cbn [fst snd]. cbv zeta. unfold setintro in Hrun.
  destruct (String.eqb (chat_type ctx) "private") eqn:Hpriv.
  { unfold ephemeralReply, modify in Hrun. untouched Hrun. }
  apply String.eqb_neq in Hpriv.
  destruct (from ctx) as [sender|] eqn:Hfrom.
  2:{ unfold ret in Hrun. untouched Hrun. }
  unfold bind at 1, isAdmin at 1 in Hrun.
  destruct (AdminCache.answer _) eqn:Hadmin; cbn [negb] in Hrun.
  2:{ unfold ret in Hrun. untouched Hrun. }
  unfold bind at 1, gets at 1 in Hrun.
  unfold bind at 1, gets at 1 in Hrun.
  cbn [world with_world with_log with_adminCache mainGroupId introChannelId]
    in Hrun.
  set (out := AdminCache.isAdmin _ _ _ _ _ (adminCache (world s))) in *.
  set (s1 := with_log _ _) in Hrun.
  assert (Htail : forall s0 : State,
    introChannelFromEnv s0 = introChannelFromEnv s ->
    db (world s0) = db (world s) ->
    introChannelId (world s0) = introChannelId (world s) ->
    mainGroupId (world s0) = mainGroupId (world s) ->
    (forall c, introChannelId (world s) = Some c -> c <> 0 ->
       c <> chat_id ctx ->
       exists g,
         mainGroupId (world s) = Some g
         /\ g <> 0
         /\ AdminCache.answer
              (AdminCache.isAdmin (telegram ctx) now1 now2 (JsValue.of_Z g)
                 (JsValue.of_Z (id sender)) (AdminCache.cache out)) = true) ->
    (if bool_decide (Some (chat_id ctx) = mainGroupId (world s)) then
       ephemeralReply
         "The intro channel cannot be the same as the main group."
     else
       bind (gets introChannelFromEnv) (fun fromEnv : bool =>
         if fromEnv then
           ephemeralReply
             "Intro channel is set via INTRO_CHANNEL_ID environment variable. Remove it from .env to use /setintro instead."
         else
           bind
             (on_db (setSetting "INTRO_CHANNEL_ID" (String_ (chat_id ctx))))
             (fun _ =>
                bind (setIntroChannelId (chat_id ctx))
                  (fun _ => ephemeralReply "Intro channel set to this chat."))))
      s0 = (r, s') ->
    r = Ok tt
    /\ users (db (world s')) = users (db (world s))
    /\ mainGroupId (world s') = mainGroupId (world s)
    /\ (introChannelId (world s') <> introChannelId (world s)
        \/ settings (db (world s')) <> settings (db (world s)) ->
        chat_type ctx <> "private"%string
        /\ introChannelFromEnv s = false
        /\ mainGroupId (world s) <> Some (chat_id ctx)
        /\ introChannelId (world s') = Some (chat_id ctx)
        /\ settings (db (world s'))
           = <["INTRO_CHANNEL_ID"%string := String_ (chat_id ctx)]>
               (settings (db (world s)))
        /\ exists sender0,
             Some sender = Some sender0
             /\ AdminCache.answer
                  (AdminCache.isAdmin (telegram ctx) now now1
                     (JsValue.of_Z (chat_id ctx)) (JsValue.of_Z (id sender0))
                     (adminCache (world s))) = true
             /\ forall c,
                  introChannelId (world s) = Some c ->
                  c <> 0 ->
                  c <> chat_id ctx ->
                  exists g,
                    mainGroupId (world s) = Some g
                    /\ g <> 0
                    /\ AdminCache.answer
                         (AdminCache.isAdmin (telegram ctx) now1 now2
                            (JsValue.of_Z g) (JsValue.of_Z (id sender0))
                            (AdminCache.cache
                               (AdminCache.isAdmin (telegram ctx) now now1
                                  (JsValue.of_Z (chat_id ctx))
                                  (JsValue.of_Z (id sender0))
                                  (adminCache (world s))))) = true)).
  { intros s0 Henv0 Hdb0 Hintro0 Hmain0 Hauth Htail.
    destruct (decide (Some (chat_id ctx) = mainGroupId (world s)))
      as [Hsame|Hsame].
    { rewrite bool_decide_eq_true_2 in Htail by done.
      unfold ephemeralReply, modify in Htail.
      injection Htail as <- <-.
      cbn [world with_world with_log db mainGroupId introChannelId].
      rewrite Hdb0, Hintro0, Hmain0.
      split_and!; try done. intros [H|H]; by destruct H. }
    rewrite bool_decide_eq_false_2 in Htail by done.
    unfold bind at 1, gets at 1 in Htail. rewrite Henv0 in Htail.
    destruct (introChannelFromEnv s) eqn:Henv.
    { unfold ephemeralReply, modify in Htail.
      injection Htail as <- <-.
      cbn [world with_world with_log db mainGroupId introChannelId].
      rewrite Hdb0, Hintro0, Hmain0.
      split_and!; try done. intros [H|H]; by destruct H. }
    unfold bind at 1, on_db at 1 in Htail.
    rewrite setSetting_run in Htail by (unfold VALID_SETTING_KEYS; set_solver).
    unfold bind, setIntroChannelId, ephemeralReply, modify in Htail.
    injection Htail as <- <-.
    cbn [world with_world with_log with_db db mainGroupId introChannelId
         users settings].
    rewrite Hdb0, Hmain0.
    split_and!; try done. intros _.
    split_and!; try done. by exists sender. }
  destruct (configured (introChannelId (world s))
            && negb (bool_decide
                       (introChannelId (world s) = Some (chat_id ctx))))
    eqn:Hother.
  - apply andb_true_iff in Hother as [Hconf Hne].
    apply negb_true_iff, bool_decide_eq_false in Hne.
    destruct (configured (mainGroupId (world s))) eqn:Hgroup;
      cbn [negb] in Hrun.
    2:{ unfold bind, ret, ephemeralReply, modify in Hrun. untouched Hrun. }
    destruct (mainGroupId (world s)) as [g|] eqn:Hmain; [|done].
    unfold bind at 1 in Hrun. unfold bind at 1, isAdmin at 1 in Hrun.
    unfold s1 in Hrun.
    cbn [world with_world with_log with_adminCache adminCache] in Hrun.
    destruct (AdminCache.answer
                (AdminCache.isAdmin (telegram ctx) now1 now2 (JsValue.of_Z g)
                   (JsValue.of_Z (id sender)) (AdminCache.cache out)))
      eqn:Hexisting.
    + set (s2 := with_log _ _) in Hrun.
      refine (Htail s2 eq_refl eq_refl eq_refl Hmain _ Hrun).
      intros c _ _ _. exists g. split_and!; try done.
      intros ->. done.
    + unfold bind, ret, ephemeralReply, modify in Hrun. untouched Hrun.
  - refine (Htail s1 eq_refl eq_refl eq_refl eq_refl _ Hrun).
    intros c Hc Hc0 Hcc. exfalso.
    rewrite Hc in Hother. unfold configured in Hother.
    rewrite (proj2 (Z.eqb_neq _ _) Hc0) in Hother.
    rewrite bool_decide_eq_false_2 in Hother by congruence. done.
Qed.

Lemma guarded_commands_ignore_outsiders_witness :
  db (world (snd (approve 0 1
                    (AdminScenarios.command Scenarios.plain_member
                       Scenarios.MAIN_GROUP (AdminScenarios.by_id 777))
                    AdminScenarios.configured_state)))
  = Db.initialize.
Proof.
  destruct (guarded_commands_ignore_outsiders approve_handler 0 1
              (AdminScenarios.command Scenarios.plain_member
                 Scenarios.MAIN_GROUP (AdminScenarios.by_id 777))
              AdminScenarios.configured_state)
    as (cache' & calls & Hrun).
  - intros sender _ Hsender. injection Hsender as <-. reflexivity.
  - unfold approve. rewrite Hrun. reflexivity.
Defined.

Lemma approve_introduces_target_witness :
  exists s' row,
    approve 0 1
      (AdminScenarios.command AdminScenarios.administrator
         Scenarios.MAIN_GROUP (AdminScenarios.by_id 777))
      AdminScenarios.configured_state = (Ok tt, s')
    /\ users (db (world s')) !! 777 = Some row
    /\ introduced row = 1.
Proof.
  destruct (approve_introduces_target 0 1
              (AdminScenarios.command AdminScenarios.administrator
                 Scenarios.MAIN_GROUP (AdminScenarios.by_id 777))
              (Scenarios.user 7) 777 AdminScenarios.configured_state)
    as (s' & row & Hrun & Hrow & Hintro & _);
    [reflexivity | by vm_compute | reflexivity | reflexivity | reflexivity
    | by vm_compute | by vm_compute |].
  by exists s', row.
Defined.

Lemma approved_user_passes_gatekeeper_witness :
  exists asked,
    sent (snd (gatekeeper 5 6 (AdminScenarios.post_by 777)
                 (world (snd (approve 0 1
                    (AdminScenarios.command AdminScenarios.administrator
                       Scenarios.MAIN_GROUP (AdminScenarios.by_id 777))
                    AdminScenarios.configured_state)))))
    = sent (world (snd (approve 0 1
                    (AdminScenarios.command AdminScenarios.administrator
                       Scenarios.MAIN_GROUP (AdminScenarios.by_id 777))
                    AdminScenarios.configured_state)))
        ++ map (fun c => GetChatMember c.1 c.2) asked ++ [Next].
Proof.
  apply (approved_user_passes_gatekeeper 0 1
           (AdminScenarios.command AdminScenarios.administrator
              Scenarios.MAIN_GROUP (AdminScenarios.by_id 777))
           (Scenarios.user 7) 777 AdminScenarios.configured_state
           5 6 (AdminScenarios.post_by 777) (Scenarios.user 777));
    first [reflexivity | by vm_compute].
Defined.

Lemma reset_returns_target_to_pending_witness :
  exists s' row,
    reset 300 301
      (AdminScenarios.command AdminScenarios.administrator
         Scenarios.MAIN_GROUP
         (AdminScenarios.in_reply_to (Scenarios.user 1)))
      AdminScenarios.with_alice = (Ok tt, s')
    /\ users (db (world s')) !! 1 = Some row
    /\ introduced row = 0
    /\ intro_msg_id row = None.
Proof.
  destruct (reset_returns_target_to_pending 300 301
              (AdminScenarios.command AdminScenarios.administrator
                 Scenarios.MAIN_GROUP
                 (AdminScenarios.in_reply_to (Scenarios.user 1)))
              (Scenarios.user 7) 1 AdminScenarios.with_alice)
    as (s' & Hrun & Hrest);
    [reflexivity | by vm_compute | reflexivity | reflexivity | reflexivity
    | by vm_compute |].
  exists s'. eexists. split; [exact Hrun|].
  split; [exact (proj1 Hrest)|]. by split.
Defined.

Lemma reset_user_is_gated_again_witness :
  exists reminder,
    sent (snd (gatekeeper 400 401 (AdminScenarios.post_by 1)
                 (world (snd (reset 300 301
                    (AdminScenarios.command AdminScenarios.administrator
                       Scenarios.MAIN_GROUP
                       (AdminScenarios.in_reply_to (Scenarios.user 1)))
                    AdminScenarios.with_alice)))))
    = [GetChatMember Scenarios.MAIN_GROUP 1] ++ DeleteMessage :: reminder.
Proof.
  destruct (reset_user_is_gated_again 300 301
              (AdminScenarios.command AdminScenarios.administrator
                 Scenarios.MAIN_GROUP
                 (AdminScenarios.in_reply_to (Scenarios.user 1)))
              (Scenarios.user 7) 1
              {| user_id := 1; Db.username := Some "alice"%string;
                 Db.first_name := Some "Alice"%string; introduced := 1;
                 introduced_at := Some 200; joined_at := Some 100;
                 intro_msg_id := Some 42; updated_at := Some 200 |}
              AdminScenarios.with_alice
              400 401 (AdminScenarios.post_by 1) (Scenarios.user 1))
    as (reminder & Hsent);
    try first [reflexivity | by vm_compute].
  exists reminder. exact Hsent.
Defined.

Lemma setgroup_needs_admin_of_both_witness :
  mainGroupId
    (world (snd (setgroup 0 1 2
                   (AdminScenarios.command AdminScenarios.administrator
                      Scenarios.MAIN_GROUP (AdminScenarios.by_id 0))
                   (Admin.start None None))))
  = Some Scenarios.MAIN_GROUP
  /\ settings
       (db (world (snd (setgroup 0 1 2
                   (AdminScenarios.command AdminScenarios.administrator
                      Scenarios.MAIN_GROUP (AdminScenarios.by_id 0))
                   (Admin.start None None)))))
     !! "MAIN_GROUP_ID"%string = Some "-100111"%string.
Proof.
  destruct (setgroup_needs_admin_of_both 0 1 2
              (AdminScenarios.command AdminScenarios.administrator
                 Scenarios.MAIN_GROUP (AdminScenarios.by_id 0))
              (Admin.start None None))
    as (_ & _ & _ & Hchange).
  destruct Hchange as (_ & _ & Hmain & Hset & _).
  - left. by vm_compute.
  - split; [exact Hmain|]. rewrite Hset. by vm_compute.
Defined.

Lemma setintro_never_takes_main_group_witness :
  introChannelId
    (world (snd (setintro 0 1 2
                   (AdminScenarios.command AdminScenarios.administrator
                      Scenarios.INTRO_CHANNEL (AdminScenarios.by_id 0))
                   (Admin.start (Some Scenarios.MAIN_GROUP) None))))
  = Some Scenarios.INTRO_CHANNEL.
Proof.
  destruct (setintro_never_takes_main_group 0 1 2
              (AdminScenarios.command AdminScenarios.administrator
                 Scenarios.INTRO_CHANNEL (AdminScenarios.by_id 0))
              (Admin.start (Some Scenarios.MAIN_GROUP) None))
    as (_ & _ & _ & Hchange).
  destruct Hchange as (_ & _ & _ & Hintro & _).
  - left. by vm_compute.
  - exact Hintro.
Defined.
End AdminFacts.
